(** * AIMANAGER: the adaptive knowledge and conversation-state engine

    A shallow embedding of [src/aiService.js], [src/database.js] and the two
    listings of the [AIGroupManagerBot] class kept in [src/bot.js] (the
    /quicksetup listing, lines 1-632, and the interactive-setup listing,
    lines 633-1220), with the properties the specification states about
    them.

    Conventions of the embedding.
    - A JavaScript string is a [string]: a sequence of code units.  The
      model carries eight-bit code units, which covers Latin-1 text; on
      those [toLowerCase] is the builtin's mapping, and SQLite's [LOWER]
      folds the ASCII letters only.
    - A JavaScript number that holds a count, an index, an identifier or a
      time stamp is a [nat] or a [Z].  A confidence or a similarity is a
      [Q], and arithmetic on it is exact: the rounding of double
      arithmetic is not modelled there.  Every finite double is a rational
      and finite doubles compare as rationals do.  The thresholds 0.5, 0.7
      and 0.8 are written as the fractions 1/2, 7/10 and 4/5: a stored
      double is above the literal 0.7 exactly when it is above 7/10, and
      the quotient of two string lengths (below 2^50), once rounded, is
      above the literal 0.8 exactly when the exact quotient is above 4/5.
    - The accuracy of [getGroupStats] is a percentage rounded to an
      integer, and there the rounding of the division matters (23 of 40 is
      57, not 58): it is computed on binary64 numbers, the kernel's
      primitive floats.
    - Effects are explicit: handlers run in a state-and-exception monad
      over a [World] that holds the SQLite tables, the in-memory maps of
      the two classes, the clock and the list of calls handed to the
      transport and to the completion endpoint.  What the environment
      answers (driver faults, the bot's name, a member's status, the HTTP
      outcome, the random draw, and whether SQLite finds a bound text
      equal to an integer id) is an input.  Calls that send something to
      Telegram are taken to succeed; console output is left out.
    - A handler is run to its end: the properties about sequences of
      operations or events are about handlers that do not overlap. *)

From Stdlib Require Import ZArith QArith Qround Qminmax Ascii String DecimalString.
From Stdlib Require Floats Uint63 DecimalZ.
From stdpp Require Import base tactics option list gmap strings.

Local Open Scope nat_scope.

(* ===================================================================== *)
(** * Part I. The program *)
(* ===================================================================== *)

(** ** JavaScript primitives the sources rely on *)

Module Js.

(** One code unit of [String.prototype.toLowerCase]: A-Z, and the
    Latin-1 capitals U+00C0-U+00DE without the multiplication sign. *)
Definition lower_unit (c : ascii) : ascii :=
  let n := nat_of_ascii c in
  if ((65 <=? n) && (n <=? 90)) || ((192 <=? n) && (n <=? 222) && negb (n =? 215))
  then ascii_of_nat (n + 32) else c.

Fixpoint toLowerCase (s : string) : string :=
  match s with
  | EmptyString => EmptyString
  | String c s' => String (lower_unit c) (toLowerCase s')
  end.

(** [s.charAt(i)]: the one-unit string at index [i], or the empty string. *)
Definition charAt (s : string) (i : nat) : string :=
  match String.get i s with
  | Some c => String c EmptyString
  | None => EmptyString
  end.

(** [s.includes(sub)] and [s.startsWith(p)]. *)
Fixpoint includes (s sub : string) : bool :=
  String.prefix sub s ||
  match s with
  | EmptyString => false
  | String _ s' => includes s' sub
  end.

Definition startsWith (s p : string) : bool := String.prefix p s.

(** [arr[i] = v] on an array: an existing index is overwritten, a write
    at or past the end extends the array ([hole] stands for the missing
    elements in between). *)
Definition arr_set {A} (hole : A) (arr : list A) (i : nat) (v : A) : list A :=
  if decide (i < length arr) then <[i := v]> arr
  else arr ++ replicate (i - length arr) hole ++ [v].

(** [matrix[i][j]] and [matrix[i][j] = v] on an array of arrays of numbers. *)
Definition mat_get (m : list (list nat)) (i j : nat) : nat := (m !!! i) !!! j.

Definition mat_set (m : list (list nat)) (i j : nat) (v : nat) : list (list nat) :=
  <[i := arr_set 0 (m !!! i) j v]> m.

(** [s.split(sep)] for a one-unit separator. *)
Fixpoint split (sep : ascii) (s : string) : list string :=
  match s with
  | EmptyString => [EmptyString]
  | String c s' =>
      if Ascii.eqb c sep then EmptyString :: split sep s'
      else match split sep s' with
           | piece :: pieces => String c piece :: pieces
           | [] => [String c EmptyString]
           end
  end.

(** White space of [trim] and [parseInt] among the eight-bit units. *)
Definition is_space (c : ascii) : bool :=
  let n := nat_of_ascii c in
  ((9 <=? n) && (n <=? 13)) || (n =? 32) || (n =? 160).

Fixpoint trimStart (s : string) : string :=
  match s with
  | String c s' => if is_space c then trimStart s' else s
  | EmptyString => EmptyString
  end.

Fixpoint trimEnd (s : string) : string :=
  match s with
  | EmptyString => EmptyString
  | String c s' =>
      match trimEnd s' with
      | EmptyString => if is_space c then EmptyString else String c EmptyString
      | rest => String c rest
      end
  end.

Definition trim (s : string) : string := trimEnd (trimStart s).

(** [n.toString()] for an integer. *)
Definition toString (n : Z) : string := NilZero.string_of_int (Z.to_int n).

(** [parseInt(s)]: optional white space and sign, an optional [0x], then
    the longest run of digits; [None] is NaN. *)
Definition digit_value (c : ascii) : option nat :=
  let n := nat_of_ascii c in
  if (48 <=? n) && (n <=? 57) then Some (n - 48)
  else if (97 <=? n) && (n <=? 122) then Some (n - 87)
  else if (65 <=? n) && (n <=? 90) then Some (n - 55)
  else None.

Fixpoint digits (radix : nat) (acc : option Z) (s : string) : option Z :=
  match s with
  | EmptyString => acc
  | String c s' =>
      match digit_value c with
      | Some d =>
          if d <? radix
          then digits radix
                 (Some (default 0%Z acc * Z.of_nat radix + Z.of_nat d)%Z) s'
          else acc
      | None => acc
      end
  end.

Definition parseInt (s : string) : option Z :=
  let s := trimStart s in
  let '(negative, s) :=
    match s with
    | String "-" s' => (true, s')
    | String "+" s' => (false, s')
    | _ => (false, s)
    end in
  let magnitude :=
    match s with
    | String "0" (String "x" s') => digits 16 None s'
    | String "0" (String "X" s') => digits 16 None s'
    | _ => digits 10 None s
    end in
  (fun m => if negative then (- m)%Z else m) <$> magnitude.

(** Truthiness of a string and of a number. *)
Definition truthy_str (s : string) : bool := negb (String.eqb s EmptyString).
Definition truthy_num (z : Z) : bool := negb (z =? 0)%Z.

(** A count as a JavaScript number: the binary64 value nearest to it
    (the count itself below 2^53).  Counts stay below 2^63. *)
Definition number (z : Z) : PrimFloat.float :=
  PrimFloat.of_uint63 (Uint63.of_Z z).

(** [Math.round(x)]: the integer nearest to [x], halves upwards, computed
    on the sign, mantissa and exponent of [x]; [None] is NaN or an
    infinity, which [Math.round] returns as they are. *)
Definition round (x : PrimFloat.float) : option Z :=
  match FloatOps.Prim2SF x with
  | SpecFloat.S754_zero _ => Some 0%Z
  | SpecFloat.S754_finite negative m e =>
      let v := if negative then Z.neg m else Z.pos m in
      Some (if (0 <=? e)%Z then v * 2 ^ e
            else (2 * v + 2 ^ (- e)) / 2 ^ (- e + 1))%Z
  | _ => None
  end.

(** [a > b] on numbers. *)
Definition gt (a b : Q) : bool := negb (Qle_bool a b).

End Js.

(** ** aiService.js: similarity *)

Module Similarity.
Import Js.

(** [levenshteinDistance(str1, str2)], lines 252-278: the matrix is an
    array of rows, filled by the three loops of the source. *)
Definition levenshteinDistance (str1 str2 : string) : nat :=
  let matrix := [] in
  let matrix :=
    foldl (fun m i => arr_set [] m i [i]) matrix
          (seq 0 (S (String.length str2))) in
  let matrix :=
    foldl (fun m j => mat_set m 0 j j) matrix
          (seq 0 (S (String.length str1))) in
  let matrix :=
    foldl (fun m i =>
      foldl (fun m j =>
        if String.eqb (charAt str2 (i - 1)) (charAt str1 (j - 1))
        then mat_set m i j (mat_get m (i - 1) (j - 1))
        else mat_set m i j
               (Nat.min (mat_get m (i - 1) (j - 1) + 1)
                  (Nat.min (mat_get m i (j - 1) + 1)
                           (mat_get m (i - 1) j + 1))))
        m (seq 1 (String.length str1)))
      matrix (seq 1 (String.length str2)) in
  mat_get matrix (String.length str2) (String.length str1).

(** [calculateSimilarity(str1, str2)], lines 239-247. *)
Definition calculateSimilarity (str1 str2 : string) : Q :=
  let longer :=
    if String.length str2 <? String.length str1 then str1 else str2 in
  let shorter :=
    if String.length str2 <? String.length str1 then str2 else str1 in
  if String.length longer =? 0 then 1%Q
  else
    let editDistance := levenshteinDistance longer shorter in
    (inject_Z (Z.of_nat (String.length longer) - Z.of_nat editDistance)
     / inject_Z (Z.of_nat (String.length longer)))%Q.

End Similarity.

(** ** SQLite: the scalar functions and operators the queries use *)

Module Sql.

(** [LOWER]: the built-in folds the 26 ASCII capitals only. *)
Definition lower_unit (c : ascii) : ascii :=
  let n := nat_of_ascii c in
  if (65 <=? n) && (n <=? 90) then ascii_of_nat (n + 32) else c.

Fixpoint LOWER (s : string) : string :=
  match s with
  | EmptyString => EmptyString
  | String c s' => String (lower_unit c) (LOWER s')
  end.

(** [s LIKE p]: [%] matches any run of characters, [_] any single one,
    every other character itself up to ASCII case. *)
Fixpoint like (p : string) : string -> bool :=
  match p with
  | EmptyString =>
      fun s => match s with EmptyString => true | String _ _ => false end
  | String c p' =>
      if Ascii.eqb c "%" then
        fix star (s : string) : bool :=
          like p' s ||
          match s with
          | EmptyString => false
          | String _ s' => star s'
          end
      else if Ascii.eqb c "_" then
        fun s => match s with
                 | EmptyString => false
                 | String _ s' => like p' s'
                 end
      else
        fun s => match s with
                 | EmptyString => false
                 | String d s' =>
                     Ascii.eqb (lower_unit c) (lower_unit d) && like p' s'
                 end
  end.

(** [ORDER BY key DESC]: a stable insertion sort, so rows with equal keys
    keep the order of the scan. *)
Fixpoint insert_desc {A} (lt : A -> A -> bool) (x : A) (l : list A) : list A :=
  match l with
  | [] => [x]
  | y :: l' => if lt x y then y :: insert_desc lt x l' else x :: l
  end.

Definition order_by_desc {A} (lt : A -> A -> bool) (l : list A) : list A :=
  foldr (insert_desc lt) [] l.

(** [LIMIT n]. *)
Definition limit {A} (n : nat) (l : list A) : list A := take n l.

(** [COUNT( * )] and [COUNT(DISTINCT col)]. *)
Definition count {A} (l : list A) : Z := Z.of_nat (length l).

Definition count_distinct (l : list Z) : Z :=
  Z.of_nat (length (remove_dups l)).

End Sql.

(** ** database.js: the schema *)

(** [learned_responses]. *)
Record LearnedRow := mkLearned {
  lr_id : Z;
  lr_group_id : Z;
  lr_question : string;
  lr_answer : string;
  lr_confidence : Q;
  lr_learned_from : string;
  lr_usage_count : Z;
  lr_last_used : option Z;
  lr_created_at : Z
}.

(** [groups]; [rules] and [triggers] hold the JSON text of an array of
    strings, kept here as the array itself. *)
Record GroupRow := mkGroup {
  g_group_id : Z;
  g_group_name : option string;
  g_purpose : option string;
  g_tone : option string;
  g_rules : option (list string);
  g_triggers : option (list string);
  g_setup_complete : bool;
  g_paused : bool
}.

(** The configuration object collected by a setup dialogue. *)
Record SetupData := mkSetupData {
  sd_purpose : option string;
  sd_tone : option string;
  sd_rules : option (list string);
  sd_triggers : option (list string)
}.

(** [setup_states]. *)
Record SetupRow := mkSetupRow {
  ss_user_id : Z;
  ss_group_id : Z;
  ss_step : string;
  ss_data : SetupData;
  ss_updated_at : Z
}.

(** [messages]. *)
Record MessageRow := mkMessageRow {
  m_group_id : Z;
  m_user_id : Z;
  m_content : string;
  m_message_id : Z;
  m_timestamp : Z
}.

(** [interactions]. *)
Record InteractionRow := mkInteraction {
  in_group_id : Z;
  in_question : string;
  in_answer : string;
  in_source : string;
  in_question_msg_id : Z;
  in_answer_msg_id : Z;
  in_feedback : Z;
  in_timestamp : Z
}.

(** [keywords]. *)
Record KeywordRow := mkKeyword {
  kw_group_id : Z;
  kw_keyword : string;
  kw_frequency : Z;
  kw_context : string
}.

(** [user_stats]. *)
Record UserStatRow := mkUserStat {
  us_group_id : Z;
  us_user_id : Z;
  us_message_count : Z;
  us_last_active : Z
}.

(** The database file: every table in row order, and the AUTOINCREMENT
    counter of [learned_responses]. *)
Record Tables := mkTables {
  groups : list GroupRow;
  setup_states : list SetupRow;
  messages : list MessageRow;
  learned_responses : list LearnedRow;
  learned_seq : Z;
  interactions : list InteractionRow;
  keywords : list KeywordRow;
  user_stats : list UserStatRow
}.

Definition empty_tables : Tables :=
  mkTables [] [] [] [] 0 [] [] [].

Definition with_groups (f : list GroupRow -> list GroupRow) (t : Tables) :=
  mkTables (f (groups t)) (setup_states t) (messages t) (learned_responses t)
           (learned_seq t) (interactions t) (keywords t) (user_stats t).
Definition with_setup_states (f : list SetupRow -> list SetupRow) (t : Tables) :=
  mkTables (groups t) (f (setup_states t)) (messages t) (learned_responses t)
           (learned_seq t) (interactions t) (keywords t) (user_stats t).
Definition with_messages (f : list MessageRow -> list MessageRow) (t : Tables) :=
  mkTables (groups t) (setup_states t) (f (messages t)) (learned_responses t)
           (learned_seq t) (interactions t) (keywords t) (user_stats t).
Definition with_learned (f : list LearnedRow -> list LearnedRow) (t : Tables) :=
  mkTables (groups t) (setup_states t) (messages t) (f (learned_responses t))
           (learned_seq t) (interactions t) (keywords t) (user_stats t).
Definition with_learned_seq (n : Z) (t : Tables) :=
  mkTables (groups t) (setup_states t) (messages t) (learned_responses t)
           n (interactions t) (keywords t) (user_stats t).
Definition with_interactions (f : list InteractionRow -> list InteractionRow) (t : Tables) :=
  mkTables (groups t) (setup_states t) (messages t) (learned_responses t)
           (learned_seq t) (f (interactions t)) (keywords t) (user_stats t).
Definition with_user_stats (f : list UserStatRow -> list UserStatRow) (t : Tables) :=
  mkTables (groups t) (setup_states t) (messages t) (learned_responses t)
           (learned_seq t) (interactions t) (keywords t) (f (user_stats t)).

(** ** The world the handlers run in *)

(** An identifier as JavaScript holds it: a number or a string (the two
    never compare equal as [Map] keys). *)
Abbreviation JsId := (Z + string)%type.
Abbreviation IdNum := (@inl Z string).
Abbreviation IdStr := (@inr Z string).

(** One entry of [AIService.conversationCache]. *)
Record CacheItem := mkCacheItem {
  ci_query : string;
  ci_response : string;
  ci_timestamp : Z
}.

(** One entry of [setupStates] (interactive listing). *)
Record SetupState := mkSetupState {
  st_step : string;
  st_groupId : option Z;          (* [None] is NaN *)
  st_data : SetupData
}.

(** The fixed wordings the bot sends; their text plays no role here. *)
Inductive Prompt :=
| AskPurpose | AskTone | AskRules | AskTriggers
| SetupSummary (data : SetupData).

Inductive Body :=
| Text (s : string)
| Canned (p : Prompt).

(** Calls handed to the transport and to the completion endpoint. *)
Inductive Event :=
| SendMessage (chat : JsId) (body : Body) (reply_to : option Z)
| SendChatAction (chat : Z) (action : string)
| EditReplyMarkup (chat : Z) (message : Z) (payload_id : Z)
| ClearReplyMarkup (chat : Z) (message : Z)
| AnswerCallbackQuery (query_id : string) (show_alert : bool)
| HttpGet (query : string).

Record World := mkWorld {
  tables : Tables;                             (* bot_database.db *)
  db_faults : list bool;                       (* which driver calls throw, in order *)
  conversationCache : gmap Z (list CacheItem); (* AIService *)
  setupStates : gmap JsId SetupState;          (* interactive listing *)
  clock : Z;                                   (* Date.now(), milliseconds *)
  outbox : list Event                          (* oldest first *)
}.

Definition with_tables (t : Tables) (w : World) :=
  mkWorld t (db_faults w) (conversationCache w) (setupStates w) (clock w) (outbox w).
Definition with_db_faults (f : list bool) (w : World) :=
  mkWorld (tables w) f (conversationCache w) (setupStates w) (clock w) (outbox w).
Definition with_cache (c : gmap Z (list CacheItem)) (w : World) :=
  mkWorld (tables w) (db_faults w) c (setupStates w) (clock w) (outbox w).
Definition with_setupStates (s : gmap JsId SetupState) (w : World) :=
  mkWorld (tables w) (db_faults w) (conversationCache w) s (clock w) (outbox w).
Definition with_clock (now : Z) (w : World) :=
  mkWorld (tables w) (db_faults w) (conversationCache w) (setupStates w) now (outbox w).
Definition with_outbox (o : list Event) (w : World) :=
  mkWorld (tables w) (db_faults w) (conversationCache w) (setupStates w) (clock w) o.

(** What the completion endpoint answers to one request. *)
Record Payload := mkPayload {
  success : bool;               (* truthiness of [data.success] *)
  result : option string        (* [data.result], when it is a string *)
}.

Inductive HttpOutcome :=
| Rejected                                (* timeout, network or status error *)
| Resolved (data : option Payload).       (* [response.data] *)

(** What the environment answers during one handler run. *)
Record Env := mkEnv {
  getMe : option string;          (* the bot's username; [None]: the call throws *)
  getChatMember : option string;  (* the sender's status; [None]: the call throws *)
  sent_message_id : Z;            (* [message_id] of a message the bot sends *)
  http : HttpOutcome;
  random : Q;                     (* [Math.random()] *)
  same_id : string -> Z -> bool   (* SQLite's [id = ?] for a bound text *)
}.

(** Thrown values. *)
Inductive Exn := DbError | TypeError | TransportError | HttpError.

(** State and exceptions: a computation returns a value or throws, and
    leaves a world either way. *)
Definition M (A : Type) : Type := World -> (Exn + A) * World.

Definition ret {A} (a : A) : M A := fun w => (inr a, w).

Definition bind {A B} (m : M A) (k : A -> M B) : M B :=
  fun w => match m w with
           | (inr a, w') => k a w'
           | (inl e, w') => (inl e, w')
           end.

Definition throw {A} (e : Exn) : M A := fun w => (inl e, w).

(** [try { m } catch (e) { h e }]. *)
Definition try_catch {A} (m : M A) (h : Exn -> M A) : M A :=
  fun w => match m w with
           | (inl e, w') => h e w'
           | r => r
           end.

#[global] Instance M_ret : MRet M := @ret.
#[global] Instance M_bind : MBind M := fun A B k m => bind m k.

Definition emit (e : Event) : M unit :=
  fun w => (inr tt, with_outbox (outbox w ++ [e]) w).

(** One call into the SQLite driver ([db.run], [db.get], [db.all]): it
    throws when the fault schedule says so and runs the statement
    otherwise; an exhausted schedule means no more faults. *)
Definition driver {A} (stmt : Tables -> A * Tables) : M A :=
  fun w =>
    match db_faults w with
    | true :: rest => (inl DbError, with_db_faults rest w)
    | false :: rest =>
        let '(a, t) := stmt (tables w) in
        (inr a, with_tables t (with_db_faults rest w))
    | [] =>
        let '(a, t) := stmt (tables w) in
        (inr a, with_tables t w)
    end.

(** [CURRENT_TIMESTAMP], in seconds. *)
Definition current_timestamp : M Z := fun w => (inr (clock w / 1000)%Z, w).

(** ** database.js: the operations *)

Module Database.
Import Sql.

(** The aggregate returned by [getGroupStats]; the accuracy is a
    JavaScript number: an integer, or [None] for NaN or an infinity. *)
Record Stats := mkStats {
  totalMessages : Z;
  botResponses : Z;
  learnedResponses : Z;
  activeUsers : Z;
  accuracy : option Z;
  topTopics : list (string * Z)
}.

(** [saveSetupState(userId, groupId, step, data)], lines 139-150. *)
Definition saveSetupState (userId groupId : Z) (step : string)
    (data : SetupData) : M unit :=
  try_catch
    (now ← current_timestamp;
     driver (fun t =>
       (tt, with_setup_states (fun rows =>
          if existsb (fun r => (ss_user_id r =? userId)%Z) rows
          then (fun r =>
                  if (ss_user_id r =? userId)%Z
                  then mkSetupRow (ss_user_id r) (ss_group_id r) step data
                                  now
                  else r) <$> rows
          else rows ++ [mkSetupRow userId groupId step data
                                   now]) t)))
    (fun _ => mret tt).

(** [getSetupState(userId)], lines 152-168. *)
Definition getSetupState (userId : Z) : M (option SetupRow) :=
  try_catch
    (driver (fun t =>
       (head (filter (fun r => ss_user_id r = userId) (setup_states t)), t)))
    (fun _ => mret None).

(** [deleteSetupState(userId)], lines 170-179. *)
Definition deleteSetupState (userId : Z) : M unit :=
  try_catch
    (driver (fun t =>
       (tt, with_setup_states (filter (fun r => ss_user_id r ≠ userId)) t)))
    (fun _ => mret tt).

(** [addGroup(groupId, groupName)], lines 182-191. *)
Definition addGroup (groupId : Z) (groupName : option string) : M unit :=
  try_catch
    (driver (fun t =>
       (tt, with_groups (fun rows =>
          if existsb (fun r => (g_group_id r =? groupId)%Z) rows then rows
          else rows ++ [mkGroup groupId groupName None None None None
                                false false]) t)))
    (fun _ => mret tt).

(** [getGroup(groupId)], lines 193-212. *)
Definition getGroup (groupId : Z) : M (option GroupRow) :=
  try_catch
    (driver (fun t =>
       (head (filter (fun r => g_group_id r = groupId) (groups t)), t)))
    (fun _ => mret None).

(** [updateGroupConfig(groupId, config)], lines 214-230; a [groupId] that
    is NaN is bound as NULL and selects no row. *)
Definition updateGroupConfig (groupId : option Z) (config : SetupData) : M unit :=
  try_catch
    (driver (fun t =>
       (tt, with_groups (fun rows =>
          (fun r =>
             if bool_decide (Some (g_group_id r) = groupId)
             then mkGroup (g_group_id r) (g_group_name r)
                    (sd_purpose config) (sd_tone config)
                    (sd_rules config) (sd_triggers config)
                    true (g_paused r)
             else r) <$> rows) t)))
    (fun _ => mret tt).

(** [togglePause(groupId, paused)], lines 232-241. *)
Definition togglePause (groupId : Z) (paused : bool) : M unit :=
  try_catch
    (driver (fun t =>
       (tt, with_groups (fun rows =>
          (fun r =>
             if (g_group_id r =? groupId)%Z
             then mkGroup (g_group_id r) (g_group_name r) (g_purpose r)
                    (g_tone r) (g_rules r) (g_triggers r)
                    (g_setup_complete r) paused
             else r) <$> rows) t)))
    (fun _ => mret tt).

(** [storeMessage(groupId, userId, content, messageId)], lines 244-261. *)
Definition storeMessage (groupId userId : Z) (content : string)
    (messageId : Z) : M unit :=
  try_catch
    (now ← current_timestamp;
     driver (fun t =>
       (tt, with_messages (fun rows =>
          rows ++ [mkMessageRow groupId userId content messageId
                                now]) t));;
     driver (fun t =>
       (tt, with_user_stats (fun rows =>
          if existsb (fun r => (us_group_id r =? groupId)%Z
                               && (us_user_id r =? userId)%Z) rows
          then (fun r =>
                  if (us_group_id r =? groupId)%Z && (us_user_id r =? userId)%Z
                  then mkUserStat (us_group_id r) (us_user_id r)
                         (us_message_count r + 1) now
                  else r) <$> rows
          else rows ++ [mkUserStat groupId userId 1 now]) t)))
    (fun _ => mret tt).

(** [getRecentMessages(groupId, limit)], lines 263-273. *)
Definition getRecentMessages (groupId : Z) (n : nat) : M (list MessageRow) :=
  try_catch
    (driver (fun t =>
       (limit n
          (order_by_desc (fun a b => (m_timestamp a <? m_timestamp b)%Z)
             (filter (fun r => m_group_id r = groupId) (messages t))), t)))
    (fun _ => mret []).

(** The [WHERE] clause of the look-up in [addLearnedResponse]. *)
Definition same_question (groupId : Z) (question : string) (r : LearnedRow) : bool :=
  (lr_group_id r =? groupId)%Z
  && String.eqb (LOWER (lr_question r)) (LOWER question).

(** [addLearnedResponse(groupId, question, answer, source)], lines 276-300. *)
Definition addLearnedResponse (groupId : Z) (question answer source : string)
    : M unit :=
  try_catch
    (existing ← driver (fun t =>
       (lr_id <$> head (filter (fun r => same_question groupId question r = true)
                               (learned_responses t)), t));
     match existing with
     | Some existing_id =>
         driver (fun t =>
           (tt, with_learned (fun rows =>
              (fun r =>
                 if (lr_id r =? existing_id)%Z
                 then mkLearned (lr_id r) (lr_group_id r) (lr_question r)
                        answer 1 source
                        (lr_usage_count r) (lr_last_used r) (lr_created_at r)
                 else r) <$> rows) t))
     | None =>
         now ← current_timestamp;
         driver (fun t =>
           (tt, with_learned_seq (learned_seq t + 1)
                  (with_learned (fun rows =>
                     rows ++ [mkLearned (learned_seq t + 1) groupId question
                                answer 1 source 0 None now])
                     t)))
     end)
    (fun _ => mret tt).

(** The two [WHERE] clauses of [findLearnedResponse]. *)
Definition exact_match (groupId : Z) (question : string) (r : LearnedRow) : bool :=
  (lr_group_id r =? groupId)%Z
  && String.eqb (LOWER (lr_question r)) (LOWER question)
  && Js.gt (lr_confidence r) (1 # 2).

Definition partial_match (groupId : Z) (question : string) (r : LearnedRow) : bool :=
  (lr_group_id r =? groupId)%Z
  && like ("%" +:+ LOWER (lr_question r) +:+ "%") (LOWER question)
  && Js.gt (lr_confidence r) (1 # 2).

(** [findLearnedResponse(groupId, question)], lines 302-323. *)
Definition findLearnedResponse (groupId : Z) (question : string)
    : M (option LearnedRow) :=
  try_catch
    (response ← driver (fun t =>
       (head (filter (fun r => exact_match groupId question r = true)
                     (learned_responses t)), t));
     match response with
     | Some r => mret (Some r)
     | None =>
         driver (fun t =>
           (head (limit 1
              (order_by_desc
                 (fun a b => Js.gt (lr_confidence b) (lr_confidence a))
                 (filter (fun r => partial_match groupId question r = true)
                         (learned_responses t)))), t))
     end)
    (fun _ => mret None).

(** [incrementResponseUsage(responseId)], lines 325-334. *)
Definition incrementResponseUsage (responseId : Z) : M unit :=
  try_catch
    (now ← current_timestamp;
     driver (fun t =>
       (tt, with_learned (fun rows =>
          (fun r =>
             if (lr_id r =? responseId)%Z
             then mkLearned (lr_id r) (lr_group_id r) (lr_question r)
                    (lr_answer r) (lr_confidence r) (lr_learned_from r)
                    (lr_usage_count r + 1) (Some now)
                    (lr_created_at r)
             else r) <$> rows) t)))
    (fun _ => mret tt).

(** [updateResponseConfidence(responseId, isGood)], lines 336-346. *)
Definition updateResponseConfidence (responseId : Z) (isGood : bool) : M unit :=
  try_catch
    (let adjustment := if isGood then (1 # 10)%Q else (- (15 # 100))%Q in
     driver (fun t =>
       (tt, with_learned (fun rows =>
          (fun r =>
             if (lr_id r =? responseId)%Z
             then mkLearned (lr_id r) (lr_group_id r) (lr_question r)
                    (lr_answer r)
                    (Qmax 0 (Qmin 1 (lr_confidence r + adjustment)))
                    (lr_learned_from r) (lr_usage_count r) (lr_last_used r)
                    (lr_created_at r)
             else r) <$> rows) t)))
    (fun _ => mret tt).

(** The same method when [responseId] is the text a button carries, or
    [undefined] ([None]), for which nothing is bound and the parameter is
    NULL, equal to no id.  Whether the INTEGER [id] of a row equals a
    bound text is what the driver answers, [same_id]. *)
Definition updateResponseConfidence_text (env : Env)
    (responseId : option string) (isGood : bool) : M unit :=
  try_catch
    (let adjustment := if isGood then (1 # 10)%Q else (- (15 # 100))%Q in
     driver (fun t =>
       (tt, with_learned (fun rows =>
          (fun r =>
             if match responseId with
                | Some text => same_id env text (lr_id r)
                | None => false
                end
             then mkLearned (lr_id r) (lr_group_id r) (lr_question r)
                    (lr_answer r)
                    (Qmax 0 (Qmin 1 (lr_confidence r + adjustment)))
                    (lr_learned_from r) (lr_usage_count r) (lr_last_used r)
                    (lr_created_at r)
             else r) <$> rows) t)))
    (fun _ => mret tt).

(** [forgetLearnedData(groupId, keyword)], lines 348-359. *)
Definition forgetLearnedData (groupId : Z) (keyword : string) : M Z :=
  try_catch
    (let pattern := "%" +:+ Js.toLowerCase keyword +:+ "%" in
     let doomed (r : LearnedRow) : bool :=
       (lr_group_id r =? groupId)%Z
       && (like pattern (LOWER (lr_question r))
           || like pattern (LOWER (lr_answer r))) in
     driver (fun t =>
       (count (filter (fun r => doomed r = true) (learned_responses t)),
        with_learned (filter (fun r => doomed r = false)) t)))
    (fun _ => mret 0%Z).

(** [storeInteraction(...)], lines 362-371. *)
Definition storeInteraction (groupId : Z) (question answer source : string)
    (questionMsgId answerMsgId : Z) : M unit :=
  try_catch
    (now ← current_timestamp;
     driver (fun t =>
       (tt, with_interactions (fun rows =>
          rows ++ [mkInteraction groupId question answer source
                     questionMsgId answerMsgId 0 now]) t)))
    (fun _ => mret tt).

(** [updateInteractionFeedback(answerMsgId, feedback)], lines 373-382. *)
Definition updateInteractionFeedback (answerMsgId feedback : Z) : M unit :=
  try_catch
    (driver (fun t =>
       (tt, with_interactions (fun rows =>
          (fun r =>
             if (in_answer_msg_id r =? answerMsgId)%Z
             then mkInteraction (in_group_id r) (in_question r) (in_answer r)
                    (in_source r) (in_question_msg_id r) (in_answer_msg_id r)
                    feedback (in_timestamp r)
             else r) <$> rows) t)))
    (fun _ => mret tt).

(** The record of the [catch] branch of [getGroupStats]. *)
Definition zero_stats : Stats := mkStats 0 0 0 0 (Some 0%Z) [].

(** [getGroupStats(groupId)], lines 385-445: seven queries, then the
    accuracy, a quotient of two counts times 100 in binary64 arithmetic,
    rounded by [Math.round]. *)
Definition getGroupStats (groupId : Z) : M Stats :=
  try_catch
    (totalMessages ← driver (fun t =>
       (count (filter (fun r => m_group_id r = groupId) (messages t)), t));
     botResponses ← driver (fun t =>
       (count (filter (fun r => in_group_id r = groupId) (interactions t)), t));
     learnedResponses ← driver (fun t =>
       (count (filter (fun r => lr_group_id r = groupId)
                      (learned_responses t)), t));
     activeUsers ← driver (fun t =>
       (count_distinct
          (us_user_id <$> filter (fun r => us_group_id r = groupId)
                                 (user_stats t)), t));
     goodFeedback ← driver (fun t =>
       (count (filter (fun r => in_group_id r = groupId ∧ in_feedback r = 1%Z)
                      (interactions t)), t));
     totalFeedback ← driver (fun t =>
       (count (filter (fun r => in_group_id r = groupId ∧ in_feedback r ≠ 0%Z)
                      (interactions t)), t));
     topKeywords ← driver (fun t =>
       ((fun r => (kw_keyword r, kw_frequency r)) <$>
        limit 5
          (order_by_desc (fun a b => (kw_frequency a <? kw_frequency b)%Z)
             (filter (fun r => kw_group_id r = groupId) (keywords t))), t));
     let accuracy :=
       if (0 <? totalFeedback)%Z
       then Js.round
              (PrimFloat.mul
                 (PrimFloat.div (Js.number goodFeedback)
                                (Js.number totalFeedback))
                 (Js.number 100))
       else Some 0%Z in
     mret (mkStats totalMessages botResponses learnedResponses activeUsers
                   accuracy topKeywords))
    (fun _ => mret zero_stats).

End Database.

(** ** aiService.js: the completion client and its cache *)

Module AIService.
Import Js Similarity.

Definition nl : string := String (ascii_of_nat 10) EmptyString.

(** The list of [getFallbackResponse], lines 284-289. *)
Definition fallbacks : list string :=
  [ "I'm having trouble connecting to my AI service right now. Please try again in a moment.";
    "Hmm, I couldn't process that right now. Could you rephrase your question?";
    "I'm experiencing some technical difficulties. An admin will help you shortly!";
    "Sorry, I couldn't understand that. Could you ask in a different way?" ].

(** [getFallbackResponse(query)], lines 283-292; [None] is [undefined]. *)
Definition getFallbackResponse (env : Env) (query : string) : option string :=
  let i := Qfloor (random env * inject_Z (Z.of_nat (length fallbacks))) in
  if (i <? 0)%Z then None else fallbacks !! Z.to_nat i.

(** [cacheResponse(groupId, query, response)], lines 194-210. *)
Definition cacheResponse (groupId : Z) (query response : string) : M unit :=
  fun w =>
    let cache :=
      match conversationCache w !! groupId with
      | Some c => c
      | None => []
      end in
    let cache := cache ++ [mkCacheItem (toLowerCase query) response (clock w)] in
    let cache := if 50 <? length cache then tail cache else cache in
    (inr tt, with_cache (<[groupId := cache]> (conversationCache w)) w).

(** [getCachedResponse(groupId, query)], lines 215-234; [None] is [null]. *)
Definition getCachedResponse (groupId : Z) (query : string) : M (option string) :=
  fun w =>
    match conversationCache w !! groupId with
    | None => (inr None, w)
    | Some cache =>
        let normalizedQuery := toLowerCase query in
        let found :=
          List.find (fun item =>
                       let similarity :=
                         calculateSimilarity (ci_query item) normalizedQuery in
                       Js.gt similarity (4 # 5))
                    cache in
        match found with
        | Some item =>
            if (clock w - ci_timestamp item <? 3600000)%Z
            then (inr (Some (ci_response item)), w)
            else (inr None, w)
        | None => (inr None, w)
        end
    end.

(** [axios.get(this.apiUrl, ...)]: the request leaves, then resolves or
    rejects. *)
Definition axios_get (env : Env) (query : string) : M (option Payload) :=
  emit (HttpGet query);;
  match http env with
  | Rejected => throw HttpError
  | Resolved data => mret data
  end.

(** [getResponse(query, systemContext, groupId)], lines 13-47; the result
    [None] is [null] (or [undefined]). *)
Definition getResponse (env : Env) (query systemContext : string)
    (groupId : option Z) : M (option string) :=
  try_catch
    (let enhancedQuery :=
       if truthy_str systemContext
       then "Context: " +:+ systemContext +:+ nl +:+ nl
            +:+ "User question: " +:+ query
       else query in
     response ← axios_get env enhancedQuery;
     match response with
     | Some data =>
         match success data, result data with
         | true, Some aiResponse =>
             if truthy_str aiResponse then
               match groupId with
               | Some g =>
                   if truthy_num g then cacheResponse g query aiResponse
                   else mret tt
               | None => mret tt
               end;;
               mret (Some aiResponse)
             else mret None
         | _, _ => mret None
         end
     | None => mret None
     end)
    (fun _ => mret (getFallbackResponse env query)).

End AIService.

(** ** bot.js, lines 1-632: the /quicksetup listing *)

(** The message a group message replies to. *)
Record RepliedMessage := mkReplied {
  rp_from_is_bot : option bool;   (* [from.is_bot]; [None]: no [from] *)
  rp_text : option string
}.

(** An incoming message; a message without text carries the empty string
    ([handleMessage] drops both). *)
Record Message := mkMessage {
  chat_id : Z;
  chat_type : string;
  from_id : Z;
  text : string;
  message_id : Z;
  reply_to_message : option RepliedMessage
}.

(** A button press: the query's id, who pressed, the button's data, and
    the chat and the id of the message the button hangs on. *)
Record CallbackQuery := mkCallbackQuery {
  cq_id : string;
  cq_from_id : Z;
  cq_data : string;
  cq_chat_id : Z;
  cq_message_id : Z
}.

Definition join (sep : string) (l : list string) : string :=
  match l with
  | [] => EmptyString
  | x :: l' => foldl (fun acc y => acc +:+ sep +:+ y) x l'
  end.

(** A template hole [${x}] for a value that may be [null]. *)
Definition interpolate (o : option string) : string := default "null" o.

Definition is_admin_status (status : string) : bool :=
  String.eqb status "administrator" || String.eqb status "creator".

(** [this.bot.sendMessage(chat, body, {reply_to_message_id})]. *)
Definition sendMessage (env : Env) (chat : JsId) (body : Body)
    (reply_to : option Z) : M Z :=
  emit (SendMessage chat body reply_to);;
  mret (sent_message_id env).

Module Bot.
Import Js.

(** [shouldRespond(msg, group)], lines 318-347. *)
Definition shouldRespond (env : Env) (msg : Message) (group : GroupRow) : bool :=
  let text_lower := toLowerCase (text msg) in
  let attempt : Exn + bool :=
    match getMe env with
    | None => inl TransportError
    | Some botUsername =>
        if includes (text msg) ("@" +:+ botUsername) then inr true
        else
          let rest : Exn + bool :=
            if match g_triggers group with
               | Some triggers =>
                   existsb (String.eqb "all") triggers
                   && includes text_lower "?"
               | None => false
               end
            then inr true
            else
              match g_triggers group with
              | Some triggers =>
                  inr (existsb (fun trigger =>
                                  includes text_lower (toLowerCase trigger))
                               triggers)
              | None => inr false
              end in
          match reply_to_message msg with
          | Some replied =>
              match rp_from_is_bot replied with
              | None => inl TypeError
              | Some true => inr true
              | Some false => rest
              end
          | None => rest
          end
    end in
  match attempt with
  | inr answer => answer
  | inl _ => false
  end.

(** [addFeedbackButtons(chatId, messageId, responseId)], lines 391-409:
    the edit is scheduled; its failure is ignored. *)
Definition addFeedbackButtons (chatId messageId : Z) (responseId : option Z)
    : M unit :=
  let payload :=
    match responseId with
    | Some r => if truthy_num r then r else messageId
    | None => messageId
    end in
  emit (EditReplyMarkup chatId messageId payload).

(** [learnFromAdmin(chatId, question, answer)], lines 386-389. *)
Definition learnFromAdmin (chatId : Z) (question answer : string) : M unit :=
  Database.addLearnedResponse chatId question answer "admin".

(** The system context of [generateAIResponse], lines 359-364. *)
Definition systemContext (group : GroupRow) : string :=
  "You are a helpful AI assistant for a Telegram group." +:+ AIService.nl
  +:+ "Group Purpose: " +:+ interpolate (g_purpose group) +:+ AIService.nl
  +:+ "Tone: " +:+ interpolate (g_tone group) +:+ AIService.nl
  +:+ "Rules: "
  +:+ match g_rules group with
      | Some rules => join ", " rules
      | None => "None"
      end
  +:+ AIService.nl +:+ AIService.nl
  +:+ "Answer the user's question naturally and helpfully. Keep responses concise (under 200 words).".

(** [generateAIResponse(msg, group)], lines 349-384. *)
Definition generateAIResponse (env : Env) (msg : Message) (group : GroupRow)
    : M unit :=
  try_catch
    (recentMessages ← Database.getRecentMessages (chat_id msg) 5;
     aiResponse ← AIService.getResponse env (text msg) (systemContext group) None;
     match aiResponse with
     | Some answer =>
         if truthy_str answer then
           response_id ← sendMessage env (IdNum (chat_id msg)) (Text answer)
                                      (Some (message_id msg));
           Database.storeInteraction (chat_id msg) (text msg) answer "ai"
             (message_id msg) response_id;;
           addFeedbackButtons (chat_id msg) response_id None
         else mret tt
     | None => mret tt
     end)
    (fun _ => mret tt).

(** Lines 301-315 of [handleGroupMessage]: the reply, from the knowledge
    store or from the completion service. *)
Definition replyToGroupMessage (env : Env) (msg : Message) (group : GroupRow)
    : M unit :=
  learnedResponse ← Database.findLearnedResponse (chat_id msg) (text msg);
  match learnedResponse with
  | Some learned =>
      if Js.gt (lr_confidence learned) (7 # 10) then
        response_id ← sendMessage env (IdNum (chat_id msg))
                                   (Text (lr_answer learned))
                                   (Some (message_id msg));
        Database.incrementResponseUsage (lr_id learned);;
        addFeedbackButtons (chat_id msg) response_id (Some (lr_id learned))
      else generateAIResponse env msg group
  | None => generateAIResponse env msg group
  end.

(** [handleGroupMessage(msg)], lines 259-316. *)
Definition handleGroupMessage (env : Env) (msg : Message) : M unit :=
  group ← Database.getGroup (chat_id msg);
  match group with
  | None => mret tt
  | Some group =>
      if negb (g_setup_complete group) then mret tt
      else if g_paused group then mret tt
      else
        Database.storeMessage (chat_id msg) (from_id msg) (text msg)
                              (message_id msg);;
        if negb (shouldRespond env msg group) then mret tt
        else
          emit (SendChatAction (chat_id msg) "typing");;
          try_catch
            (match getChatMember env with
             | None => throw TransportError
             | Some status =>
                 match is_admin_status status, reply_to_message msg with
                 | true, Some replied =>
                     match rp_text replied with
                     | Some originalMessage =>
                         if truthy_str originalMessage
                         then learnFromAdmin (chat_id msg) originalMessage
                                             (text msg)
                         else mret tt
                     | None => mret tt
                     end
                 | _, _ => mret tt
                 end
             end)
            (fun _ => mret tt);;
          replyToGroupMessage env msg group
  end.

(** [handleMessage(msg)], lines 244-257. *)
Definition handleMessage (env : Env) (msg : Message) : M unit :=
  if negb (truthy_str (text msg)) || startsWith (text msg) "/" then mret tt
  else if String.eqb (chat_type msg) "group"
          || String.eqb (chat_type msg) "supergroup"
  then handleGroupMessage env msg
  else mret tt.

(** [handleFeedback(query)], lines 411-432: the vote and the id are the
    second and third pieces of the button's data ([undefined] when there
    are fewer); a failure of the last call is ignored. *)
Definition handleFeedback (env : Env) (query : CallbackQuery) : M unit :=
  let parts := split "_" (cq_data query) in
  let sentiment := parts !! 1 in
  let id := parts !! 2 in
  emit (AnswerCallbackQuery (cq_id query) false);;
  (if bool_decide (id ≠ Some "null")
   then Database.updateResponseConfidence_text env id
          (bool_decide (sentiment = Some "good"))
   else mret tt);;
  try_catch (emit (ClearReplyMarkup (cq_chat_id query) (cq_message_id query)))
            (fun _ => mret tt).

(** [handleCallbackQuery(query)], lines 236-242. *)
Definition handleCallbackQuery (env : Env) (query : CallbackQuery) : M unit :=
  if startsWith (cq_data query) "feedback_" then handleFeedback env query
  else mret tt.

End Bot.

(** ** bot.js, lines 633-1220: the interactive-setup listing *)

Definition empty_data : SetupData := mkSetupData None None None None.

Module BotInteractive.
Import Js.

(** [shouldRespond(msg, group)], lines 923-941; nothing is caught here,
    so the outcome may be a thrown value. *)
Definition shouldRespond (env : Env) (msg : Message) (group : GroupRow)
    : Exn + bool :=
  let text_lower := toLowerCase (text msg) in
  match getMe env with
  | None => inl TransportError
  | Some botUsername =>
      if includes (text msg) ("@" +:+ botUsername) then inr true
      else
        let rest : Exn + bool :=
          match g_triggers group with
          | None => inl TypeError
          | Some triggers =>
              if existsb (String.eqb "all") triggers then inr true
              else if includes text_lower "?" then inr true
              else inr (existsb (fun trigger =>
                                   includes text_lower (toLowerCase trigger))
                                triggers)
          end in
        match reply_to_message msg with
        | Some replied =>
            match rp_from_is_bot replied with
            | None => inl TypeError
            | Some true => inr true
            | Some false => rest
            end
        | None => rest
        end
  end.

(** [this.setupStates.set(key, state)]. *)
Definition set_session (key : JsId) (state : SetupState) : M unit :=
  fun w => (inr tt, with_setupStates (<[key := state]> (setupStates w)) w).

(** [this.setupStates.get(key)]; [None] is [undefined]. *)
Definition get_session (key : JsId) : M (option SetupState) :=
  fun w => (inr (setupStates w !! key), w).

(** [this.setupStates.delete(key)]. *)
Definition delete_session (key : JsId) : M unit :=
  fun w => (inr tt, with_setupStates (delete key (setupStates w)) w).

(** [handleFeedback(query)], lines 1007-1024: the vote and the id are the
    second and third pieces of the button's data ([undefined] when there
    are fewer); nothing is caught here. *)
Definition handleFeedback (env : Env) (query : CallbackQuery) : M unit :=
  let parts := split "_" (cq_data query) in
  let sentiment := parts !! 1 in
  let id := parts !! 2 in
  emit (AnswerCallbackQuery (cq_id query) false);;
  (if bool_decide (id ≠ Some "null")
   then Database.updateResponseConfidence_text env id
          (bool_decide (sentiment = Some "good"))
   else mret tt);;
  emit (ClearReplyMarkup (cq_chat_id query) (cq_message_id query)).

(** [handleCallbackQuery(query)], lines 740-783.  The class of the
    listing has no [handleAdminConfirmation], so the call in the
    [confirm_] branch throws a TypeError. *)
Definition handleCallbackQuery (env : Env) (query : CallbackQuery) : M unit :=
  let data := cq_data query in
  if startsWith data "setup_" then
    let parts := split "_" data in
    let userId := parts !! 1 in
    let groupId := parts !! 2 in
    match userId with
    | Some userId =>
        if negb (String.eqb (toString (cq_from_id query)) userId) then
          emit (AnswerCallbackQuery (cq_id query) true)
        else
          emit (AnswerCallbackQuery (cq_id query) false);;
          sendMessage env (IdStr userId) (Canned AskPurpose) None;;
          set_session (IdStr userId)
            (mkSetupState "purpose" (groupId ≫= parseInt) empty_data)
    | None => emit (AnswerCallbackQuery (cq_id query) true)
    end
  else if startsWith data "confirm_" then throw TypeError
  else if startsWith data "feedback_" then handleFeedback env query
  else mret tt.

(** The guard of [handleMessage], line 795, that routes a private
    message into the dialogue. *)
Definition in_setup (w : World) (msg : Message) : bool :=
  String.eqb (chat_type msg) "private"
  && bool_decide (is_Some (setupStates w !! IdNum (from_id msg))).

(** [handleSetupFlow(msg)], lines 806-874.  The session object is
    mutated in place, before the prompt is sent. *)
Definition handleSetupFlow (env : Env) (msg : Message) : M unit :=
  let userId := from_id msg in
  state ← get_session (IdNum userId);
  match state with
  | None => throw TypeError
  | Some state =>
      let data := st_data state in
      if String.eqb (st_step state) "purpose" then
        set_session (IdNum userId)
          (mkSetupState "tone" (st_groupId state)
             (mkSetupData (Some (text msg)) (sd_tone data) (sd_rules data)
                          (sd_triggers data)));;
        sendMessage env (IdNum userId) (Canned AskTone) None;;
        mret tt
      else if String.eqb (st_step state) "tone" then
        set_session (IdNum userId)
          (mkSetupState "rules" (st_groupId state)
             (mkSetupData (sd_purpose data) (Some (text msg)) (sd_rules data)
                          (sd_triggers data)));;
        sendMessage env (IdNum userId) (Canned AskRules) None;;
        mret tt
      else if String.eqb (st_step state) "rules" then
        let rules :=
          if negb (String.eqb (toLowerCase (text msg)) "none")
          then trim <$> split "," (text msg)
          else [] in
        set_session (IdNum userId)
          (mkSetupState "triggers" (st_groupId state)
             (mkSetupData (sd_purpose data) (sd_tone data) (Some rules)
                          (sd_triggers data)));;
        sendMessage env (IdNum userId) (Canned AskTriggers) None;;
        mret tt
      else if String.eqb (st_step state) "triggers" then
        let triggers :=
          if String.eqb (toLowerCase (text msg)) "all"
          then ["all"]
          else trim <$> split "," (text msg) in
        let data :=
          mkSetupData (sd_purpose data) (sd_tone data) (sd_rules data)
                      (Some triggers) in
        set_session (IdNum userId)
          (mkSetupState (st_step state) (st_groupId state) data);;
        Database.updateGroupConfig (st_groupId state) data;;
        match sd_rules data with
        | None => throw TypeError
        | Some _ =>
            sendMessage env (IdNum userId) (Canned (SetupSummary data)) None;;
            delete_session (IdNum userId)
        end
      else mret tt
  end.

End BotInteractive.

(** ** aiService.js: the cache maintenance and the prompt helpers *)

Module AIHelpers.
Import Js AIService.

(** The double quote of the prompt templates. *)
Definition dq : string := String (ascii_of_nat 34) EmptyString.

(** [clearCache(groupId)], lines 297-299. *)
Definition clearCache (groupId : Z) : M unit :=
  fun w => (inr tt, with_cache (delete groupId (conversationCache w)) w).

(** [getCacheSize(groupId)], lines 304-308. *)
Definition getCacheSize (groupId : Z) : M nat :=
  fun w =>
    (inr match conversationCache w !! groupId with
         | Some cache => length cache
         | None => 0
         end, w).

(** [analyzeSentiment(text)], lines 77-92; [response.toLowerCase()] on a
    [null] response throws, into the [catch]. *)
Definition analyzeSentiment (env : Env) (text : string) : M string :=
  try_catch
    (response ← getResponse env
       ("Analyze the sentiment of this message in one word (positive, negative, or neutral): "
        +:+ dq +:+ text +:+ dq) "" None;
     match response with
     | None => throw TypeError
     | Some response =>
         let sentiment := trim (toLowerCase response) in
         if existsb (String.eqb sentiment) ["positive"; "negative"; "neutral"]
         then mret sentiment
         else mret "neutral"
     end)
    (fun _ => mret "neutral").

(** [extractKeywords(text, count)], lines 97-107. *)
Definition extractKeywords (env : Env) (text : string) (count : Z)
    : M (list string) :=
  try_catch
    (response ← getResponse env
       ("Extract the " +:+ toString count
        +:+ " most important keywords from this text, return only the keywords separated by commas: "
        +:+ dq +:+ text +:+ dq) "" None;
     match response with
     | None => throw TypeError
     | Some response =>
         mret (filter (fun k => 0 < String.length k)
                      (trim <$> split "," response))
     end)
    (fun _ => mret []).

(** [summarize(text, maxLength)], lines 112-122; the response is handed
    back as it is, [null] included. *)
Definition summarize (env : Env) (text : string) (maxLength : nat)
    : M (option string) :=
  try_catch
    (response ← getResponse env
       ("Summarize this text in " +:+ toString (Z.of_nat maxLength)
        +:+ " characters or less: " +:+ dq +:+ text +:+ dq) "" None;
     mret response)
    (fun _ => mret (Some (String.substring 0 maxLength text +:+ "..."))).

(** [isSpam(text)], lines 127-137. *)
Definition isSpam (env : Env) (text : string) : M bool :=
  try_catch
    (response ← getResponse env
       ("Is this message spam? Answer only " +:+ dq +:+ "yes" +:+ dq
        +:+ " or " +:+ dq +:+ "no" +:+ dq +:+ ": " +:+ dq +:+ text +:+ dq)
       "" None;
     match response with
     | None => throw TypeError
     | Some response => mret (includes (toLowerCase response) "yes")
     end)
    (fun _ => mret false).

(** [isInappropriate(text, rules)], lines 142-155. *)
Definition isInappropriate (env : Env) (text : string) (rules : list string)
    : M bool :=
  try_catch
    (let query :=
       "Is this message inappropriate or offensive? Answer only "
       +:+ dq +:+ "yes" +:+ dq +:+ " or " +:+ dq +:+ "no" +:+ dq +:+ ": "
       +:+ dq +:+ text +:+ dq in
     let query :=
       if 0 <? length rules
       then "Based on these rules: " +:+ join ", " rules
            +:+ ". Is this message violating any rules? Answer only "
            +:+ dq +:+ "yes" +:+ dq +:+ " or " +:+ dq +:+ "no" +:+ dq +:+ ": "
            +:+ dq +:+ text +:+ dq
       else query in
     response ← getResponse env query "" None;
     match response with
     | None => throw TypeError
     | Some response => mret (includes (toLowerCase response) "yes")
     end)
    (fun _ => mret false).

(** [generateWelcomeMessage(userName, groupName, groupPurpose)], lines
    160-171. *)
Definition generateWelcomeMessage (env : Env)
    (userName groupName groupPurpose : string) : M (option string) :=
  try_catch
    (response ← getResponse env
       ("Generate a friendly welcome message for " +:+ userName
        +:+ " joining " +:+ groupName +:+ ". "
        +:+ "The group is about: " +:+ groupPurpose
        +:+ ". Keep it brief and welcoming.") "" None;
     mret response)
    (fun _ => mret (Some ("👋 Welcome " +:+ userName +:+ " to " +:+ groupName
                          +:+ "!"))).

(** [improveResponse(originalQuestion, originalAnswer, feedback)], lines
    176-189. *)
Definition improveResponse (env : Env)
    (originalQuestion originalAnswer feedback : string) : M (option string) :=
  try_catch
    (response ← getResponse env
       ("The question was: " +:+ dq +:+ originalQuestion +:+ dq +:+ ". "
        +:+ "I answered: " +:+ dq +:+ originalAnswer +:+ dq +:+ ". "
        +:+ "User feedback: " +:+ feedback +:+ ". "
        +:+ "Generate an improved answer.") "" None;
     mret response)
    (fun _ => mret (Some originalAnswer)).

End AIHelpers.

(** ** database.js: export and clean-up *)

Module Maintenance.
Import Sql Database.

(** The object [exportGroupData] returns; [exportedAt] is kept as the
    instant of [new Date()], in milliseconds. *)
Record Export := mkExport {
  ex_group : option GroupRow;
  ex_learnedResponses : list LearnedRow;
  ex_stats : Stats;
  ex_exportedAt : Z
}.

(** [new Date()]. *)
Definition date_now : M Z := fun w => (inr (clock w), w).

(** [exportGroupData(groupId)], lines 484-503; [None] is [null]. *)
Definition exportGroupData (groupId : Z) : M (option Export) :=
  try_catch
    (group ← getGroup groupId;
     learnedResponses ← driver (fun t =>
       (filter (fun r => lr_group_id r = groupId) (learned_responses t), t));
     stats ← getGroupStats groupId;
     exportedAt ← date_now;
     mret (Some (mkExport group learnedResponses stats exportedAt)))
    (fun _ => mret None).

(** [cleanupOldData(days)], lines 506-522, for a whole number of days:
    [datetime('now', '-N days')] is [N] times 86400 seconds back, and time
    stamps of the same format compare as their instants do. *)
Definition cleanupOldData (days : nat) : M unit :=
  try_catch
    (now ← current_timestamp;
     let cutoff := (now - Z.of_nat days * 86400)%Z in
     driver (fun t =>
       (tt, with_messages
              (filter (fun r => ¬ (m_timestamp r < cutoff)%Z)) t));;
     driver (fun t =>
       (tt, with_interactions
              (filter (fun r => ¬ (in_timestamp r < cutoff)%Z)) t)))
    (fun _ => mret tt).

End Maintenance.

(** ** bot.js, lines 1-632: the administrators' commands

    A handler takes the message and, where the command has an argument,
    the text its pattern captured ([match[1]]).  The wordings are written
    as the source has them; their characters outside Latin-1 stand as
    UTF-8 bytes, and nothing reads them. *)

Module Commands.
Import Js Database AIHelpers.

(** The [try] block that opens [handleTrain], [handleForget],
    [handlePause], [handleResume] and [handleQuickSetup]: the answer is
    whether the handler goes on.  A sender who is no administrator gets
    the refusal; a throw of [getChatMember] ends the handler silently. *)
Definition admin_only (env : Env) (chatId : Z) (refusal : string) : M bool :=
  try_catch
    (match getChatMember env with
     | None => throw TransportError
     | Some status =>
         if negb (is_admin_status status) then
           sendMessage env (IdNum chatId) (Text refusal) None;;
           mret false
         else mret true
     end)
    (fun _ => mret false).

(** The summary of [handleQuickSetup], lines 177-194. *)
Definition quicksetup_summary (purpose tone : string)
    (rules triggers : list string) : string :=
  "✅ **Setup Complete!**" +:+ AIService.nl +:+ AIService.nl
  +:+ "Your group is now configured:" +:+ AIService.nl +:+ AIService.nl
  +:+ "📋 **Purpose:** " +:+ purpose +:+ AIService.nl
  +:+ "🎨 **Tone:** " +:+ tone +:+ AIService.nl
  +:+ "📜 **Rules:** "
  +:+ (if 0 <? length rules then join ", " rules else "None") +:+ AIService.nl
  +:+ "🎯 **Triggers:** " +:+ join ", " triggers +:+ AIService.nl +:+ AIService.nl
  +:+ "I'm now active and learning! 🧠" +:+ AIService.nl +:+ AIService.nl
  +:+ "**Commands:**" +:+ AIService.nl
  +:+ "/train <question>|<answer> - Teach me" +:+ AIService.nl
  +:+ "/stats - View statistics" +:+ AIService.nl
  +:+ "/pause - Pause bot" +:+ AIService.nl
  +:+ "/help - Show all commands" +:+ AIService.nl +:+ AIService.nl
  +:+ "Try asking me a question!".

(** The hint of [handleQuickSetup], lines 156-160. *)
Definition quicksetup_hint : string :=
  "❌ Invalid format! Use:" +:+ AIService.nl
  +:+ "`/quicksetup [purpose]|[tone]|[rules]|[triggers]`" +:+ AIService.nl
  +:+ AIService.nl
  +:+ "Example:" +:+ AIService.nl
  +:+ "`/quicksetup Gaming community|Friendly|No spam|all`".

(** [handleQuickSetup(msg, match)], lines 126-198. *)
Definition handleQuickSetup (env : Env) (msg : Message) (input : string)
    : M unit :=
  let chatId := chat_id msg in
  if String.eqb (chat_type msg) "private" then
    sendMessage env (IdNum chatId) (Text "❌ This command only works in groups!")
                None;;
    mret tt
  else
    admin ← admin_only env chatId "❌ Only admins can configure the bot.";
    if negb admin then mret tt
    else
      match trim <$> split "|" input with
      | [purpose; tone; rulesStr; triggersStr] =>
          let rules :=
            if String.eqb (toLowerCase rulesStr) "none" then []
            else trim <$> split "," rulesStr in
          let triggers :=
            if String.eqb (toLowerCase triggersStr) "all" then ["all"]
            else trim <$> split "," triggersStr in
          updateGroupConfig (Some chatId)
            (mkSetupData (Some purpose) (Some tone) (Some rules)
                         (Some triggers));;
          sendMessage env (IdNum chatId)
            (Text (quicksetup_summary purpose tone rules triggers)) None;;
          mret tt
      | _ =>
          sendMessage env (IdNum chatId) (Text quicksetup_hint) None;;
          mret tt
      end.

(** [handleTrain(msg, match)], lines 449-480. *)
Definition handleTrain (env : Env) (msg : Message) (input : string) : M unit :=
  let chatId := chat_id msg in
  admin ← admin_only env chatId "❌ Only admins can use this command.";
  if negb admin then mret tt
  else
    match split "|" input with
    | [question; answer] =>
        let question := trim question in
        let answer := trim answer in
        addLearnedResponse chatId question answer "manual";;
        sendMessage env (IdNum chatId)
          (Text ("✅ Learned! I'll respond to: " +:+ dq +:+ question +:+ dq))
          None;;
        mret tt
    | _ =>
        sendMessage env (IdNum chatId)
          (Text "❌ Invalid format. Use: `/train question|answer`") None;;
        mret tt
    end.

(** [handleForget(msg, match)], lines 505-522. *)
Definition handleForget (env : Env) (msg : Message) (keyword : string)
    : M unit :=
  let chatId := chat_id msg in
  admin ← admin_only env chatId "❌ Only admins can use this command.";
  if negb admin then mret tt
  else
    deleted ← forgetLearnedData chatId keyword;
    sendMessage env (IdNum chatId)
      (Text ("✅ Forgot " +:+ toString deleted +:+ " response(s) containing "
             +:+ dq +:+ keyword +:+ dq)) None;;
    mret tt.

(** [handlePause(msg)], lines 548-564. *)
Definition handlePause (env : Env) (msg : Message) : M unit :=
  let chatId := chat_id msg in
  admin ← admin_only env chatId "❌ Only admins can use this.";
  if negb admin then mret tt
  else
    togglePause chatId true;;
    sendMessage env (IdNum chatId)
      (Text "⏸️ Bot paused. Use /resume to continue.") None;;
    mret tt.

(** [handleResume(msg)], lines 566-582. *)
Definition handleResume (env : Env) (msg : Message) : M unit :=
  let chatId := chat_id msg in
  admin ← admin_only env chatId "❌ Only admins can use this.";
  if negb admin then mret tt
  else
    togglePause chatId false;;
    sendMessage env (IdNum chatId) (Text "▶️ Bot resumed!") None;;
    mret tt.

End Commands.

(* ===================================================================== *)
(** * Part II. The vocabulary of the statements *)
(* ===================================================================== *)

(** Predicates on computations, functions worded after the specification,
    and the closed forms the proofs compare the handlers with. *)

Module Statements.
Import Js Similarity AIService Database Sql Bot.

(** The recurrence the loop nest tabulates: [lev_rec str1 str2 i j] is the
    cell in row [i] (a prefix of [str2]) and column [j] (a prefix of
    [str1]). *)
Fixpoint lev_rec (str1 str2 : string) (i : nat) : nat -> nat :=
  match i with
  | 0 => fun j => j
  | S i' =>
      fix row (j : nat) : nat :=
        match j with
        | 0 => S i'
        | S j' =>
            if String.eqb (charAt str2 i') (charAt str1 j')
            then lev_rec str1 str2 i' j'
            else Nat.min (lev_rec str1 str2 i' j' + 1)
                   (Nat.min (row j' + 1) (lev_rec str1 str2 i' (S j') + 1))
        end
  end.

(** The edit distance, stated without the code.  [edits n a b]: reading
    both sequences from the left, [a] is turned into [b] with [n]
    insertions, deletions and substitutions of one element. *)
Inductive edits {A : Type} : nat -> list A -> list A -> Prop :=
| edits_done : edits 0 [] []
| edits_keep x a b n : edits n a b -> edits n (x :: a) (x :: b)
| edits_substitute x y a b n : edits n a b -> edits (S n) (x :: a) (y :: b)
| edits_delete x a b n : edits n a b -> edits (S n) (x :: a) b
| edits_insert y a b n : edits n a b -> edits (S n) a (y :: b).

(** The Levenshtein distance by its defining recursion: the distance to
    the empty sequence is the length, and otherwise the least of a
    deletion, an insertion, and a substitution that is free when the two
    first elements agree. *)
Fixpoint levenshtein {A : Type} `{EqDecision A} (a : list A) : list A -> nat :=
  match a with
  | [] => fun b => length b
  | x :: a' =>
      fix row (b : list A) : nat :=
        match b with
        | [] => S (length a')
        | y :: b' =>
            Nat.min (Nat.min (levenshtein a' b + 1) (row b' + 1))
                    (levenshtein a' b' + (if decide (x = y) then 0 else 1))
        end
  end.

(** The code units of a string. *)
Definition units (s : string) : list ascii := list_ascii_of_string s.

(** The ratio as the specification words it. *)
Definition similarity_spec (a b : string) : Q :=
  if (String.length a =? 0) && (String.length b =? 0) then 1%Q
  else
    (1 - inject_Z (Z.of_nat (levenshtein (units a) (units b)))
         / inject_Z (Z.of_nat (Nat.max (String.length a) (String.length b))))%Q.

(** A computation is [quiet] when it touches nothing but the database:
    the tables and the fault schedule. *)
Definition quiet {A} (m : M A) : Prop :=
  ∀ w, ∃ r t f,
    m w = (r, mkWorld t f (conversationCache w) (setupStates w)
                      (clock w) (outbox w)).

(** A computation is [safe] when it never throws. *)
Definition safe {A} (m : M A) : Prop :=
  ∀ w, ∃ a, (m w).1 = inr a.

(** A computation is blind to the response cache when running it with
    another cache changes nothing else, and leaves that cache in place. *)
Definition cache_blind {A} (m : M A) : Prop :=
  ∀ c w, m (with_cache c w) = ((m w).1, with_cache c (m w).2).

(** The query that leaves for the endpoint. *)
Definition enhancedQuery (query systemContext : string) : string :=
  if truthy_str systemContext
  then "Context: " +:+ systemContext +:+ nl +:+ nl
       +:+ "User question: " +:+ query
  else query.

(** A response of the expected shape: data, a truthy [success] and a
    truthy [result]. *)
Definition well_shaped (data : option Payload) : bool :=
  match data with
  | Some d =>
      success d && match result d with
                   | Some r => truthy_str r
                   | None => false
                   end
  | None => false
  end.

(** What [getResponse] hands back, as a function of the environment. *)
Definition client_reply (env : Env) (query : string) : option string :=
  match http env with
  | Rejected => getFallbackResponse env query
  | Resolved data =>
      if well_shaped data then data ≫= result else None
  end.

(** The messages [generateAIResponse] hands to the transport. *)
Definition completion_events (env : Env) (msg : Message) (group : GroupRow)
    : list Event :=
  HttpGet (enhancedQuery (text msg) (systemContext group)) ::
  match client_reply env (text msg) with
  | Some answer =>
      if truthy_str answer
      then [SendMessage (IdNum (chat_id msg)) (Text answer)
                        (Some (message_id msg));
            EditReplyMarkup (chat_id msg) (sent_message_id env)
                            (sent_message_id env)]
      else []
  | None => []
  end.

(** [get] as the specification words it: the first entry that is both
    similar and younger than an hour. *)
Definition getCachedResponse_spec (cache : list CacheItem) (now : Z)
    (query : string) : option string :=
  ci_response <$>
    List.find (fun item =>
                 Js.gt (calculateSimilarity (ci_query item) (toLowerCase query))
                       (4 # 5)
                 && (now - ci_timestamp item <? 3600000)%Z)
              cache.

(** The key of the upsert: the group and the folded question. *)
Definition question_key (r : LearnedRow) : Z * string :=
  (lr_group_id r, Sql.LOWER (lr_question r)).

(** The table as the operations keep it: distinct row ids, none above
    the AUTOINCREMENT counter, and one row per key. *)
Definition well_kept (t : Tables) : Prop :=
  NoDup (lr_id <$> learned_responses t) ∧
  Forall (fun r => (lr_id r <= learned_seq t)%Z) (learned_responses t) ∧
  NoDup (question_key <$> learned_responses t).

(** The operations on the knowledge store, each at its own time. *)
Inductive KnowledgeOp :=
| Teach (group : Z) (question answer source : string)
| Forget (group : Z) (keyword : string)
| Feedback (id : Z) (good : bool)
| Use (id : Z).

Definition run_op (now : Z) (op : KnowledgeOp) (w : World) : World :=
  let w := with_clock now w in
  match op with
  | Teach g q a s => (addLearnedResponse g q a s w).2
  | Forget g k => (forgetLearnedData g k w).2
  | Feedback i good => (updateResponseConfidence i good w).2
  | Use i => (incrementResponseUsage i w).2
  end.

Definition run_ops (ops : list (Z * KnowledgeOp)) (w : World) : World :=
  foldl (fun w op => run_op op.1 op.2 w) w ops.

(** [addLearnedResponse] awaits its look-up before it writes.  Its two
    halves, on either side of that [await]: the look-up, and the write
    the look-up decides. *)
Definition find_existing (groupId : Z) (question : string) : M (option Z) :=
  driver (fun t =>
    (lr_id <$> head (filter (fun r => same_question groupId question r = true)
                            (learned_responses t)), t)).

Definition write_learned (groupId : Z) (question answer source : string)
    (existing : option Z) : M unit :=
  match existing with
  | Some existing_id =>
      driver (fun t =>
        (tt, with_learned (fun rows =>
           (fun r =>
              if (lr_id r =? existing_id)%Z
              then mkLearned (lr_id r) (lr_group_id r) (lr_question r)
                     answer 1 source
                     (lr_usage_count r) (lr_last_used r) (lr_created_at r)
              else r) <$> rows) t))
  | None =>
      now ← current_timestamp;
      driver (fun t =>
        (tt, with_learned_seq (learned_seq t + 1)
               (with_learned (fun rows =>
                  rows ++ [mkLearned (learned_seq t + 1) groupId question
                             answer 1 source 0 None now])
                  t)))
  end.

(** Two calls started one after the other without awaiting the first,
    as the handlers are: both look-ups are answered before either write
    is issued. *)
Definition overlapping_teaches (groupId : Z) (question first second : string)
    : M unit :=
  found ← find_existing groupId question;
  found_again ← find_existing groupId question;
  write_learned groupId question first "manual" found;;
  write_learned groupId question second "manual" found_again.

(** The row [addLearnedResponse] leaves in place of an existing one. *)
Definition retaught (answer source : string) (r : LearnedRow) : LearnedRow :=
  mkLearned (lr_id r) (lr_group_id r) (lr_question r) answer 1 source
            (lr_usage_count r) (lr_last_used r) (lr_created_at r).

(** The next [n] driver calls do not throw. *)
Definition no_fault (n : nat) (w : World) : Prop :=
  ∀ k, k < n → db_faults w !! k ≠ Some true.

(** Does one of the next [n] driver calls throw? *)
Definition faulted (n : nat) (fs : list bool) : bool :=
  existsb id (take n fs).

(** The interactions of a group that carry feedback. *)
Definition feedback_bearing (g : Z) (t : Tables) : list InteractionRow :=
  filter (fun r => in_group_id r = g ∧ in_feedback r ≠ 0%Z) (interactions t).

(** The record the [try] block builds when all seven queries run. *)
Definition computed_stats (g : Z) (t : Tables) : Stats :=
  let goodFeedback :=
    count (filter (fun r => in_group_id r = g ∧ in_feedback r = 1%Z)
                  (interactions t)) in
  let totalFeedback := count (feedback_bearing g t) in
  mkStats
    (count (filter (fun r => m_group_id r = g) (messages t)))
    (count (filter (fun r => in_group_id r = g) (interactions t)))
    (count (filter (fun r => lr_group_id r = g) (learned_responses t)))
    (count_distinct
       (us_user_id <$> filter (fun r => us_group_id r = g) (user_stats t)))
    (if (0 <? totalFeedback)%Z
     then Js.round
            (PrimFloat.mul
               (PrimFloat.div (Js.number goodFeedback)
                              (Js.number totalFeedback))
               (Js.number 100))
     else Some 0%Z)
    ((fun r => (kw_keyword r, kw_frequency r)) <$>
     limit 5
       (order_by_desc (fun a b => (kw_frequency a <? kw_frequency b)%Z)
          (filter (fun r => kw_group_id r = g) (keywords t)))).

End Statements.

(** Concrete situations the examples run in. *)

Module Scenario.
Import Js AIService Database Bot Statements.

(** A configured group that answers all questions, and its surroundings. *)
Definition gaming : GroupRow :=
  mkGroup 1 (Some "Gamers") (Some "Gaming community") (Some "Friendly")
          (Some ["No spam"; "be respectful"]) (Some ["all"]) true false.

Definition start : World :=
  mkWorld (with_groups (fun _ => [gaming]) empty_tables) [] ∅ ∅ 0 [].

(** A driver for the examples: a bound text equals the id it is the
    decimal spelling of (the examples bind no other text). *)
Definition decimal_of (text : string) (id : Z) : bool :=
  String.eqb text (toString id).

Definition answering (outcome : HttpOutcome) : Env :=
  mkEnv (Some "manager_bot") (Some "member") 900 outcome 0 decimal_of.

Definition says (words : string) : Message :=
  mkMessage 1 "supergroup" 7 words 55 None.

(** An entry taught once and voted down three times sits at 0.55: it is
    retrieved, and the reply comes from the completion client. *)
Definition voted_down : World :=
  (Database.updateResponseConfidence 1 false
     (Database.updateResponseConfidence 1 false
        (Database.updateResponseConfidence 1 false
           (Database.addLearnedResponse 1 "Hi?" "Hello!" "manual" start).2).2).2).2.

(** The group's cache after one answered question. *)
Definition cached_world : World :=
  (cacheResponse 1 "What time is it?" "cached answer" start).2.

(** The same question answered by the endpoint, and cached for group 1,
    at time 0 and again two hours later. *)
Definition replying (words : string) : Env :=
  answering (Resolved (Some (mkPayload true (Some words)))).

Definition asked_twice : World :=
  with_clock 7200001
    (getResponse (replying "new answer") "hello" "" (Some 1%Z)
       (with_clock 7200000
          (getResponse (replying "old answer") "Hello" "" (Some 1%Z) start).2)).2.

(** The question is taught, used once, then taught again in capitals by
    an admin's reply. *)
Definition taught_and_used : World :=
  run_ops [(1000, Teach 1 "Hi?" "Hello!" "manual"); (2000, Use 1)]%Z start.

Definition first_row : LearnedRow :=
  mkLearned 1 1 "Hi?" "Hello!" 1 "manual" 1 (Some 2%Z) 1.

(** A user in the middle of the dialogue, at its first question. *)
Definition in_dialogue : World :=
  with_setupStates
    {[ IdNum 7%Z := mkSetupState "purpose" (Some 1%Z) empty_data ]} start.

Definition answer (words : string) : Message :=
  mkMessage 7 "private" 7 words 56 None.

(** A group with one answered question nobody rated; then the same with
    the driver failing at the second query. *)
Definition answered : World :=
  (Database.storeInteraction 1 "Hi?" "Hello!" "ai" 55 900 start).2.

(** A question with a Latin-1 capital (U+00C9), and the same in small
    letters (U+00E9). *)
Definition cafe_capitals : string :=
  "CAF" +:+ String (ascii_of_nat 201) EmptyString.

Definition cafe_small : string :=
  "caf" +:+ String (ascii_of_nat 233) EmptyString.

(** Forty answers of group 1, stored and rated through the class's own
    methods: the first twenty-three good, the others bad. *)
Definition forty_votes : World :=
  foldl (fun w k =>
           (Database.updateInteractionFeedback (900 + k)
              (if (k <=? 23)%Z then 1 else -1)
              (Database.storeInteraction 1 "Hi?" "Hello!" "ai" k (900 + k) w).2).2)
        start (Z.of_nat <$> seq 1 40).

(** The press of the setup button by the user who added the bot. *)
Definition setup_button : CallbackQuery :=
  mkCallbackQuery "q1" 7 "setup_7_1" 1 50.

Definition pressed : World :=
  (BotInteractive.handleCallbackQuery (answering Rejected) setup_button start).2.

End Scenario.

(** Invariants and shorthands of the further properties. *)

Module Invariants.
Import Js Similarity AIService Database Sql Statements.

(** The cache of a group; a group without one has the empty cache. *)
Definition cache_of (w : World) (groupId : Z) : list CacheItem :=
  default [] (conversationCache w !! groupId).

(** No group's cache holds more than fifty entries. *)
Definition cache_bounded (w : World) : Prop :=
  ∀ g, length (cache_of w g) ≤ 50.

(** The two tests of the cache look-up. *)
Definition similar (query : string) (item : CacheItem) : bool :=
  Js.gt (calculateSimilarity (ci_query item) (toLowerCase query)) (4 # 5).

Definition recent (now : Z) (item : CacheItem) : bool :=
  (now - ci_timestamp item <? 3600000)%Z.

(** The completion endpoint did not deliver: the request was rejected, or
    the reply lacks the expected shape. *)
Definition service_failed (env : Env) : bool :=
  match http env with
  | Rejected => true
  | Resolved data => negb (well_shaped data)
  end.

(** The sender is an administrator, and the transport says so. *)
Definition sender_is_admin (env : Env) : bool :=
  match getChatMember env with
  | Some status => is_admin_status status
  | None => false
  end.

(** One row per user in [setup_states], one row per group in [groups]
    (their primary keys). *)
Definition unique_users (t : Tables) : Prop :=
  NoDup (ss_user_id <$> setup_states t).

Definition unique_groups (t : Tables) : Prop :=
  NoDup (g_group_id <$> groups t).

(** Every confidence lies between 0 and 1. *)
Definition confidences_bounded (t : Tables) : Prop :=
  Forall (fun r => (0 <= lr_confidence r <= 1)%Q) (learned_responses t).

(** A keyword without the wildcards of [LIKE]. *)
Fixpoint wildcard_free (s : string) : bool :=
  match s with
  | EmptyString => true
  | String c s' =>
      negb (Ascii.eqb c "%") && negb (Ascii.eqb c "_") && wildcard_free s'
  end.

(** The row of a group, as [getGroup] selects it. *)
Definition group_row (t : Tables) (groupId : Z) : option GroupRow :=
  head (filter (fun r => g_group_id r = groupId) (groups t)).

(** The row of a user's setup session, as [getSetupState] selects it. *)
Definition setup_row (t : Tables) (userId : Z) : option SetupRow :=
  head (filter (fun r => ss_user_id r = userId) (setup_states t)).

(** The entries of a group that mention a keyword, in their question or
    in their answer, up to case. *)
Definition mentions (groupId : Z) (keyword : string) (r : LearnedRow) : bool :=
  (lr_group_id r =? groupId)%Z
  && (includes (LOWER (lr_question r)) (toLowerCase keyword)
      || includes (LOWER (lr_answer r)) (toLowerCase keyword)).

(** The rules and the triggers as the two setups read them from text. *)
Definition parse_rules (s : string) : list string :=
  if String.eqb (toLowerCase s) "none" then [] else trim <$> split "," s.

Definition parse_triggers (s : string) : list string :=
  if String.eqb (toLowerCase s) "all" then ["all"] else trim <$> split "," s.

(** What retrieval answers on given rows when both queries run. *)
Definition retrieved (g : Z) (q : string) (rows : list LearnedRow)
    : option LearnedRow :=
  match head (filter (fun r => exact_match g q r = true) rows) with
  | Some r => Some r
  | None =>
      head (order_by_desc (fun a b => Js.gt (lr_confidence b) (lr_confidence a))
              (filter (fun r => partial_match g q r = true) rows))
  end.

(** The upsert of [saveSetupState], on the rows. *)
Definition saved (u g : Z) (step : string) (data : SetupData) (now : Z)
    (rows : list SetupRow) : list SetupRow :=
  match head (filter (fun r => ss_user_id r = u) rows) with
  | Some _ =>
      (fun r => if (ss_user_id r =? u)%Z
                then mkSetupRow (ss_user_id r) (ss_group_id r) step data now
                else r) <$> rows
  | None => rows ++ [mkSetupRow u g step data now]
  end.

(** The instant [cleanupOldData] compares time stamps with, in seconds. *)
Definition cutoff (days : nat) (w : World) : Z :=
  (clock w / 1000 - Z.of_nat days * 86400)%Z.

(** The row [addGroup] inserts. *)
Definition fresh_group (groupId : Z) (groupName : option string) : GroupRow :=
  mkGroup groupId groupName None None None None false false.

(** The row [updateGroupConfig] leaves in place of a group's row. *)
Definition configured (config : SetupData) (r : GroupRow) : GroupRow :=
  mkGroup (g_group_id r) (g_group_name r) (sd_purpose config) (sd_tone config)
          (sd_rules config) (sd_triggers config) true (g_paused r).

(** The row [togglePause] leaves in place of a group's row. *)
Definition pause_set (paused : bool) (r : GroupRow) : GroupRow :=
  mkGroup (g_group_id r) (g_group_name r) (g_purpose r) (g_tone r)
          (g_rules r) (g_triggers r) (g_setup_complete r) paused.

(** No interaction carries a feedback value. *)
Definition unrated (t : Tables) : Prop :=
  Forall (fun r => in_feedback r = 0%Z) (interactions t).

(** What the bot is meant to keep: the knowledge store well kept, every
    confidence between 0 and 1, no rated interaction, and the response
    cache as it was. *)
Definition consistent (cache : gmap Z (list CacheItem)) (w : World) : Prop :=
  well_kept (tables w) ∧ confidences_bounded (tables w) ∧ unrated (tables w) ∧
  conversationCache w = cache.

(** A computation keeps the bot consistent. *)
Definition keeps {A} (m : M A) : Prop :=
  ∀ cache w, consistent cache w → consistent cache (m w).2.

End Invariants.

(** Further situations the examples run in. *)

Module Situations.
Import Js AIService Database Bot Statements Scenario.

(** An administrator at work, and a member who asks. *)
Definition admin : Env :=
  mkEnv (Some "manager_bot") (Some "administrator") 900 Rejected 0 decimal_of.

Definition member : Env :=
  mkEnv (Some "manager_bot") (Some "member") 901 Rejected 0 decimal_of.

(** A group chat whose group has no row. *)
Definition elsewhere (words : string) : Message :=
  mkMessage 2 "supergroup" 7 words 57 None.

End Situations.

(** What happens to the bot of the /quicksetup listing when its events
    are handled one at a time, each handler run to its end before the
    next event is taken: a message, one of the administrators' commands,
    or the press of a button. *)

Module Run.
Import Database Bot Commands.

Inductive BotEvent :=
| OnMessage (env : Env) (msg : Message)
| OnTrain (env : Env) (msg : Message) (input : string)
| OnForget (env : Env) (msg : Message) (keyword : string)
| OnPause (env : Env) (msg : Message)
| OnResume (env : Env) (msg : Message)
| OnQuickSetup (env : Env) (msg : Message) (input : string)
| OnButton (env : Env) (query : CallbackQuery).

Definition run_event (now : Z) (ev : BotEvent) (w : World) : World :=
  let w := with_clock now w in
  match ev with
  | OnMessage env msg => (handleMessage env msg w).2
  | OnTrain env msg input => (handleTrain env msg input w).2
  | OnForget env msg keyword => (handleForget env msg keyword w).2
  | OnPause env msg => (handlePause env msg w).2
  | OnResume env msg => (handleResume env msg w).2
  | OnQuickSetup env msg input => (handleQuickSetup env msg input w).2
  | OnButton env query => (handleCallbackQuery env query w).2
  end.

Definition run_events (evs : list (Z * BotEvent)) (w : World) : World :=
  foldl (fun w ev => run_event ev.1 ev.2 w) w evs.

End Run.

(* ===================================================================== *)
(** * Part III. Lemmas *)
(* ===================================================================== *)

(** ** The similarity ratio *)

Module SimilarityFacts.
Import Js Similarity Statements.

Section Tabulation.
Context (str1 str2 : string).
Let n1 := String.length str1.
Let n2 := String.length str2.
Let D := lev_rec str1 str2.

Lemma lev_rec_0 j : lev_rec str1 str2 0 j = j.
Proof. reflexivity. Qed.

Lemma lev_rec_S_0 i : lev_rec str1 str2 (S i) 0 = S i.
Proof. reflexivity. Qed.

Lemma lev_rec_S_S i j :
  lev_rec str1 str2 (S i) (S j) =
  if String.eqb (charAt str2 i) (charAt str1 j)
  then lev_rec str1 str2 i j
  else Nat.min (lev_rec str1 str2 i j + 1)
         (Nat.min (lev_rec str1 str2 (S i) j + 1) (lev_rec str1 str2 i (S j) + 1)).
Proof. reflexivity. Qed.

Lemma arr_set_end {A} (h : A) (l : list A) v : arr_set h l (length l) v = l ++ [v].
Proof.
  unfold arr_set. case_decide; [lia|].
  by rewrite Nat.sub_diag.
Qed.

Lemma arr_set_in {A} (h : A) (l : list A) i v :
  i < length l → arr_set h l i v = <[i := v]> l.
Proof. intros. unfold arr_set. by case_decide. Qed.

Lemma push_loop {A} (h : A) (f : nat → A) n :
  foldl (fun m i => arr_set h m i (f i)) [] (seq 0 n) = f <$> seq 0 n.
Proof.
  induction n as [|n IH]; [done|].
  rewrite seq_S, foldl_app, fmap_app, IH. simpl.
  unfold arr_set. rewrite length_fmap, length_seq.
  case_decide; [lia|]. by rewrite Nat.sub_diag.
Qed.

Lemma row0_loop (g : nat → nat) k : ∀ a row rest,
  length row = a →
  foldl (fun m j => mat_set m 0 j (g j)) (row :: rest) (seq a k)
  = (row ++ (g <$> seq a k)) :: rest.
Proof.
  induction k as [|k IH]; intros a row rest Hlen; simpl.
  - by rewrite app_nil_r.
  - assert (mat_set (row :: rest) 0 a (g a) = (row ++ [g a]) :: rest) as ->.
    { unfold mat_set. simpl. by rewrite <- Hlen, arr_set_end. }
    rewrite (IH (S a)); [|rewrite length_app; simpl; lia].
    by rewrite <- app_assoc.
Qed.

Let full_row (i : nat) : list nat := D i <$> seq 0 (S n1).

Lemma tab_lookup {A} `{!Inhabited A} (f : nat → A) n k :
  k < n → (f <$> seq 0 n) !!! k = f k.
Proof.
  intros Hk. apply list_lookup_total_correct.
  by rewrite list_lookup_fmap, lookup_seq_lt.
Qed.

Lemma rows_prev (pre post : list (list nat)) prev cur :
  (pre ++ prev :: cur :: post) !!! length pre = prev.
Proof. by apply list_lookup_total_middle. Qed.

Lemma rows_cur (pre post : list (list nat)) prev cur :
  (pre ++ prev :: cur :: post) !!! S (length pre) = cur.
Proof.
  rewrite (cons_middle prev), app_assoc.
  apply list_lookup_total_middle. rewrite length_app. simpl. lia.
Qed.

Lemma rows_set_cur (pre post : list (list nat)) prev cur x :
  <[S (length pre) := x]> (pre ++ prev :: cur :: post) = pre ++ prev :: x :: post.
Proof.
  rewrite (cons_middle prev), app_assoc.
  replace (S (length pre)) with (length (pre ++ [prev]) + 0)
    by (rewrite length_app; simpl; lia).
  rewrite insert_app_r. simpl. by rewrite <- app_assoc.
Qed.

Lemma inner_loop (pre post : list (list nat)) c : ∀ j,
  1 ≤ j → j + c ≤ S n1 →
  foldl (fun m j =>
        if String.eqb (charAt str2 (S (length pre) - 1)) (charAt str1 (j - 1))
        then mat_set m (S (length pre)) j (mat_get m (S (length pre) - 1) (j - 1))
        else mat_set m (S (length pre)) j
               (Nat.min (mat_get m (S (length pre) - 1) (j - 1) + 1)
                  (Nat.min (mat_get m (S (length pre)) (j - 1) + 1)
                           (mat_get m (S (length pre) - 1) j + 1))))
    (pre ++ full_row (length pre) :: (D (S (length pre)) <$> seq 0 j) :: post)
    (seq j c)
  = pre ++ full_row (length pre) :: (D (S (length pre)) <$> seq 0 (j + c)) :: post.
Proof.
  induction c as [|c IH]; intros j Hj Hc.
  - by rewrite Nat.add_0_r.
  - cbn [seq foldl].
    set (m := pre ++ _ :: _ :: post).
    assert (Hd : mat_get m (S (length pre) - 1) (j - 1) = D (length pre) (j - 1)).
    { unfold mat_get, m. rewrite Nat.sub_succ, Nat.sub_0_r, rows_prev.
      apply tab_lookup. lia. }
    assert (Hl : mat_get m (S (length pre)) (j - 1) = D (S (length pre)) (j - 1)).
    { unfold mat_get, m. rewrite rows_cur. apply tab_lookup. lia. }
    assert (Hu : mat_get m (S (length pre) - 1) j = D (length pre) j).
    { unfold mat_get, m. rewrite Nat.sub_succ, Nat.sub_0_r, rows_prev.
      apply tab_lookup. lia. }
    assert (Hset : ∀ v, mat_set m (S (length pre)) j v
              = pre ++ full_row (length pre)
                    :: ((D (S (length pre)) <$> seq 0 j) ++ [v]) :: post).
    { intros v. unfold mat_set, m. rewrite rows_cur, rows_set_cur.
      do 3 f_equal.
      rewrite <- (arr_set_end 0 (D (S (length pre)) <$> seq 0 j) v).
      by rewrite length_fmap, length_seq. }
    rewrite Hd, Hl, Hu, !Hset.
    assert (Hcell :
      (if String.eqb (charAt str2 (S (length pre) - 1)) (charAt str1 (j - 1))
       then D (length pre) (j - 1)
       else Nat.min (D (length pre) (j - 1) + 1)
              (Nat.min (D (S (length pre)) (j - 1) + 1) (D (length pre) j + 1)))
      = D (S (length pre)) j).
    { destruct j as [|j']; [lia|]. unfold D. rewrite lev_rec_S_S.
      by rewrite !Nat.sub_succ, !Nat.sub_0_r. }
    replace (j + S c) with (S j + c) by lia.
    rewrite <- (IH (S j)) by lia.
    f_equal. rewrite seq_S, fmap_app. simpl.
    rewrite <- Hcell.
    by destruct (String.eqb _ _).
Qed.

Lemma outer_loop k : ∀ i,
  i + k ≤ n2 →
  foldl (fun m i =>
      foldl (fun m j =>
        if String.eqb (charAt str2 (i - 1)) (charAt str1 (j - 1))
        then mat_set m i j (mat_get m (i - 1) (j - 1))
        else mat_set m i j
               (Nat.min (mat_get m (i - 1) (j - 1) + 1)
                  (Nat.min (mat_get m i (j - 1) + 1)
                           (mat_get m (i - 1) j + 1))))
        m (seq 1 n1))
    ((full_row <$> seq 0 (S i)) ++ ((fun i => [i]) <$> seq (S i) k))
    (seq (S i) k)
  = full_row <$> seq 0 (S i + k).
Proof.
  induction k as [|k IH]; intros i Hi.
  - by rewrite Nat.add_0_r, app_nil_r.
  - rewrite (seq_S i 0), fmap_app, <- app_assoc.
    change (seq (S i) (S k)) with (S i :: seq (S (S i)) k).
    cbn [foldl fmap list_fmap app Nat.add].
    pose proof (inner_loop (full_row <$> seq 0 i)
                  ((fun i => [i]) <$> seq (S (S i)) k) n1 1) as Hin.
    rewrite length_fmap, length_seq in Hin.
    change (D (S i) <$> seq 0 1) with [S i] in Hin.
    rewrite Hin by lia.
    replace (S (i + S k)) with (S (S i) + k) by lia.
    rewrite <- (IH (S i)) by lia.
    f_equal.
    rewrite (seq_S (S i)), fmap_app, <- app_assoc.
    rewrite (seq_S i), fmap_app, <- app_assoc. done.
Qed.

Lemma full_row_0 : full_row 0 = seq 0 (S n1).
Proof. unfold full_row, D. simpl. f_equal. apply list_fmap_id. Qed.

(** The three loops leave the recurrence in the last cell. *)
Lemma levenshteinDistance_rec :
  levenshteinDistance str1 str2 = lev_rec str1 str2 n2 n1.
Proof.
  unfold levenshteinDistance. fold n1 n2.
  rewrite push_loop.
  cbn [seq fmap list_fmap foldl].
  assert (mat_set ([0] :: ((fun i => [i]) <$> seq 1 n2)) 0 0 0
          = [0] :: ((fun i => [i]) <$> seq 1 n2)) as -> by done.
  rewrite (row0_loop (fun j => j) n1 1 [0]) by done.
  rewrite list_fmap_id.
  change ([0] ++ seq 1 n1) with (seq 0 (S n1)).
  rewrite <- full_row_0.
  pose proof (outer_loop n2 0) as Hout.
  cbn [seq fmap list_fmap app] in Hout. rewrite Hout by lia.
  unfold mat_get. rewrite (tab_lookup full_row) by lia.
  unfold full_row. by rewrite tab_lookup by lia.
Qed.

End Tabulation.

Lemma lev_rec_sym a b : ∀ i j, lev_rec a b i j = lev_rec b a j i.
Proof.
  induction i as [|i IHi]; intros j.
  - by destruct j.
  - induction j as [|j IHj]; [done|].
    rewrite !lev_rec_S_S, IHj, !IHi.
    rewrite (String.eqb_sym (charAt b i)).
    destruct (String.eqb _ _); lia.
Qed.

Lemma lev_rec_diag a : ∀ i, lev_rec a a i i = 0.
Proof.
  induction i as [|i IH]; [done|].
  by rewrite lev_rec_S_S, String.eqb_refl.
Qed.

Lemma levenshteinDistance_sym a b :
  levenshteinDistance a b = levenshteinDistance b a.
Proof. by rewrite !levenshteinDistance_rec, lev_rec_sym. Qed.

Lemma levenshteinDistance_diag a : levenshteinDistance a a = 0.
Proof. by rewrite levenshteinDistance_rec, lev_rec_diag. Qed.

(** *** The distance of the loops is the edit distance *)

Section EditDistance.
Context {A : Type} `{EqDecision A}.
Implicit Types a b : list A.

Lemma levenshtein_nil_r a : levenshtein a [] = length a.
Proof. by destruct a. Qed.

Lemma levenshtein_cons x y a b :
  levenshtein (x :: a) (y :: b)
  = Nat.min (Nat.min (levenshtein a (y :: b) + 1) (levenshtein (x :: a) b + 1))
            (levenshtein a b + (if decide (x = y) then 0 else 1)).
Proof. reflexivity. Qed.

Lemma edits_nil_l b : edits (length b) [] b.
Proof. induction b; simpl; by constructor. Qed.

Lemma edits_nil_r a : edits (length a) a [].
Proof. induction a; simpl; by constructor. Qed.

(** The distance is reached by a script, *)
Lemma levenshtein_edits a b : edits (levenshtein a b) a b.
Proof.
  revert b. induction a as [|x a IH]; intros b; [apply edits_nil_l|].
  induction b as [|y b IHb].
  { rewrite levenshtein_nil_r. apply edits_nil_r. }
  rewrite levenshtein_cons.
  assert (edits (levenshtein a (y :: b) + 1) (x :: a) (y :: b)) as Hdel
    by (rewrite Nat.add_1_r; apply edits_delete, IH).
  assert (edits (levenshtein (x :: a) b + 1) (x :: a) (y :: b)) as Hins
    by (rewrite Nat.add_1_r; apply edits_insert, IHb).
  assert (edits (levenshtein a b + (if decide (x = y) then 0 else 1))
                (x :: a) (y :: b)) as Hsub.
  { destruct (decide (x = y)) as [->|_].
    - rewrite Nat.add_0_r. apply edits_keep, IH.
    - rewrite Nat.add_1_r. apply edits_substitute, IH. }
  repeat match goal with
         | |- context [Nat.min ?n ?m] =>
             destruct (Nat.min_spec n m) as [[_ ->]|[_ ->]]
         end; done.
Qed.

(** and no script is shorter. *)
Lemma edits_least n a b : edits n a b → levenshtein a b ≤ n.
Proof.
  induction 1 as [|x a b n _ IH|x y a b n _ IH|x a b n _ IH|y a b n _ IH].
  - done.
  - rewrite levenshtein_cons, decide_True by done. lia.
  - rewrite levenshtein_cons. destruct (decide _); lia.
  - destruct b as [|y b].
    + rewrite levenshtein_nil_r in *. simpl. lia.
    + rewrite levenshtein_cons. lia.
  - destruct a as [|x a].
    + simpl in *. lia.
    + rewrite levenshtein_cons. lia.
Qed.

(** Scripts can be extended at the right end as well. *)
Lemma edits_keep_r x n a b : edits n a b → edits n (a ++ [x]) (b ++ [x]).
Proof. induction 1; simpl; [repeat constructor|by constructor..]. Qed.

Lemma edits_substitute_r x y n a b :
  edits n a b → edits (S n) (a ++ [x]) (b ++ [y]).
Proof. induction 1; simpl; [repeat constructor|by constructor..]. Qed.

Lemma edits_delete_r x n a b : edits n a b → edits (S n) (a ++ [x]) b.
Proof. induction 1; simpl; [repeat constructor|by constructor..]. Qed.

Lemma edits_insert_r y n a b : edits n a b → edits (S n) a (b ++ [y]).
Proof. induction 1; simpl; [repeat constructor|by constructor..]. Qed.

Lemma edits_reverse n a b : edits n a b → edits n (reverse a) (reverse b).
Proof.
  induction 1; rewrite ?reverse_cons; [constructor|..].
  - by apply edits_keep_r.
  - by apply edits_substitute_r.
  - by apply edits_delete_r.
  - by apply edits_insert_r.
Qed.

Lemma levenshtein_reverse a b :
  levenshtein (reverse a) (reverse b) = levenshtein a b.
Proof.
  apply Nat.le_antisymm.
  - apply edits_least, edits_reverse, levenshtein_edits.
  - apply edits_least.
    rewrite <- (reverse_involutive a), <- (reverse_involutive b) at 2.
    apply edits_reverse, levenshtein_edits.
Qed.

(** Dropping the first element of either side costs at most one edit. *)
Lemma edits_drop_r n a y b :
  edits n a (y :: b) → ∃ m, m ≤ S n ∧ edits m a b.
Proof.
  intros H. remember (y :: b) as c eqn:Hc. revert y b Hc.
  induction H as [|x a c n H IH|x z a c n H IH|x a c n H IH|z a c n H IH];
    intros y b Hc; simplify_eq.
  - exists (S n). split; [lia|]. by apply edits_delete.
  - exists (S n). split; [lia|]. by apply edits_delete.
  - destruct (IH y b eq_refl) as (m & Hm & Hed).
    exists (S m). split; [lia|]. by apply edits_delete.
  - exists n. split; [lia|done].
Qed.

Lemma edits_drop_l n x a b :
  edits n (x :: a) b → ∃ m, m ≤ S n ∧ edits m a b.
Proof.
  intros H. remember (x :: a) as c eqn:Hc. revert x a Hc.
  induction H as [|z c b n H IH|z y c b n H IH|z c b n H IH|y c b n H IH];
    intros x a Hc; simplify_eq.
  - exists (S n). split; [lia|]. by apply edits_insert.
  - exists (S n). split; [lia|]. by apply edits_insert.
  - exists n. split; [lia|done].
  - destruct (IH x a eq_refl) as (m & Hm & Hed).
    exists (S m). split; [lia|]. by apply edits_insert.
Qed.

Lemma levenshtein_drop_r a y b : levenshtein a b ≤ levenshtein a (y :: b) + 1.
Proof.
  destruct (edits_drop_r _ _ _ _ (levenshtein_edits a (y :: b))) as (m & Hm & Hed).
  apply edits_least in Hed. lia.
Qed.

Lemma levenshtein_drop_l x a b : levenshtein a b ≤ levenshtein (x :: a) b + 1.
Proof.
  destruct (edits_drop_l _ _ _ _ (levenshtein_edits (x :: a) b)) as (m & Hm & Hed).
  apply edits_least in Hed. lia.
Qed.

(** The recurrence in the form the loops use: equal first elements cost
    nothing and need no minimum. *)
Lemma levenshtein_step x y a b :
  levenshtein (x :: a) (y :: b)
  = if decide (x = y) then levenshtein a b
    else Nat.min (levenshtein a b + 1)
           (Nat.min (levenshtein a (y :: b) + 1) (levenshtein (x :: a) b + 1)).
Proof.
  rewrite levenshtein_cons.
  pose proof (levenshtein_drop_r a y b). pose proof (levenshtein_drop_l x a b).
  destruct (decide (x = y)); lia.
Qed.

End EditDistance.

Lemma length_units s : length (units s) = String.length s.
Proof. induction s; simpl; by f_equal. Qed.

Lemma get_units s : ∀ i, String.get i s = units s !! i.
Proof. induction s as [|c s IH]; intros [|i]; simpl; auto. Qed.

Lemma charAt_units s i c : units s !! i = Some c → charAt s i = String c EmptyString.
Proof. intros H. unfold charAt. by rewrite get_units, H. Qed.

Lemma lev_rec_levenshtein str1 str2 : ∀ i j,
  i ≤ String.length str2 → j ≤ String.length str1 →
  lev_rec str1 str2 i j
  = levenshtein (reverse (take j (units str1))) (reverse (take i (units str2))).
Proof.
  induction i as [|i IHi]; intros j Hi Hj.
  { rewrite lev_rec_0, take_0, reverse_nil, levenshtein_nil_r.
    rewrite length_reverse, length_take, length_units. lia. }
  induction j as [|j IHj].
  { rewrite lev_rec_S_0, take_0, reverse_nil. simpl.
    rewrite length_reverse, length_take, length_units. lia. }
  destruct (lookup_lt_is_Some_2 (units str2) i) as [y Hy];
    [rewrite length_units; lia|].
  destruct (lookup_lt_is_Some_2 (units str1) j) as [x Hx];
    [rewrite length_units; lia|].
  rewrite lev_rec_S_S, (charAt_units _ _ _ Hy), (charAt_units _ _ _ Hx).
  rewrite (take_S_r _ _ _ Hy), (take_S_r _ _ _ Hx), !reverse_snoc.
  rewrite levenshtein_step.
  rewrite IHi, IHj, (IHi (S j)) by lia.
  rewrite (take_S_r _ _ _ Hy), (take_S_r _ _ _ Hx), !reverse_snoc.
  destruct (decide (x = y)) as [->|Hne].
  - by rewrite String.eqb_refl.
  - destruct (String.eqb_spec (String y EmptyString) (String x EmptyString));
      [congruence|done].
Qed.

Lemma levenshteinDistance_levenshtein a b :
  levenshteinDistance a b = levenshtein (units a) (units b).
Proof.
  rewrite levenshteinDistance_rec, lev_rec_levenshtein by done.
  rewrite !take_ge by (rewrite length_units; lia).
  apply levenshtein_reverse.
Qed.

Lemma ratio_complement (L d : nat) :
  L ≠ 0 →
  (inject_Z (Z.of_nat L - Z.of_nat d) / inject_Z (Z.of_nat L)
   == 1 - inject_Z (Z.of_nat d) / inject_Z (Z.of_nat L))%Q.
Proof.
  intros HL. unfold Z.sub. rewrite inject_Z_plus, inject_Z_opp.
  field. intros H. apply HL.
  unfold Qeq in H. simpl in H. lia.
Qed.

Lemma calculateSimilarity_spec a b :
  (calculateSimilarity a b == similarity_spec a b)%Q.
Proof.
  unfold calculateSimilarity, similarity_spec.
  rewrite <- levenshteinDistance_levenshtein.
  destruct (Nat.ltb_spec (String.length b) (String.length a)) as [Hlt|Hge].
  - destruct (Nat.eqb_spec (String.length a) 0) as [H0|H0]; [lia|].
    simpl. rewrite Nat.max_l by lia. by apply ratio_complement.
  - destruct (Nat.eqb_spec (String.length b) 0) as [Hb|Hb].
    + replace (String.length a) with 0 by lia. done.
    + rewrite andb_false_r, Nat.max_r by lia.
      rewrite (levenshteinDistance_sym b a). by apply ratio_complement.
Qed.

Lemma calculateSimilarity_sym a b :
  calculateSimilarity a b = calculateSimilarity b a.
Proof.
  unfold calculateSimilarity.
  destruct (Nat.ltb_spec (String.length b) (String.length a)) as [Hlt|Hge];
    destruct (Nat.ltb_spec (String.length a) (String.length b)) as [Hlt'|Hge'];
    try lia; try done.
  assert (String.length a = String.length b) as Heq by lia.
  by rewrite Heq, (levenshteinDistance_sym b a).
Qed.

Lemma calculateSimilarity_refl a : (calculateSimilarity a a == 1)%Q.
Proof.
  unfold calculateSimilarity. rewrite Nat.ltb_irrefl.
  destruct (Nat.eqb_spec (String.length a) 0) as [H0|H0]; [done|].
  rewrite levenshteinDistance_diag, Z.sub_0_r.
  field. intros H. apply H0.
  unfold Qeq in H. simpl in H. lia.
Qed.

End SimilarityFacts.

(** ** Reasoning about handlers *)

Module EffectsFacts.
Import Statements.

Lemma world_eta w :
  mkWorld (tables w) (db_faults w) (conversationCache w) (setupStates w)
          (clock w) (outbox w) = w.
Proof. by destruct w. Qed.

Lemma quiet_ret {A} (a : A) : quiet (mret a).
Proof. intros w. exists (inr a), (tables w), (db_faults w). by rewrite world_eta. Qed.

Lemma quiet_throw {A} e : quiet (@throw A e).
Proof. intros w. exists (inl e), (tables w), (db_faults w). by rewrite world_eta. Qed.

Lemma quiet_bind {A B} (m : M A) (k : A → M B) :
  quiet m → (∀ a, quiet (k a)) → quiet (m ≫= k).
Proof.
  intros Hm Hk w. unfold mbind, M_bind, bind.
  destruct (Hm w) as (r & t & f & ->).
  destruct r as [e|a]; [by eexists _, _, _|].
  destruct (Hk a (mkWorld t f (conversationCache w) (setupStates w)
                          (clock w) (outbox w))) as (r & t' & f' & ->).
  by eexists _, _, _.
Qed.

Lemma quiet_try_catch {A} (m : M A) (h : Exn → M A) :
  quiet m → (∀ e, quiet (h e)) → quiet (try_catch m h).
Proof.
  intros Hm Hh w. unfold try_catch.
  destruct (Hm w) as (r & t & f & ->).
  destruct r as [e|a]; [|by eexists _, _, _].
  destruct (Hh e (mkWorld t f (conversationCache w) (setupStates w)
                          (clock w) (outbox w))) as (r & t' & f' & ->).
  by eexists _, _, _.
Qed.

Lemma quiet_driver {A} (stmt : Tables → A * Tables) : quiet (driver stmt).
Proof.
  intros w. unfold driver.
  destruct (db_faults w) as [|[] rest]; try destruct (stmt (tables w));
    by eexists _, _, _.
Qed.

Lemma quiet_current_timestamp : quiet current_timestamp.
Proof.
  intros w. eexists _, (tables w), (db_faults w).
  unfold current_timestamp. by rewrite world_eta.
Qed.

Lemma safe_try_catch {A} (m : M A) (h : Exn → M A) :
  (∀ e, safe (h e)) → safe (try_catch m h).
Proof.
  intros Hh w. unfold try_catch.
  destruct (m w) as [[e|a] w'] eqn:Hm; [apply Hh|by exists a].
Qed.

Lemma safe_ret {A} (a : A) : safe (mret a).
Proof. intros w. by exists a. Qed.

(** What a quiet and safe computation looks like to its caller. *)
Lemma quiet_safe_run {A} (m : M A) w :
  quiet m → safe m →
  ∃ a t f,
    m w = (inr a, mkWorld t f (conversationCache w) (setupStates w)
                          (clock w) (outbox w)).
Proof.
  intros Hq Hs. destruct (Hq w) as (r & t & f & Hr).
  destruct (Hs w) as (a & Ha). rewrite Hr in Ha. simpl in Ha. subst r.
  by exists a, t, f.
Qed.

Ltac quiet_tac :=
  repeat first
    [ apply quiet_try_catch; [|intros ?]
    | apply quiet_bind; [|intros ?]
    | apply quiet_driver
    | apply quiet_current_timestamp
    | apply quiet_ret
    | apply quiet_throw
    | match goal with
      | |- quiet (match ?x with _ => _ end) => destruct x
      end ].

Ltac safe_tac := apply safe_try_catch; intros ?; apply safe_ret.

Import Database.

Lemma getGroup_quiet g : quiet (getGroup g).
Proof. unfold getGroup. quiet_tac. Qed.
Lemma getGroup_safe g : safe (getGroup g).
Proof. safe_tac. Qed.

Lemma storeMessage_quiet g u c m : quiet (storeMessage g u c m).
Proof. unfold storeMessage. quiet_tac. Qed.
Lemma storeMessage_safe g u c m : safe (storeMessage g u c m).
Proof. safe_tac. Qed.

Lemma getRecentMessages_quiet g n : quiet (getRecentMessages g n).
Proof. unfold getRecentMessages. quiet_tac. Qed.
Lemma getRecentMessages_safe g n : safe (getRecentMessages g n).
Proof. safe_tac. Qed.

Lemma addLearnedResponse_quiet g q a s : quiet (addLearnedResponse g q a s).
Proof. unfold addLearnedResponse. quiet_tac. Qed.
Lemma addLearnedResponse_safe g q a s : safe (addLearnedResponse g q a s).
Proof. safe_tac. Qed.

Lemma findLearnedResponse_quiet g q : quiet (findLearnedResponse g q).
Proof. unfold findLearnedResponse. quiet_tac. Qed.
Lemma findLearnedResponse_safe g q : safe (findLearnedResponse g q).
Proof. safe_tac. Qed.

Lemma incrementResponseUsage_quiet i : quiet (incrementResponseUsage i).
Proof. unfold incrementResponseUsage. quiet_tac. Qed.
Lemma incrementResponseUsage_safe i : safe (incrementResponseUsage i).
Proof. safe_tac. Qed.

Lemma storeInteraction_quiet g q a s i j : quiet (storeInteraction g q a s i j).
Proof. unfold storeInteraction. quiet_tac. Qed.
Lemma storeInteraction_safe g q a s i j : safe (storeInteraction g q a s i j).
Proof. safe_tac. Qed.

Lemma updateGroupConfig_quiet g c : quiet (updateGroupConfig g c).
Proof. unfold updateGroupConfig. quiet_tac. Qed.
Lemma updateGroupConfig_safe g c : safe (updateGroupConfig g c).
Proof. safe_tac. Qed.

Lemma getGroupStats_quiet g : quiet (getGroupStats g).
Proof. unfold getGroupStats. quiet_tac. Qed.
Lemma getGroupStats_safe g : safe (getGroupStats g).
Proof. safe_tac. Qed.

End EffectsFacts.

(** ** The completion client *)

Module ClientFacts.
Import Js AIService Statements EffectsFacts.

Lemma getResponse_malformed env query ctx groupId w data :
  http env = Resolved data → well_shaped data = false →
  getResponse env query ctx groupId w
  = (inr None, with_outbox (outbox w ++ [HttpGet (enhancedQuery query ctx)]) w).
Proof.
  intros Hhttp Hshape.
  unfold getResponse, try_catch, axios_get, mbind, M_bind, bind, emit.
  fold (enhancedQuery query ctx). rewrite Hhttp. simpl.
  destruct data as [[[] [r|]]|]; simpl in *; try done.
  by rewrite Hshape.
Qed.

Lemma getResponse_rejected env query ctx groupId w :
  http env = Rejected →
  getResponse env query ctx groupId w
  = (inr (getFallbackResponse env query),
     with_outbox (outbox w ++ [HttpGet (enhancedQuery query ctx)]) w).
Proof.
  intros Hhttp.
  unfold getResponse, try_catch, axios_get, mbind, M_bind, bind, emit.
  fold (enhancedQuery query ctx). by rewrite Hhttp.
Qed.

Lemma getResponse_no_group env query ctx w :
  getResponse env query ctx None w
  = (inr (client_reply env query),
     with_outbox (outbox w ++ [HttpGet (enhancedQuery query ctx)]) w).
Proof.
  unfold client_reply.
  destruct (http env) as [|data] eqn:Hhttp; [by apply getResponse_rejected|].
  destruct (well_shaped data) eqn:Hshape;
    [|by eapply getResponse_malformed].
  unfold getResponse, try_catch, axios_get, mbind, M_bind, bind, emit.
  fold (enhancedQuery query ctx). rewrite Hhttp. simpl.
  destruct data as [[[] [r|]]|]; simpl in *; try done.
  by rewrite Hshape.
Qed.

Lemma fallback_drawn env query :
  (0 <= random env)%Q → (random env < 1)%Q →
  ∃ f, getFallbackResponse env query = Some f ∧ f ∈ fallbacks.
Proof.
  intros H0 H1. unfold getFallbackResponse.
  set (i := Qfloor _).
  assert (0 <= i)%Z as Hlo.
  { change 0%Z with (Qfloor 0). apply Qfloor_resp_le.
    change (length fallbacks) with 4. simpl inject_Z.
    apply Qmult_le_0_compat; [done | discriminate]. }
  assert (i < 4)%Z as Hhi.
  { rewrite Zlt_Qlt. eapply Qle_lt_trans; [apply Qfloor_le|].
    change (length fallbacks) with 4. simpl inject_Z.
    change (inject_Z 4) with (1 * (4 # 1))%Q.
    by apply Qmult_lt_compat_r. }
  destruct (Z.ltb_spec i 0) as [?|_]; [lia|].
  destruct (lookup_lt_is_Some_2 fallbacks (Z.to_nat i)) as [f Hf];
    [simpl; lia|].
  exists f. split; [done|]. by eapply list_elem_of_lookup_2.
Qed.

End ClientFacts.

(** ** The reply stage *)

Module BotFacts.
Import Js AIService Statements EffectsFacts ClientFacts Bot.

Lemma gt_spec (a b : Q) : Js.gt a b = true ↔ (b < a)%Q.
Proof.
  unfold Js.gt. rewrite negb_true_iff, <- not_true_iff_false, Qle_bool_iff.
  split; [apply Qnot_le_lt | apply Qlt_not_le].
Qed.

Lemma gt_false (a b : Q) : Js.gt a b = false ↔ (a <= b)%Q.
Proof.
  unfold Js.gt. by rewrite negb_false_iff, Qle_bool_iff.
Qed.

Lemma generateAIResponse_run env msg group w :
  ∃ t f,
    generateAIResponse env msg group w
    = (inr tt, mkWorld t f (conversationCache w) (setupStates w) (clock w)
                       (outbox w ++ completion_events env msg group)).
Proof.
  unfold generateAIResponse, completion_events, try_catch, mbind, M_bind, bind,
    mret, M_ret, ret.
  destruct (quiet_safe_run (Database.getRecentMessages (chat_id msg) 5) w)
    as (recent & t & f & ->);
    [apply getRecentMessages_quiet | apply getRecentMessages_safe|].
  rewrite getResponse_no_group.
  destruct (client_reply env (text msg)) as [answer|];
    [|(simpl; eexists _, _; reflexivity)].
  destruct (truthy_str answer); [|(simpl; eexists _, _; reflexivity)].
  unfold sendMessage, emit, mbind, M_bind, bind, mret, M_ret, ret. simpl.
  match goal with
  | |- context [Database.storeInteraction ?a ?b ?c ?d ?e ?g ?w0] =>
      destruct (quiet_safe_run (Database.storeInteraction a b c d e g) w0)
        as ([] & t' & f' & ->);
        [apply storeInteraction_quiet | apply storeInteraction_safe|]
  end.
  unfold addFeedbackButtons, emit, with_outbox. simpl.
  rewrite <- !app_assoc. simpl. eexists _, _; reflexivity.
Qed.

(** The reply stage, case by case on what retrieval returned. *)
Lemma reply_trusted env msg group w r w1 :
  Database.findLearnedResponse (chat_id msg) (text msg) w = (inr (Some r), w1) →
  (7 # 10 < lr_confidence r)%Q →
  ∃ t f,
    replyToGroupMessage env msg group w
    = (inr tt,
       mkWorld t f (conversationCache w1) (setupStates w1) (clock w1)
         (outbox w1 ++
          [SendMessage (IdNum (chat_id msg)) (Text (lr_answer r))
                       (Some (message_id msg));
           EditReplyMarkup (chat_id msg) (sent_message_id env)
             (if truthy_num (lr_id r) then lr_id r else sent_message_id env)])).
Proof.
  intros Hfind Hconf.
  unfold replyToGroupMessage, mbind, M_bind, bind. rewrite Hfind.
  apply gt_spec in Hconf. rewrite Hconf.
  unfold sendMessage, emit, mbind, M_bind, bind, mret, M_ret, ret. simpl.
  match goal with
  | |- context [Database.incrementResponseUsage ?a ?w0] =>
      destruct (quiet_safe_run (Database.incrementResponseUsage a) w0)
        as ([] & t' & f' & ->);
        [apply incrementResponseUsage_quiet
        | apply incrementResponseUsage_safe|]
  end.
  unfold addFeedbackButtons, emit, with_outbox. simpl.
  rewrite <- !app_assoc. simpl. eexists _, _; reflexivity.
Qed.

Lemma reply_untrusted env msg group w lr w1 :
  Database.findLearnedResponse (chat_id msg) (text msg) w = (inr lr, w1) →
  (∀ r, lr = Some r → (lr_confidence r <= 7 # 10)%Q) →
  replyToGroupMessage env msg group w = generateAIResponse env msg group w1.
Proof.
  intros Hfind Hconf.
  unfold replyToGroupMessage, mbind, M_bind, bind. rewrite Hfind.
  destruct lr as [r|]; [|done].
  specialize (Hconf r eq_refl). apply gt_false in Hconf. by rewrite Hconf.
Qed.

Lemma findLearnedResponse_run g q w :
  ∃ lr t f,
    Database.findLearnedResponse g q w
    = (inr lr, mkWorld t f (conversationCache w) (setupStates w) (clock w)
                       (outbox w)).
Proof.
  apply quiet_safe_run;
    [apply findLearnedResponse_quiet | apply findLearnedResponse_safe].
Qed.

End BotFacts.

(** ** Blindness to the response cache *)

Module CacheBlindFacts.
Import Js AIService Statements EffectsFacts ClientFacts Bot BotFacts.

Lemma blind_ret {A} (a : A) : cache_blind (mret a).
Proof. done. Qed.

Lemma blind_throw {A} e : cache_blind (@throw A e).
Proof. done. Qed.

Lemma blind_emit e : cache_blind (emit e).
Proof. done. Qed.

Lemma blind_current_timestamp : cache_blind current_timestamp.
Proof. done. Qed.

Lemma blind_driver {A} (stmt : Tables → A * Tables) : cache_blind (driver stmt).
Proof.
  intros c w. unfold driver. simpl.
  destruct (db_faults w) as [|[] rest]; simpl;
    try destruct (stmt (tables w)); reflexivity.
Qed.

Lemma blind_bind {A B} (m : M A) (k : A → M B) :
  cache_blind m → (∀ a, cache_blind (k a)) → cache_blind (m ≫= k).
Proof.
  intros Hm Hk c w. unfold mbind, M_bind, bind. rewrite Hm.
  destruct (m w) as [[e|a] w']; simpl; [done | apply Hk].
Qed.

Lemma blind_try_catch {A} (m : M A) (h : Exn → M A) :
  cache_blind m → (∀ e, cache_blind (h e)) → cache_blind (try_catch m h).
Proof.
  intros Hm Hh c w. unfold try_catch. rewrite Hm.
  destruct (m w) as [[e|a] w']; simpl; [apply Hh | done].
Qed.

Ltac blind_tac :=
  repeat first
    [ apply blind_try_catch; [|intros ?]
    | apply blind_bind; [|intros ?]
    | apply blind_driver
    | apply blind_current_timestamp
    | apply blind_emit
    | apply blind_ret
    | apply blind_throw
    | match goal with
      | |- cache_blind (match ?x with _ => _ end) => destruct x
      end ].

Lemma blind_getResponse env query ctx :
  cache_blind (getResponse env query ctx None).
Proof. unfold getResponse, axios_get. blind_tac. Qed.

Lemma blind_generateAIResponse env msg group :
  cache_blind (generateAIResponse env msg group).
Proof.
  unfold generateAIResponse, Database.getRecentMessages,
    Database.storeInteraction, sendMessage, addFeedbackButtons.
  blind_tac; try apply blind_getResponse; blind_tac.
Qed.

Lemma blind_replyToGroupMessage env msg group :
  cache_blind (replyToGroupMessage env msg group).
Proof.
  unfold replyToGroupMessage, Database.findLearnedResponse,
    Database.incrementResponseUsage, sendMessage, addFeedbackButtons.
  blind_tac; try apply blind_generateAIResponse; blind_tac.
Qed.

Lemma blind_handleGroupMessage env msg :
  cache_blind (handleGroupMessage env msg).
Proof.
  unfold handleGroupMessage, Database.getGroup, Database.storeMessage,
    learnFromAdmin, Database.addLearnedResponse.
  blind_tac; try apply blind_replyToGroupMessage; blind_tac.
Qed.

End CacheBlindFacts.

(** ** The route through [handleGroupMessage] *)

Module RouteFacts.
Import Js AIService Statements EffectsFacts ClientFacts Bot BotFacts.

Ltac reaches_reply H :=
  eexists; split; [exact H|]; split; [|reflexivity]; reflexivity.

(** [handleGroupMessage] either stops before any call to the transport,
    or passes the trigger evaluation, shows the typing indicator and runs
    the reply stage. *)
Lemma handleGroupMessage_route env msg w :
  (∃ w0, handleGroupMessage env msg w = (inr tt, w0) ∧ outbox w0 = outbox w) ∨
  (∃ group w0,
     shouldRespond env msg group = true ∧
     outbox w0 = outbox w ++ [SendChatAction (chat_id msg) "typing"] ∧
     handleGroupMessage env msg w = replyToGroupMessage env msg group w0).
Proof.
  unfold handleGroupMessage, mbind, M_bind, bind, mret, M_ret, ret.
  destruct (quiet_safe_run (Database.getGroup (chat_id msg)) w)
    as (group & t & f & ->); [apply getGroup_quiet | apply getGroup_safe|].
  destruct group as [group|]; [|left; eexists; split; reflexivity].
  destruct (g_setup_complete group); [|left; eexists; split; reflexivity].
  destruct (g_paused group); [left; eexists; split; reflexivity|]. simpl.
  match goal with
  | |- context [Database.storeMessage ?a ?b ?c ?d ?w0] =>
      destruct (quiet_safe_run (Database.storeMessage a b c d) w0)
        as ([] & t' & f' & ->);
        [apply storeMessage_quiet | apply storeMessage_safe|]
  end.
  destruct (shouldRespond env msg group) eqn:Hrespond;
    [|left; eexists; split; reflexivity].
  right. exists group. simpl. unfold emit, try_catch. simpl.
  destruct (getChatMember env) as [status|]; [|reaches_reply Hrespond].
  destruct (is_admin_status status); [|reaches_reply Hrespond].
  destruct (reply_to_message msg) as [replied|]; [|reaches_reply Hrespond].
  destruct (rp_text replied) as [original|]; [|reaches_reply Hrespond].
  destruct (truthy_str original); [|reaches_reply Hrespond].
  unfold learnFromAdmin.
  match goal with
  | |- context [Database.addLearnedResponse ?a ?b ?c ?d ?w0] =>
      destruct (quiet_safe_run (Database.addLearnedResponse a b c d) w0)
        as ([] & t'' & f'' & ->);
        [apply addLearnedResponse_quiet | apply addLearnedResponse_safe|]
  end.
  reaches_reply Hrespond.
Qed.
End RouteFacts.

(** ** The knowledge store *)

Module KnowledgeFacts.
Import Database Statements.

Lemma same_question_key g q r :
  same_question g q r = true ↔ question_key r = (g, Sql.LOWER q).
Proof.
  unfold same_question, question_key.
  rewrite andb_true_iff, Z.eqb_eq, String.eqb_eq. split.
  - by intros [-> ->].
  - by intros [= -> ->].
Qed.

Lemma same_question_spec g q r :
  same_question g q r = true
  ↔ lr_group_id r = g ∧ Sql.LOWER (lr_question r) = Sql.LOWER q.
Proof.
  unfold same_question. by rewrite andb_true_iff, Z.eqb_eq, String.eqb_eq.
Qed.

(** On ASCII text SQLite's [LOWER] and [toLowerCase] agree. *)
Lemma LOWER_ascii q :
  Forall (fun c => nat_of_ascii c < 128) (units q) →
  Sql.LOWER q = Js.toLowerCase q.
Proof.
  induction q as [|c q IH]; [done|]. intros [Hc Hq]%Forall_cons.
  simpl. rewrite IH by done. f_equal.
  unfold Sql.lower_unit, Js.lower_unit.
  destruct (Nat.leb_spec 192 (nat_of_ascii c)); [lia|].
  by rewrite orb_false_r.
Qed.

(** A row-wise update that keeps ids and keys keeps the table well kept. *)
Lemma well_kept_update (f : LearnedRow → LearnedRow) t :
  (∀ r, lr_id (f r) = lr_id r) →
  (∀ r, question_key (f r) = question_key r) →
  well_kept t → well_kept (with_learned (fmap f) t).
Proof.
  intros Hid Hkey (Hids & Hseq & Hkeys). unfold well_kept. simpl.
  rewrite <- !list_fmap_compose.
  rewrite (list_fmap_ext (lr_id ∘ f) lr_id (learned_responses t))
    by (intros; apply Hid).
  rewrite (list_fmap_ext (question_key ∘ f) question_key (learned_responses t))
    by (intros; apply Hkey).
  split_and!; [done| |done].
  apply Forall_fmap. eapply Forall_impl; [exact Hseq|].
  intros r Hr. simpl. by rewrite Hid.
Qed.

Lemma well_kept_filter (P : LearnedRow → Prop) `{∀ r, Decision (P r)} t :
  well_kept t → well_kept (with_learned (filter P) t).
Proof.
  intros (Hids & Hseq & Hkeys). unfold well_kept. simpl. split_and!.
  - eapply sublist_NoDup; [exact Hids|]. apply fmap_sublist, sublist_filter.
  - rewrite Forall_forall in Hseq |- *.
    intros r [_ Hr]%list_elem_of_filter. by apply Hseq.
  - eapply sublist_NoDup; [exact Hkeys|]. apply fmap_sublist, sublist_filter.
Qed.

Lemma well_kept_insert g q a s now t :
  head (filter (fun r => same_question g q r = true) (learned_responses t))
    = None →
  well_kept t →
  well_kept
    (with_learned_seq (learned_seq t + 1)
       (with_learned (fun rows =>
          rows ++ [mkLearned (learned_seq t + 1) g q a 1 s 0 None now]) t)).
Proof.
  intros Hnone (Hids & Hseq & Hkeys). unfold well_kept. simpl.
  rewrite !fmap_app. simpl. split_and!.
  - apply NoDup_app. split_and!; [done| |apply NoDup_singleton].
    intros i Hi ->%list_elem_of_singleton.
    apply list_elem_of_fmap in Hi as (r & Hr & Hin).
    rewrite Forall_forall in Hseq. specialize (Hseq r Hin). lia.
  - apply Forall_app. split.
    + eapply Forall_impl; [exact Hseq|]. intros r Hr. simpl in *. lia.
    + apply Forall_singleton. simpl. lia.
  - apply NoDup_app. split_and!; [done| |apply NoDup_singleton].
    intros k Hk ->%list_elem_of_singleton.
    apply list_elem_of_fmap in Hk as (r & Hr & Hin).
    symmetry in Hr. apply same_question_key in Hr.
    apply head_None in Hnone.
    assert (r ∈ filter (fun r => same_question g q r = true)
                       (learned_responses t)) as Hf
      by (by apply list_elem_of_filter).
    rewrite Hnone in Hf. by apply elem_of_nil in Hf.
Qed.

Ltac run_db :=
  unfold try_catch, mbind, M_bind, bind, driver, current_timestamp,
    mret, M_ret, ret; simpl.

(** The three things [addLearnedResponse] can do to the tables. *)
Lemma addLearnedResponse_tables g q a s w :
  let t := tables w in
  let t' := tables (addLearnedResponse g q a s w).2 in
  t' = t ∨
  (∃ r0,
     head (filter (fun r => same_question g q r = true) (learned_responses t))
       = Some r0 ∧
     t' = with_learned
            (fmap (fun r => if (lr_id r =? lr_id r0)%Z then retaught a s r else r))
            t) ∨
  (head (filter (fun r => same_question g q r = true) (learned_responses t))
     = None ∧
   t' = with_learned_seq (learned_seq t + 1)
          (with_learned (fun rows =>
             rows ++ [mkLearned (learned_seq t + 1) g q a 1 s 0 None
                                (clock w / 1000)%Z]) t)).
Proof.
  destruct w as [t fs c ss now ob]. unfold addLearnedResponse. run_db.
  destruct (head (filter _ (learned_responses t))) as [r0|] eqn:Hhead.
  - destruct fs as [|[] [|[] rest]]; simpl; rewrite ?Hhead; simpl;
      first [by left | right; left; by exists r0].
  - destruct fs as [|[] [|[] rest]]; simpl; rewrite ?Hhead; simpl;
      first [by left | right; right; done].
Qed.

Lemma addLearnedResponse_well_kept g q a s w :
  well_kept (tables w) → well_kept (tables (addLearnedResponse g q a s w).2).
Proof.
  intros Hwk.
  destruct (addLearnedResponse_tables g q a s w)
    as [->|[(r0 & Hhead & ->)|[Hnone ->]]]; [done| |].
  - apply well_kept_update; [| |done]; intros r; by destruct (_ =? _)%Z.
  - by apply well_kept_insert.
Qed.

Lemma forgetLearnedData_well_kept g k w :
  well_kept (tables w) → well_kept (tables (forgetLearnedData g k w).2).
Proof.
  destruct w as [t fs c ss now ob].
  intros Hwk. unfold forgetLearnedData. run_db.
  destruct fs as [|[] rest]; simpl; try done;
    by apply well_kept_filter.
Qed.

Lemma updateResponseConfidence_well_kept i good w :
  well_kept (tables w) → well_kept (tables (updateResponseConfidence i good w).2).
Proof.
  destruct w as [t fs c ss now ob].
  intros Hwk. unfold updateResponseConfidence. run_db.
  destruct fs as [|[] rest]; simpl; try done;
    (apply well_kept_update; [| |done]; intros r; by destruct (_ =? _)%Z).
Qed.

Lemma updateResponseConfidence_text_well_kept env id good w :
  well_kept (tables w) →
  well_kept (tables (updateResponseConfidence_text env id good w).2).
Proof.
  destruct w as [t fs c ss now ob].
  intros Hwk. unfold updateResponseConfidence_text. run_db.
  destruct fs as [|[] rest]; simpl; try done;
    (apply well_kept_update; [| |done]; intros r;
     by destruct (match id with Some _ => _ | None => _ end)).
Qed.

Lemma incrementResponseUsage_well_kept i w :
  well_kept (tables w) → well_kept (tables (incrementResponseUsage i w).2).
Proof.
  destruct w as [t fs c ss now ob].
  intros Hwk. unfold incrementResponseUsage. run_db.
  destruct fs as [|[] rest]; simpl; try done;
    (apply well_kept_update; [| |done]; intros r; by destruct (_ =? _)%Z).
Qed.

Lemma run_op_well_kept now op w :
  well_kept (tables w) → well_kept (tables (run_op now op w)).
Proof.
  intros Hwk. unfold run_op. destruct op.
  - by apply addLearnedResponse_well_kept.
  - by apply forgetLearnedData_well_kept.
  - by apply updateResponseConfidence_well_kept.
  - by apply incrementResponseUsage_well_kept.
Qed.

Lemma run_ops_well_kept ops : ∀ w,
  well_kept (tables w) → well_kept (tables (run_ops ops w)).
Proof.
  induction ops as [|[now op] ops IH]; intros w Hwk; [done|].
  apply IH. by apply run_op_well_kept.
Qed.

Lemma well_kept_empty : well_kept empty_tables.
Proof. split_and!; constructor. Qed.

(** Under one row per key, the look-up finds the row that has the key. *)
Lemma existing_found g q rows : ∀ i r0,
  NoDup (question_key <$> rows) →
  rows !! i = Some r0 → same_question g q r0 = true →
  head (filter (fun r => same_question g q r = true) rows) = Some r0.
Proof.
  induction rows as [|x rows IH]; intros i r0 Hkeys Hi Hsame; [done|].
  rewrite fmap_cons, NoDup_cons in Hkeys. destruct Hkeys as [Hx Hkeys].
  destruct i as [|i]; simpl in Hi.
  - injection Hi as ->. rewrite filter_cons_True by done. done.
  - rewrite filter_cons_False; [by eapply IH|].
    intros Hsx. apply Hx.
    apply same_question_key in Hsx, Hsame. rewrite Hsx, <- Hsame.
    apply list_elem_of_fmap. exists r0. split; [done|].
    by eapply list_elem_of_lookup_2.
Qed.

(** Under distinct ids, updating by id is updating one position. *)
Lemma update_by_id (f : LearnedRow → LearnedRow) rows i r0 :
  NoDup (lr_id <$> rows) → rows !! i = Some r0 →
  (fun r => if (lr_id r =? lr_id r0)%Z then f r else r) <$> rows
  = <[i := f r0]> rows.
Proof.
  intros Hids Hi. apply list_eq. intros j.
  rewrite list_lookup_fmap.
  destruct (decide (i = j)) as [<-|Hne].
  - rewrite list_lookup_insert_eq by (by eapply lookup_lt_Some).
    rewrite Hi. simpl. by rewrite Z.eqb_refl.
  - rewrite list_lookup_insert_ne by done.
    destruct (rows !! j) as [r|] eqn:Hj; [|done]. simpl.
    destruct (Z.eqb_spec (lr_id r) (lr_id r0)) as [Heq|]; [|done].
    exfalso. apply Hne.
    eapply (NoDup_lookup (lr_id <$> rows)); [done| |].
    + by rewrite list_lookup_fmap, Hi.
    + rewrite list_lookup_fmap, Hj. simpl. by rewrite Heq.
Qed.

(** Teaching an existing question, with the driver up. *)
Lemma reteach_tables g q a s w r0 :
  no_fault 2 w →
  head (filter (fun r => same_question g q r = true)
               (learned_responses (tables w))) = Some r0 →
  tables (addLearnedResponse g q a s w).2
  = with_learned
      (fmap (fun r => if (lr_id r =? lr_id r0)%Z then retaught a s r else r))
      (tables w).
Proof.
  destruct w as [t fs c ss now ob].
  intros Hup Hhead. unfold addLearnedResponse. run_db.
  assert (H0 := Hup 0). assert (H1 := Hup 1).
  destruct fs as [|[] [|[] rest]]; simpl in *;
    rewrite ?Hhead; simpl; try done;
    first [by (exfalso; apply H0; [lia|]) | by (exfalso; apply H1; [lia|])].
Qed.

End KnowledgeFacts.


(** ** The setup dialogue *)

Module SetupFacts.
Import Js Database BotInteractive Statements KnowledgeFacts.



Ltac run_setup :=
  unfold handleSetupFlow, get_session, set_session, delete_session,
    sendMessage, emit, throw, mbind, M_bind, bind, mret, M_ret, ret; simpl.




(** A vote touches the learned responses and the outbox, nothing else. *)
Lemma handleFeedback_frame env query w :
  let w' := (handleFeedback env query w).2 in
  setupStates w' = setupStates w ∧
  conversationCache w' = conversationCache w ∧
  (∃ rows, tables w' = with_learned (fun _ => rows) (tables w)).
Proof.
  unfold handleFeedback, Database.updateResponseConfidence_text, emit.
  run_db. destruct w as [t fs ch ss now ob]. simpl.
  assert (∃ rows, t = with_learned (fun _ => rows) t) as Hsame
    by (exists (learned_responses t); by destruct t).
  destruct (bool_decide (_ ≠ Some "null")); simpl; [|done].
  destruct fs as [|[] rest]; simpl; split_and!; try done.
  all: unfold with_learned; by eexists.
Qed.




Lemma handleCallbackQuery_sessions env query w (user : Z) :
  setupStates (handleCallbackQuery env query w).2 !! IdNum user
  = setupStates w !! IdNum user.
Proof.
  unfold handleCallbackQuery.
  destruct (startsWith _ "setup_").
  { unfold set_session, sendMessage, emit, mbind, M_bind, bind, mret, M_ret, ret.
    destruct (_ !! 1) as [userId|]; [|done].
    destruct (negb _); [done|]. simpl.
    by rewrite lookup_insert_ne. }
  destruct (startsWith _ "confirm_"); [done|].
  destruct (startsWith _ "feedback_"); [|done].
  by destruct (handleFeedback_frame env query w) as (-> & _).
Qed.

End SetupFacts.


(** ** Statistics *)

Module StatsFacts.
Import Database Sql Statements KnowledgeFacts.

Lemma computed_stats_no_feedback g t :
  feedback_bearing g t = [] → accuracy (computed_stats g t) = Some 0%Z.
Proof. intros H. unfold computed_stats. simpl. by rewrite H. Qed.

Lemma faulted_true n fs :
  faulted n fs = true ↔ ∃ k, k < n ∧ fs !! k = Some true.
Proof.
  unfold faulted. rewrite existsb_exists. split.
  - intros (b & Hin & Hb). unfold id in Hb. subst b.
    apply list_elem_of_In, list_elem_of_lookup in Hin as [k Hk].
    apply lookup_take_Some in Hk as [Hk Hlt]. by exists k.
  - intros (k & Hlt & Hk). exists true. split; [|done].
    apply list_elem_of_In, list_elem_of_lookup. exists k.
    by apply lookup_take_Some.
Qed.

Lemma faulted_false n w : faulted n (db_faults w) = false ↔ no_fault n w.
Proof.
  rewrite <- not_true_iff_false, faulted_true. unfold no_fault.
  split; [intros H k Hk Hf; apply H; eauto | intros H (k & Hk & Hf); by eapply H].
Qed.

Lemma getGroupStats_run g w :
  tables (getGroupStats g w).2 = tables w ∧
  (getGroupStats g w).1
  = inr (if faulted 7 (db_faults w) then zero_stats
         else computed_stats g (tables w)).
Proof.
  destruct w as [t fs c ss now ob].
  unfold getGroupStats, computed_stats, feedback_bearing, faulted. run_db.
  do 7 (destruct fs as [|[] fs]; simpl; [done | done |]).
  done.
Qed.

End StatsFacts.


(** ** The response cache *)

Module CacheFacts.
Import Js Similarity AIService Statements.

(** An answer the look-up returns is the one the specified look-up
    returns: the two differ only where the code returns nothing. *)
Lemma getCachedResponse_refines g q w cache a :
  conversationCache w !! g = Some cache →
  (getCachedResponse g q w).1 = inr (Some a) →
  getCachedResponse_spec cache (clock w) q = Some a.
Proof.
  intros Hcache. unfold getCachedResponse, getCachedResponse_spec.
  rewrite Hcache. clear Hcache.
  induction cache as [|item cache IH]; simpl; [done|].
  destruct (Js.gt (calculateSimilarity (ci_query item) (toLowerCase q)) (4 # 5));
    simpl; [|exact IH].
  destruct (clock w - ci_timestamp item <? 3600000)%Z; simpl; [|done].
  by intros [= ->].
Qed.

End CacheFacts.

(** ** Bounds of the similarity ratio *)

Module SimilarityBounds.
Import Js Similarity Statements SimilarityFacts.

Lemma lev_rec_le a b : ∀ i j, lev_rec a b i j ≤ Nat.max i j.
Proof.
  induction i as [|i IHi]; intros j; [simpl; lia|].
  induction j as [|j IHj]; [simpl; lia|].
  rewrite lev_rec_S_S. specialize (IHi j).
  destruct (String.eqb _ _); lia.
Qed.

Lemma levenshteinDistance_le a b :
  levenshteinDistance a b ≤ Nat.max (String.length a) (String.length b).
Proof. rewrite levenshteinDistance_rec, Nat.max_comm. apply lev_rec_le. Qed.

(** A zero cell of the recurrence: the two prefixes have the same length
    and the same units. *)
Lemma lev_rec_zero a b : ∀ i j,
  lev_rec a b i j = 0 → i = j ∧ ∀ k, k < i → charAt b k = charAt a k.
Proof.
  induction i as [|i IHi]; intros j.
  - simpl. intros ->. split; [done|]. intros k Hk. lia.
  - destruct j as [|j]; [done|].
    rewrite lev_rec_S_S.
    destruct (String.eqb_spec (charAt b i) (charAt a j)) as [Heq|Hne]; [|lia].
    intros H0. destruct (IHi j H0) as [-> Hk]. split; [done|].
    intros k Hlt. destruct (decide (k = j)) as [->|]; [done|].
    apply Hk. lia.
Qed.

Lemma charAt_0 c s : charAt (String c s) 0 = String c EmptyString.
Proof. reflexivity. Qed.

Lemma charAt_S c s k : charAt (String c s) (S k) = charAt s k.
Proof. reflexivity. Qed.

Lemma string_ext : ∀ a b,
  String.length a = String.length b →
  (∀ k, k < String.length a → charAt b k = charAt a k) → a = b.
Proof.
  induction a as [|c a IH]; intros [|d b] Hlen Hk; simpl in Hlen; try done.
  assert (H0 := Hk 0 ltac:(simpl; lia)). rewrite !charAt_0 in H0.
  injection H0 as ->. f_equal. apply IH; [lia|].
  intros k Hlt. specialize (Hk (S k) ltac:(simpl; lia)).
  by rewrite !charAt_S in Hk.
Qed.

Lemma levenshteinDistance_zero a b : levenshteinDistance a b = 0 → a = b.
Proof.
  rewrite levenshteinDistance_rec. intros [Hlen Hk]%lev_rec_zero.
  symmetry. apply string_ext; [done|]. intros k Hlt. symmetry. by apply Hk.
Qed.

Lemma ratio_one (L d : nat) :
  L ≠ 0 →
  (inject_Z (Z.of_nat L - Z.of_nat d) / inject_Z (Z.of_nat L) == 1)%Q → d = 0.
Proof.
  intros HL H.
  assert (¬ (inject_Z (Z.of_nat L) == 0)%Q) as HL'.
  { intros H0. unfold Qeq in H0. simpl in H0. lia. }
  apply (Qmult_inj_r _ _ _ HL') in H.
  rewrite Qmult_1_l, Qmult_comm, Qmult_div_r in H by done.
  unfold Qeq in H. simpl in H. lia.
Qed.

Lemma ratio_bounds (L d : nat) :
  L ≠ 0 → d ≤ L →
  (0 <= inject_Z (Z.of_nat L - Z.of_nat d) / inject_Z (Z.of_nat L) <= 1)%Q.
Proof.
  intros HL Hd.
  assert (0 < inject_Z (Z.of_nat L))%Q as Hpos.
  { change 0%Q with (inject_Z 0). rewrite <- Zlt_Qlt. lia. }
  split.
  - apply Qle_shift_div_l; [done|]. rewrite Qmult_0_l.
    change 0%Q with (inject_Z 0). rewrite <- Zle_Qle. lia.
  - apply Qle_shift_div_r; [done|]. rewrite Qmult_1_l.
    rewrite <- Zle_Qle. lia.
Qed.

End SimilarityBounds.

(** ** The response cache, written and read *)

Module CacheMoreFacts.
Import Js Similarity AIService AIHelpers Statements Invariants.
Import SimilarityFacts BotFacts ClientFacts.

Lemma cache_of_insert w g c g' :
  cache_of (with_cache (<[g := c]> (conversationCache w)) w) g'
  = if decide (g = g') then c else cache_of w g'.
Proof.
  unfold cache_of. simpl. case_decide as Hg.
  - subst. by rewrite lookup_insert_eq.
  - by rewrite lookup_insert_ne.
Qed.

(** What [cacheResponse] leaves in the group's cache. *)
Lemma cacheResponse_cache g q r w :
  cache_of (cacheResponse g q r w).2 g
  = (if 50 <=? length (cache_of w g) then tail (cache_of w g) else cache_of w g)
    ++ [mkCacheItem (toLowerCase q) r (clock w)].
Proof.
  unfold cacheResponse. cbn [snd]. rewrite cache_of_insert.
  rewrite decide_True by done.
  change (match conversationCache w !! g with Some c => c | None => [] end)
    with (cache_of w g).
  generalize (cache_of w g). intros c.
  destruct (Nat.ltb_spec 50 (length (c ++ [mkCacheItem (toLowerCase q) r (clock w)])))
    as [H|H]; rewrite length_app in H; simpl in H;
    destruct (Nat.leb_spec 50 (length c)); try lia; [|done].
  destruct c; simpl in *; [lia|done].
Qed.

Lemma cacheResponse_others g q r w g' :
  g' ≠ g → cache_of (cacheResponse g q r w).2 g' = cache_of w g'.
Proof.
  intros Hne. unfold cacheResponse. cbn [snd]. rewrite cache_of_insert.
  by rewrite decide_False.
Qed.

Lemma cacheResponse_bounded g q r w :
  cache_bounded w → cache_bounded (cacheResponse g q r w).2.
Proof.
  intros Hb g'. destruct (decide (g' = g)) as [->|Hne].
  - rewrite cacheResponse_cache. specialize (Hb g).
    destruct (Nat.leb_spec 50 (length (cache_of w g)));
      rewrite length_app, ?length_tl; cbn [length]; lia.
  - rewrite cacheResponse_others by done. apply Hb.
Qed.

(** The worlds [getResponse] can leave: the request is in the outbox, and
    the cache is the old one or has one more answer. *)
Lemma getResponse_world env q ctx gid w :
  let w0 := with_outbox (outbox w ++ [HttpGet (enhancedQuery q ctx)]) w in
  (getResponse env q ctx gid w).2 = w0 ∨
  ∃ g r, gid = Some g ∧ truthy_num g = true ∧
         http env = Resolved (Some (mkPayload true (Some r))) ∧
         truthy_str r = true ∧
         getResponse env q ctx gid w = (inr (Some r), (cacheResponse g q r w0).2).
Proof.
  unfold getResponse, try_catch, axios_get, mbind, M_bind, bind, emit,
    mret, M_ret, ret.
  fold (enhancedQuery q ctx).
  destruct (http env) as [|[[[] [r|]]|]] eqn:Hhttp; simpl; try by left.
  destruct (truthy_str r) eqn:Hr; [|by left].
  destruct gid as [g|]; [|by left].
  destruct (truthy_num g) eqn:Hg; [|by left].
  right. by exists g, r.
Qed.

Lemma getResponse_delivered env q ctx g r w :
  http env = Resolved (Some (mkPayload true (Some r))) →
  truthy_str r = true → truthy_num g = true →
  getResponse env q ctx (Some g) w
  = (inr (Some r),
     (cacheResponse g q r
        (with_outbox (outbox w ++ [HttpGet (enhancedQuery q ctx)]) w)).2).
Proof.
  intros Hhttp Hr Hg.
  unfold getResponse, try_catch, axios_get, mbind, M_bind, bind, emit,
    mret, M_ret, ret.
  fold (enhancedQuery q ctx). rewrite Hhttp. simpl. by rewrite Hr, Hg.
Qed.

Lemma getResponse_bounded env q ctx gid w :
  cache_bounded w → cache_bounded (getResponse env q ctx gid w).2.
Proof.
  intros Hb.
  destruct (getResponse_world env q ctx gid w) as [->|(g & r & _ & _ & _ & _ & ->)].
  - done.
  - by apply cacheResponse_bounded.
Qed.

Lemma clearCache_cache g w g' :
  cache_of (clearCache g w).2 g' = if decide (g = g') then [] else cache_of w g'.
Proof.
  unfold clearCache, cache_of. simpl. case_decide as Hg.
  - subst. by rewrite lookup_delete_eq.
  - by rewrite lookup_delete_ne.
Qed.

Lemma clearCache_bounded g w :
  cache_bounded w → cache_bounded (clearCache g w).2.
Proof.
  intros Hb g'. rewrite clearCache_cache. case_decide; [simpl; lia|apply Hb].
Qed.

Lemma getCacheSize_run g w :
  getCacheSize g w = (inr (length (cache_of w g)), w).
Proof.
  unfold getCacheSize, cache_of. by destruct (conversationCache w !! g).
Qed.

(** The look-up, on the group's cache. *)
Lemma getCachedResponse_run g q w :
  getCachedResponse g q w
  = (inr (match List.find (similar q) (cache_of w g) with
          | Some item =>
              if recent (clock w) item then Some (ci_response item) else None
          | None => None
          end), w).
Proof.
  unfold getCachedResponse, cache_of, similar, recent.
  destruct (conversationCache w !! g) as [c|]; simpl; [|done].
  destruct (List.find _ c) as [item|]; [|done].
  by destruct (_ <? _)%Z.
Qed.

Lemma find_app_miss {A} (P : A → bool) l x :
  (∀ y, y ∈ l → P y = false) → P x = true →
  List.find P (l ++ [x]) = Some x.
Proof.
  intros Hl Hx. induction l as [|y l IH]; simpl; [by rewrite Hx|].
  rewrite (Hl y) by left. apply IH. intros z Hz. apply Hl. by right.
Qed.

Lemma similar_same_query q q' r now :
  toLowerCase q' = toLowerCase q →
  similar q' (mkCacheItem (toLowerCase q) r now) = true.
Proof.
  intros Hq. unfold similar. simpl. rewrite Hq. apply gt_spec.
  rewrite calculateSimilarity_refl. reflexivity.
Qed.

(** What a delivered answer leaves in the caches. *)
Lemma getResponse_delivered_cache env q ctx g r w :
  http env = Resolved (Some (mkPayload true (Some r))) →
  truthy_str r = true → truthy_num g = true →
  cache_of (getResponse env q ctx (Some g) w).2 g
  = (if 50 <=? length (cache_of w g) then tail (cache_of w g) else cache_of w g)
    ++ [mkCacheItem (toLowerCase q) r (clock w)]
  ∧ ∀ g', g' ≠ g →
      cache_of (getResponse env q ctx (Some g) w).2 g' = cache_of w g'.
Proof.
  intros Hhttp Hr Hg.
  rewrite (getResponse_delivered env q ctx g r w) by done. cbn [snd]. split.
  - by rewrite cacheResponse_cache.
  - intros g' Hne. by rewrite cacheResponse_others.
Qed.

End CacheMoreFacts.

(** ** The prompt helpers *)

Module HelperFacts.
Import Js Similarity AIService AIHelpers Statements Invariants.
Import ClientFacts.

Lemma enhancedQuery_plain q : enhancedQuery q "" = q.
Proof. reflexivity. Qed.

(** A prompt helper asks once, without system context and without group. *)
Lemma ask_run env q w :
  getResponse env q "" None w
  = (inr (client_reply env q), with_outbox (outbox w ++ [HttpGet q]) w).
Proof. by rewrite getResponse_no_group. Qed.

(** When the service fails, the reply is absent or one of the fallbacks. *)
Lemma failed_reply env q :
  service_failed env = true →
  client_reply env q = None ∨ ∃ f, client_reply env q = Some f ∧ f ∈ fallbacks.
Proof.
  unfold service_failed, client_reply, getFallbackResponse.
  destruct (http env) as [|data].
  - intros _. destruct (_ <? _)%Z; [by left|].
    destruct (fallbacks !! _) as [f|] eqn:Hf; [|by left].
    right. exists f. split; [done|]. by eapply list_elem_of_lookup_2.
  - intros Hbad%negb_true_iff. rewrite Hbad. by left.
Qed.

Ltac each_fallback H :=
  unfold fallbacks in H;
  repeat (apply elem_of_cons in H as [->|H]; [|]);
  [..|by apply elem_of_nil in H].

Lemma fallback_says_no_yes f :
  f ∈ fallbacks → includes (toLowerCase f) "yes" = false.
Proof. intros H. each_fallback H; by vm_compute. Qed.

Lemma fallback_is_no_label f :
  f ∈ fallbacks →
  existsb (String.eqb (trim (toLowerCase f))) ["positive"; "negative"; "neutral"]
  = false.
Proof. intros H. each_fallback H; by vm_compute. Qed.

Ltac run_helper :=
  unfold try_catch, mbind, M_bind, bind, throw, mret, M_ret, ret;
  rewrite ask_run.

Lemma analyzeSentiment_run env text w :
  ∃ q,
    analyzeSentiment env text w
    = (inr (match client_reply env q with
            | Some response =>
                let sentiment := trim (toLowerCase response) in
                if existsb (String.eqb sentiment)
                     ["positive"; "negative"; "neutral"]
                then sentiment else "neutral"
            | None => "neutral"
            end),
       with_outbox (outbox w ++ [HttpGet q]) w).
Proof.
  unfold analyzeSentiment.
  match goal with |- context [getResponse _ ?prompt _ _] => exists prompt end.
  run_helper.
  destruct (client_reply env _) as [response|]; [|done].
  cbv zeta. by destruct (existsb _ _).
Qed.

Lemma isSpam_run env text w :
  ∃ q,
    isSpam env text w
    = (inr (match client_reply env q with
            | Some response => includes (toLowerCase response) "yes"
            | None => false
            end),
       with_outbox (outbox w ++ [HttpGet q]) w).
Proof.
  unfold isSpam.
  match goal with |- context [getResponse _ ?prompt _ _] => exists prompt end.
  run_helper.
  by destruct (client_reply env _) as [response|].
Qed.

Lemma isInappropriate_run env text rules w :
  ∃ q,
    isInappropriate env text rules w
    = (inr (match client_reply env q with
            | Some response => includes (toLowerCase response) "yes"
            | None => false
            end),
       with_outbox (outbox w ++ [HttpGet q]) w).
Proof.
  unfold isInappropriate. cbv zeta.
  match goal with |- context [getResponse _ ?prompt _ _] => exists prompt end.
  run_helper.
  by destruct (client_reply env _) as [response|].
Qed.

End HelperFacts.

(** ** [LIKE], [LOWER] and [ORDER BY] *)

Module SqlFacts.
Import Js Sql.

Lemma elem_of_insert_desc {A} (lt : A → A → bool) x y l :
  x ∈ insert_desc lt y l ↔ x = y ∨ x ∈ l.
Proof.
  induction l as [|z l IH]; simpl.
  - rewrite list_elem_of_singleton. split; [by left|].
    intros [?|H]; [done|by apply elem_of_nil in H].
  - destruct (lt y z); rewrite !elem_of_cons, ?IH; tauto.
Qed.

Lemma elem_of_order_by_desc {A} (lt : A → A → bool) x l :
  x ∈ order_by_desc lt l ↔ x ∈ l.
Proof.
  induction l as [|y l IH]; simpl; [done|].
  rewrite elem_of_insert_desc, elem_of_cons. unfold order_by_desc in IH.
  by rewrite IH.
Qed.

(** The first row of [ORDER BY key DESC] has the largest key. *)
Lemma order_by_desc_head {A} (key : A → Q) l x :
  head (order_by_desc (fun a b => Js.gt (key b) (key a)) l) = Some x →
  ∀ y, y ∈ l → (key y <= key x)%Q.
Proof.
  revert x. induction l as [|z l IH]; intros x; simpl; [done|].
  fold (order_by_desc (fun a b => Js.gt (key b) (key a)) l).
  destruct (order_by_desc _ l) as [|h sorted] eqn:Hsorted; simpl.
  - intros [= <-] y Hy. apply elem_of_cons in Hy as [->|Hy]; [apply Qle_refl|].
    apply (elem_of_order_by_desc (fun a b => Js.gt (key b) (key a))) in Hy.
    rewrite Hsorted in Hy. by apply elem_of_nil in Hy.
  - specialize (IH h eq_refl).
    destruct (Js.gt (key h) (key z)) eqn:Hgt; simpl; intros [= <-] y Hy.
    + apply elem_of_cons in Hy as [->|Hy]; [|by apply IH].
      unfold Js.gt in Hgt. apply negb_true_iff in Hgt.
      apply Qlt_le_weak, Qnot_le_lt. intros Hle.
      apply Qle_bool_iff in Hle. congruence.
    + unfold Js.gt in Hgt. apply negb_false_iff, Qle_bool_iff in Hgt.
      apply elem_of_cons in Hy as [->|Hy]; [apply Qle_refl|].
      eapply Qle_trans; [by apply IH | done].
Qed.

Lemma head_limit_1 {A} (l : list A) : head (limit 1 l) = head l.
Proof. by destruct l. Qed.

Lemma lower_unit_idemp c : lower_unit (lower_unit c) = lower_unit c.
Proof. destruct c as [[] [] [] [] [] [] [] []]; reflexivity. Qed.

Lemma LOWER_idemp s : LOWER (LOWER s) = LOWER s.
Proof. induction s as [|c s IH]; simpl; [done|]. by rewrite lower_unit_idemp, IH. Qed.

Lemma lower_unit_js c : lower_unit (Js.lower_unit c) = Js.lower_unit c.
Proof. destruct c as [[] [] [] [] [] [] [] []]; reflexivity. Qed.

Lemma LOWER_toLowerCase s : LOWER (toLowerCase s) = toLowerCase s.
Proof. induction s as [|c s IH]; simpl; [done|]. by rewrite lower_unit_js, IH. Qed.

(** [LIKE] on its three kinds of pattern characters. *)
Lemma like_percent p s :
  like (String "%" p) s
  = like p s || match s with
                | EmptyString => false
                | String _ s' => like (String "%" p) s'
                end.
Proof. by destruct s. Qed.

Lemma like_literal c p s :
  Ascii.eqb c "%" = false → Ascii.eqb c "_" = false →
  like (String c p) s
  = match s with
    | EmptyString => false
    | String d s' => Ascii.eqb (lower_unit c) (lower_unit d) && like p s'
    end.
Proof. intros H1 H2. cbn [like]. by rewrite H1, H2. Qed.

Lemma like_any s : like "%" s = true.
Proof.
  induction s as [|c s IH]; [done|]. rewrite like_percent. by rewrite IH.
Qed.

Lemma like_any_3 s : like "%%%" s = true.
Proof.
  rewrite like_percent.
  assert (like "%%" s = true) as ->; [|done].
  rewrite like_percent. by rewrite like_any.
Qed.

End SqlFacts.

(** ** The pattern of [forgetLearnedData] *)

Module ForgetFacts.
Import Js Sql Database Statements Invariants SqlFacts.

Lemma wildcard_free_toLowerCase k :
  wildcard_free (toLowerCase k) = wildcard_free k.
Proof.
  induction k as [|c k IH]; simpl; [done|]. rewrite IH. f_equal.
  destruct c as [[] [] [] [] [] [] [] []]; reflexivity.
Qed.

(** A pattern without wildcards, followed by [%], matches the strings it
    is a prefix of, up to ASCII case. *)
Lemma like_prefix k : ∀ s,
  wildcard_free k = true →
  like (k +:+ "%") s = String.prefix (LOWER k) (LOWER s).
Proof.
  induction k as [|c k IH]; intros s Hk.
  - rewrite like_any. by destruct s.
  - simpl in Hk. apply andb_true_iff in Hk as [Hc Hk].
    apply andb_true_iff in Hc as [H1%negb_true_iff H2%negb_true_iff].
    change (String c k +:+ "%") with (String c (k +:+ "%")).
    rewrite like_literal by done.
    destruct s as [|d s]; [done|]. simpl. rewrite IH by done.
    destruct (Ascii.eqb_spec (lower_unit c) (lower_unit d)) as [->|Hne].
    + by destruct (ascii_dec _ _).
    + by destruct (ascii_dec _ _).
Qed.

(** Between two [%], it matches the strings that contain it. *)
Lemma like_contains k s :
  wildcard_free k = true →
  like ("%" +:+ k +:+ "%") s = includes (LOWER s) (LOWER k).
Proof.
  intros Hk. change ("%" +:+ k +:+ "%") with (String "%" (k +:+ "%")).
  induction s as [|c s IH].
  - rewrite like_percent, like_prefix by done. simpl. by rewrite orb_false_r.
  - rewrite like_percent, like_prefix, IH by done. reflexivity.
Qed.

Lemma doomed_mentions g k r :
  wildcard_free k = true →
  (lr_group_id r =? g)%Z
  && (like ("%" +:+ toLowerCase k +:+ "%") (LOWER (lr_question r))
      || like ("%" +:+ toLowerCase k +:+ "%") (LOWER (lr_answer r)))
  = mentions g k r.
Proof.
  intros Hk. unfold mentions.
  rewrite !like_contains by (by rewrite wildcard_free_toLowerCase).
  by rewrite !LOWER_idemp, LOWER_toLowerCase.
Qed.

End ForgetFacts.

(** ** Retrieval *)

Module RetrievalFacts.
Import Js Sql Database Statements Invariants SqlFacts KnowledgeFacts BotFacts.

(** Retrieval never writes; it answers [retrieved] or, on a driver fault,
    nothing. *)
Lemma findLearnedResponse_cases g q w :
  tables (findLearnedResponse g q w).2 = tables w ∧
  ((findLearnedResponse g q w).1 = inr None ∨
   (findLearnedResponse g q w).1
   = inr (retrieved g q (learned_responses (tables w)))).
Proof.
  destruct w as [t fs c ss now ob].
  unfold findLearnedResponse, retrieved. run_db.
  destruct (head (filter _ (learned_responses t))) as [r|] eqn:Hexact.
  - destruct fs as [|[] rest]; simpl; rewrite ?Hexact; simpl;
      first [by (split; [|left]) | by (split; [|right])].
  - destruct fs as [|[] [|[] rest]]; simpl; rewrite ?Hexact; simpl;
      first [ by (split; [|left])
            | by (split; [|right; by destruct (order_by_desc _ _)]) ].
Qed.

Lemma findLearnedResponse_up g q w :
  no_fault 2 w →
  (findLearnedResponse g q w).1
  = inr (retrieved g q (learned_responses (tables w))).
Proof.
  destruct w as [t fs c ss now ob]. intros Hup.
  assert (H0 := Hup 0). assert (H1 := Hup 1).
  unfold findLearnedResponse, retrieved. run_db.
  destruct (head (filter _ (learned_responses t))) as [r|] eqn:Hexact.
  - destruct fs as [|[] rest]; simpl in *; rewrite ?Hexact; simpl; try done.
    exfalso. by apply H0; [lia|].
  - destruct fs as [|[] [|[] rest]]; simpl in *; rewrite ?Hexact; simpl;
      first [ by destruct (order_by_desc _ _)
            | by (exfalso; apply H0; [lia|])
            | by (exfalso; apply H1; [lia|]) ].
Qed.

Lemma exact_match_same g q r :
  exact_match g q r = same_question g q r && Js.gt (lr_confidence r) (1 # 2).
Proof. reflexivity. Qed.

(** Under one row per key, the exact look-up finds the trusted row that
    has the key. *)
Lemma exact_found g q rows r0 :
  NoDup (question_key <$> rows) → r0 ∈ rows →
  exact_match g q r0 = true →
  head (filter (fun r => exact_match g q r = true) rows) = Some r0.
Proof.
  induction rows as [|x rows IH]; intros Hkeys Hin Hexact.
  - by apply elem_of_nil in Hin.
  - rewrite fmap_cons, NoDup_cons in Hkeys. destruct Hkeys as [Hx Hkeys].
    destruct (decide (exact_match g q x = true)) as [Hxm|Hxm].
    + rewrite filter_cons_True by done. simpl. f_equal.
      apply elem_of_cons in Hin as [->|Hin]; [done|].
      exfalso. apply Hx.
      rewrite exact_match_same in Hxm, Hexact.
      apply andb_true_iff in Hxm as [Hxm _], Hexact as [Hexact _].
      apply same_question_key in Hxm, Hexact. rewrite Hxm, <- Hexact.
      by apply list_elem_of_fmap_2.
    + rewrite filter_cons_False by done.
      apply elem_of_cons in Hin as [->|Hin]; [done|]. by apply IH.
Qed.

Lemma retrieved_sound g q rows r :
  retrieved g q rows = Some r →
  r ∈ rows ∧ (exact_match g q r = true ∨ partial_match g q r = true).
Proof.
  unfold retrieved.
  destruct (head (filter _ rows)) as [r0|] eqn:Hexact.
  - intros [= <-]. apply head_Some_elem_of in Hexact.
    apply list_elem_of_filter in Hexact as [? ?]. auto.
  - intros Hhead%head_Some_elem_of.
    apply elem_of_order_by_desc, list_elem_of_filter in Hhead as [? ?]. auto.
Qed.

(** With the driver up, [addLearnedResponse] leaves a trusted row for the
    question in the table. *)
Lemma addLearnedResponse_up g q a s w :
  db_faults w = [] →
  db_faults (addLearnedResponse g q a s w).2 = [] ∧
  outbox (addLearnedResponse g q a s w).2 = outbox w ∧
  groups (tables (addLearnedResponse g q a s w).2) = groups (tables w) ∧
  ∃ r, r ∈ learned_responses (tables (addLearnedResponse g q a s w).2) ∧
       same_question g q r = true ∧ lr_answer r = a ∧
       lr_confidence r = 1%Q ∧ lr_learned_from r = s.
Proof.
  destruct w as [t fs c ss now ob]. simpl. intros ->.
  unfold addLearnedResponse. run_db.
  destruct (head (filter _ (learned_responses t))) as [r0|] eqn:Hhead; simpl.
  - split_and!; try done.
    apply head_Some_elem_of in Hhead.
    apply list_elem_of_filter in Hhead as [Hsame Hin].
    exists (retaught a s r0). split_and!; try done.
    apply list_elem_of_fmap. exists r0. split; [|done].
    by rewrite Z.eqb_refl.
  - split_and!; try done.
    eexists. split; [apply elem_of_app; right; by apply list_elem_of_singleton|].
    split_and!; try done.
    unfold same_question. simpl. by rewrite Z.eqb_refl, String.eqb_refl.
Qed.

Lemma same_question_fold g q q' r :
  LOWER q' = LOWER q → same_question g q' r = same_question g q r.
Proof. intros Hq. unfold same_question. by rewrite Hq. Qed.

(** Teach, then ask. *)
Lemma taught_is_retrieved g q q' a s w :
  well_kept (tables w) → db_faults w = [] → LOWER q' = LOWER q →
  ∃ r, findLearnedResponse g q' (addLearnedResponse g q a s w).2
       = (inr (Some r), (addLearnedResponse g q a s w).2) ∧
       lr_group_id r = g ∧ LOWER (lr_question r) = LOWER q ∧
       lr_answer r = a ∧ lr_confidence r = 1%Q ∧ lr_learned_from r = s.
Proof.
  intros Hwk Hup Hq.
  pose proof (addLearnedResponse_well_kept g q a s w Hwk) as Hwk'.
  destruct (addLearnedResponse_up g q a s w Hup)
    as (Hup' & _ & _ & r & Hin & Hsame & Ha & Hc & Hs).
  set (w1 := (addLearnedResponse g q a s w).2) in *.
  assert (exact_match g q' r = true) as Hexact.
  { rewrite exact_match_same, (same_question_fold g q q') by done.
    by rewrite Hsame, Hc. }
  exists r. split_and!; try done.
  - destruct w1 as [t1 fs1 c1 ss1 now1 ob1]. simpl in *. subst fs1.
    unfold findLearnedResponse. run_db.
    destruct Hwk' as (_ & _ & Hkeys).
    by rewrite (exact_found g q' _ r Hkeys Hin Hexact).
  - unfold same_question in Hsame.
    by apply andb_true_iff in Hsame as [->%Z.eqb_eq _].
  - unfold same_question in Hsame.
    by apply andb_true_iff in Hsame as [_ ->%String.eqb_eq].
Qed.

End RetrievalFacts.

(** ** The range of the confidence *)

Module ConfidenceFacts.
Import Js Sql Database Statements Invariants KnowledgeFacts.

Lemma clamp_bounds x : (0 <= Qmax 0 (Qmin 1 x) <= 1)%Q.
Proof.
  split; [apply Q.le_max_l|].
  apply Q.max_lub; [done | apply Q.le_min_l].
Qed.

Lemma bounded_update (f : LearnedRow → LearnedRow) t :
  (∀ r, (0 <= lr_confidence r <= 1)%Q → (0 <= lr_confidence (f r) <= 1)%Q) →
  confidences_bounded t → confidences_bounded (with_learned (fmap f) t).
Proof.
  intros Hf Hb. unfold confidences_bounded in *. simpl.
  apply Forall_fmap. eapply Forall_impl; [exact Hb|]. intros r. apply Hf.
Qed.

Lemma addLearnedResponse_bounded g q a s w :
  confidences_bounded (tables w) →
  confidences_bounded (tables (addLearnedResponse g q a s w).2).
Proof.
  intros Hb.
  destruct (addLearnedResponse_tables g q a s w)
    as [->|[(r0 & Hhead & ->)|[Hnone ->]]]; [done| |].
  - apply bounded_update; [|done]. intros r Hr.
    by destruct (_ =? _)%Z.
  - unfold confidences_bounded in *. simpl.
    apply Forall_app. split; [done|]. by apply Forall_singleton.
Qed.

Lemma forgetLearnedData_bounded g k w :
  confidences_bounded (tables w) →
  confidences_bounded (tables (forgetLearnedData g k w).2).
Proof.
  destruct w as [t fs c ss now ob].
  intros Hb. unfold forgetLearnedData. run_db.
  destruct fs as [|[] rest]; simpl; try done;
    unfold confidences_bounded in *; simpl;
    rewrite Forall_forall in Hb |- *;
    intros r [_ Hr]%list_elem_of_filter; by apply Hb.
Qed.

Lemma updateResponseConfidence_bounded i good w :
  confidences_bounded (tables w) →
  confidences_bounded (tables (updateResponseConfidence i good w).2).
Proof.
  destruct w as [t fs c ss now ob].
  intros Hb. unfold updateResponseConfidence. run_db.
  destruct fs as [|[] rest]; simpl; try done;
    (apply bounded_update; [|done]; intros r Hr;
     destruct (_ =? _)%Z; [apply clamp_bounds|done]).
Qed.

Lemma updateResponseConfidence_text_bounded env id good w :
  confidences_bounded (tables w) →
  confidences_bounded (tables (updateResponseConfidence_text env id good w).2).
Proof.
  destruct w as [t fs c ss now ob].
  intros Hb. unfold updateResponseConfidence_text. run_db.
  destruct fs as [|[] rest]; simpl; try done;
    (apply bounded_update; [|done]; intros r Hr;
     destruct (match id with Some _ => _ | None => _ end);
     [apply clamp_bounds|done]).
Qed.

Lemma incrementResponseUsage_bounded i w :
  confidences_bounded (tables w) →
  confidences_bounded (tables (incrementResponseUsage i w).2).
Proof.
  destruct w as [t fs c ss now ob].
  intros Hb. unfold incrementResponseUsage. run_db.
  destruct fs as [|[] rest]; simpl; try done;
    (apply bounded_update; [|done]; intros r Hr; by destruct (_ =? _)%Z).
Qed.

Lemma run_ops_bounded ops : ∀ w,
  confidences_bounded (tables w) →
  confidences_bounded (tables (run_ops ops w)).
Proof.
  induction ops as [|[now op] ops IH]; intros w Hb; [done|].
  apply IH. unfold run_op. simpl. destruct op.
  - by apply addLearnedResponse_bounded.
  - by apply forgetLearnedData_bounded.
  - by apply updateResponseConfidence_bounded.
  - by apply incrementResponseUsage_bounded.
Qed.

Lemma updateResponseConfidence_rows i good w :
  lr_id <$> learned_responses (tables (updateResponseConfidence i good w).2)
  = lr_id <$> learned_responses (tables w).
Proof.
  destruct w as [t fs c ss now ob].
  unfold updateResponseConfidence. run_db.
  destruct fs as [|[] rest]; simpl; try done;
    rewrite <- list_fmap_compose; apply list_fmap_ext;
    intros ? r _; simpl; by destruct (_ =? _)%Z.
Qed.

(** Decimal spellings tell integers apart. *)
Lemma toString_inj a b : toString a = toString b → a = b.
Proof.
  assert (∀ z, NilZero.int_of_string (toString z) = Some (Z.to_int z)) as Hread.
  { intros z. unfold toString. apply NilZero.isi.
    - intros H. pose proof (DecimalZ.of_to z) as Hz. rewrite H in Hz.
      simpl in Hz. subst z. discriminate.
    - intros H. pose proof (DecimalZ.of_to z) as Hz. rewrite H in Hz.
      simpl in Hz. subst z. discriminate. }
  intros Heq. pose proof (Hread a) as Ha. rewrite Heq, Hread in Ha.
  injection Ha as Ha.
  by rewrite <- (DecimalZ.of_to a), <- (DecimalZ.of_to b), Ha.
Qed.

(** With a driver that reads decimal spellings, the vote that names an
    entry by the spelling of its id is the update of that entry. *)
Lemma updateResponseConfidence_text_decimal env i good w :
  same_id env = Scenario.decimal_of →
  updateResponseConfidence_text env (Some (toString i)) good w
  = updateResponseConfidence i good w.
Proof.
  intros Hdriver. unfold updateResponseConfidence_text, updateResponseConfidence.
  rewrite Hdriver. run_db.
  assert (∀ r, Scenario.decimal_of (toString i) (lr_id r) = (lr_id r =? i)%Z)
    as Hsame.
  { intros r. unfold Scenario.decimal_of.
    destruct (Z.eqb_spec (lr_id r) i) as [->|Hne].
    - apply String.eqb_refl.
    - apply String.eqb_neq. intros H%toString_inj. congruence. }
  destruct (db_faults w) as [|[] rest]; try done;
    do 2 f_equal; unfold with_learned; f_equal;
    apply list_fmap_ext; intros ? r _; by rewrite Hsame.
Qed.

End ConfidenceFacts.

(** ** The [DELETE] of [forgetLearnedData] *)

Module ForgetMoreFacts.
Import Js Sql Database Statements Invariants SqlFacts ForgetFacts KnowledgeFacts.

Lemma filter_split_length {A} (f : A → bool) l :
  length (filter (fun x => f x = true) l)
  + length (filter (fun x => f x = false) l) = length l.
Proof.
  induction l as [|x l IH]; [done|].
  destruct (f x) eqn:Hf.
  - rewrite filter_cons_True, filter_cons_False by (done || congruence).
    simpl. lia.
  - rewrite filter_cons_False, filter_cons_True by (done || congruence).
    simpl. lia.
Qed.

(** The [DELETE] of [forgetLearnedData], for any predicate that agrees
    with its [WHERE] clause. *)
Lemma forgetLearnedData_run (doomed : LearnedRow → bool) g k w :
  (∀ r, (lr_group_id r =? g)%Z
        && (like ("%" +:+ toLowerCase k +:+ "%") (LOWER (lr_question r))
            || like ("%" +:+ toLowerCase k +:+ "%") (LOWER (lr_answer r)))
        = doomed r) →
  let rows := learned_responses (tables w) in
  let rows' := learned_responses (tables (forgetLearnedData g k w).2) in
  (rows' = rows ∨ rows' = filter (fun r => doomed r = false) rows) ∧
  (no_fault 1 w → rows' = filter (fun r => doomed r = false) rows) ∧
  (forgetLearnedData g k w).1 = inr (Z.of_nat (length rows - length rows')).
Proof.
  intros Hdoomed. destruct w as [t fs c ss now ob].
  unfold forgetLearnedData. run_db.
  assert (∀ l : list LearnedRow,
            filter (fun r =>
              (lr_group_id r =? g)%Z
              && (like ("%" +:+ toLowerCase k +:+ "%") (LOWER (lr_question r))
                  || like ("%" +:+ toLowerCase k +:+ "%") (LOWER (lr_answer r)))
              = false) l
            = filter (fun r => doomed r = false) l) as Hkeep.
  { intros l. apply list_filter_iff. intros r. by rewrite Hdoomed. }
  assert (∀ l : list LearnedRow,
            filter (fun r =>
              (lr_group_id r =? g)%Z
              && (like ("%" +:+ toLowerCase k +:+ "%") (LOWER (lr_question r))
                  || like ("%" +:+ toLowerCase k +:+ "%") (LOWER (lr_answer r)))
              = true) l
            = filter (fun r => doomed r = true) l) as Hdrop.
  { intros l. apply list_filter_iff. intros r. by rewrite Hdoomed. }
  pose proof (filter_split_length doomed (learned_responses t)) as Hlen.
  destruct fs as [|[] rest]; simpl; rewrite ?Hkeep, ?Hdrop.
  - split_and!; [by right|done|]. unfold count. do 2 f_equal. lia.
  - split_and!; [by left| |by rewrite Nat.sub_diag].
    intros Hup. exfalso. by apply (Hup 0); [lia|].
  - split_and!; [by right|done|]. unfold count. do 2 f_equal. lia.
Qed.

(** The two outcomes of [forgetLearnedData], told apart by what the
    driver does at its one statement. *)
Lemma forgetLearnedData_outcome (doomed : LearnedRow → bool) g k w :
  (∀ r, (lr_group_id r =? g)%Z
        && (like ("%" +:+ toLowerCase k +:+ "%") (LOWER (lr_question r))
            || like ("%" +:+ toLowerCase k +:+ "%") (LOWER (lr_answer r)))
        = doomed r) →
  let rows := learned_responses (tables w) in
  (db_faults w !! 0 ≠ Some true →
   tables (forgetLearnedData g k w).2
   = with_learned (filter (fun r => doomed r = false)) (tables w) ∧
   (forgetLearnedData g k w).1
   = inr (Z.of_nat (length (filter (fun r => doomed r = true) rows)))) ∧
  (db_faults w !! 0 = Some true →
   tables (forgetLearnedData g k w).2 = tables w ∧
   (forgetLearnedData g k w).1 = inr 0%Z).
Proof.
  intros Hdoomed. destruct w as [t fs c ss now ob].
  unfold forgetLearnedData. run_db.
  assert (∀ l : list LearnedRow,
            filter (fun r =>
              (lr_group_id r =? g)%Z
              && (like ("%" +:+ toLowerCase k +:+ "%") (LOWER (lr_question r))
                  || like ("%" +:+ toLowerCase k +:+ "%") (LOWER (lr_answer r)))
              = false) l
            = filter (fun r => doomed r = false) l) as Hkeep.
  { intros l. apply list_filter_iff. intros r. by rewrite Hdoomed. }
  assert (∀ l : list LearnedRow,
            filter (fun r =>
              (lr_group_id r =? g)%Z
              && (like ("%" +:+ toLowerCase k +:+ "%") (LOWER (lr_question r))
                  || like ("%" +:+ toLowerCase k +:+ "%") (LOWER (lr_answer r)))
              = true) l
            = filter (fun r => doomed r = true) l) as Hdrop.
  { intros l. apply list_filter_iff. intros r. by rewrite Hdoomed. }
  destruct fs as [|[] rest]; simpl; unfold with_learned; simpl;
    rewrite ?Hkeep, ?Hdrop; split; intros Hf; done.
Qed.

End ForgetMoreFacts.

(** ** Selecting and updating rows by a key *)

Module RowFacts.
Import Js Sql Database Statements Invariants KnowledgeFacts.

(** Selecting by a column a row-wise update keeps. *)
Lemma head_filter_fmap {A} (P : A → Prop) `{∀ x, Decision (P x)}
    (f : A → A) (l : list A) :
  (∀ x, P (f x) ↔ P x) →
  head (filter P (f <$> l)) = f <$> head (filter P l).
Proof.
  intros HP. induction l as [|x l IH]; [done|].
  rewrite fmap_cons. destruct (decide (P x)) as [Hx|Hx].
  - rewrite !filter_cons_True by (done || by apply HP). done.
  - rewrite !filter_cons_False by (done || by rewrite HP). done.
Qed.

Lemma head_filter_app_miss {A} (P : A → Prop) `{∀ x, Decision (P x)}
    (l : list A) (x : A) :
  head (filter P l) = None → P x → head (filter P (l ++ [x])) = Some x.
Proof.
  intros Hnone Hx. apply head_None in Hnone.
  rewrite filter_app, Hnone. simpl. by rewrite filter_cons_True.
Qed.

Lemma head_filter_app_other {A} (P : A → Prop) `{∀ x, Decision (P x)}
    (l : list A) (x : A) :
  ¬ P x → head (filter P (l ++ [x])) = head (filter P l).
Proof.
  intros Hx. rewrite filter_app, filter_cons_False, filter_nil by done.
  by rewrite app_nil_r.
Qed.

Lemma existsb_head_filter {A} (f : A → bool) (P : A → Prop)
    `{∀ x, Decision (P x)} (l : list A) :
  (∀ x, f x = true ↔ P x) →
  existsb f l = bool_decide (is_Some (head (filter P l))).
Proof.
  intros Hf. induction l as [|x l IH]; [done|]. simpl.
  destruct (f x) eqn:Hx.
  - rewrite filter_cons_True by (by apply Hf). done.
  - rewrite filter_cons_False; [done|]. rewrite <- Hf. congruence.
Qed.

Lemma NoDup_fmap_update {A} (key : A → Z) (f : A → A) (l : list A) :
  (∀ x, key (f x) = key x) →
  NoDup (key <$> l) → NoDup (key <$> (f <$> l)).
Proof.
  intros Hf Hl. rewrite <- list_fmap_compose.
  by rewrite (list_fmap_ext (key ∘ f) key l) by (intros; apply Hf).
Qed.

Lemma NoDup_fmap_insert {A} (key : A → Z) (l : list A) (x : A) :
  head (filter (fun y => key y = key x) l) = None →
  NoDup (key <$> l) → NoDup (key <$> (l ++ [x])).
Proof.
  intros Hnone Hl. rewrite fmap_app. simpl.
  apply NoDup_app. split_and!; [done| |apply NoDup_singleton].
  intros k Hk ->%list_elem_of_singleton.
  apply list_elem_of_fmap in Hk as (y & Hy & Hin).
  apply head_None in Hnone.
  assert (y ∈ filter (fun y => key y = key x) l) as Hf
    by (by apply list_elem_of_filter).
  rewrite Hnone in Hf. by apply elem_of_nil in Hf.
Qed.

Lemma NoDup_fmap_filter {A} (key : A → Z) (P : A → Prop)
    `{∀ x, Decision (P x)} (l : list A) :
  NoDup (key <$> l) → NoDup (key <$> filter P l).
Proof.
  intros Hl. eapply sublist_NoDup; [exact Hl|].
  apply fmap_sublist, sublist_filter.
Qed.

End RowFacts.

(** ** Persisted setup sessions *)

Module SessionFacts.
Import Js Sql Database Statements Invariants KnowledgeFacts RowFacts.

Lemma saveSetupState_tables u g step data w :
  setup_states (tables (saveSetupState u g step data w).2)
  = setup_states (tables w) ∨
  setup_states (tables (saveSetupState u g step data w).2)
  = saved u g step data (clock w / 1000)%Z (setup_states (tables w)).
Proof.
  destruct w as [t fs c ss now ob]. unfold saveSetupState, saved.
  unfold try_catch, mbind, M_bind, bind, driver, current_timestamp,
    mret, M_ret, ret, with_setup_states.
  cbn -[existsb].
  rewrite (existsb_head_filter _ (fun r => ss_user_id r = u))
    by (intros; apply Z.eqb_eq).
  destruct (head (filter _ (setup_states t))) as [r0|];
    destruct fs as [|[] rest]; simpl; auto.
Qed.

Lemma saveSetupState_up u g step data w :
  db_faults w = [] →
  db_faults (saveSetupState u g step data w).2 = [] ∧
  setup_states (tables (saveSetupState u g step data w).2)
  = saved u g step data (clock w / 1000)%Z (setup_states (tables w)).
Proof.
  destruct w as [t fs c ss now ob]. simpl. intros ->.
  unfold saveSetupState, saved.
  unfold try_catch, mbind, M_bind, bind, driver, current_timestamp,
    mret, M_ret, ret, with_setup_states.
  cbn -[existsb].
  rewrite (existsb_head_filter _ (fun r => ss_user_id r = u))
    by (intros; apply Z.eqb_eq).
  by destruct (head (filter _ (setup_states t))) as [r0|].
Qed.

Lemma saved_unique u g step data now rows :
  NoDup (ss_user_id <$> rows) →
  NoDup (ss_user_id <$> saved u g step data now rows).
Proof.
  intros Hu. unfold saved.
  destruct (head (filter _ rows)) as [r0|] eqn:Hhead.
  - apply NoDup_fmap_update; [|done]. intros r. by destruct (_ =? _)%Z.
  - by apply NoDup_fmap_insert.
Qed.

Lemma saved_row u g step data now rows :
  head (filter (fun r => ss_user_id r = u) (saved u g step data now rows))
  = Some (mkSetupRow u
            (match head (filter (fun r => ss_user_id r = u) rows) with
             | Some old => ss_group_id old
             | None => g
             end) step data now).
Proof.
  unfold saved.
  destruct (head (filter _ rows)) as [r0|] eqn:Hhead.
  - rewrite head_filter_fmap, Hhead.
    + apply head_Some_elem_of, list_elem_of_filter in Hhead as [Hu _].
      simpl. apply Z.eqb_eq in Hu as Hu'. rewrite Hu'. by rewrite Hu.
    + intros r. by destruct (_ =? _)%Z.
  - by rewrite head_filter_app_miss.
Qed.

Lemma saved_others u g step data now rows u' :
  u' ≠ u →
  head (filter (fun r => ss_user_id r = u') (saved u g step data now rows))
  = head (filter (fun r => ss_user_id r = u') rows).
Proof.
  intros Hne. unfold saved.
  destruct (head (filter (fun r => ss_user_id r = u) rows)) as [r0|] eqn:Hhead.
  - rewrite head_filter_fmap by (intros r; by destruct (_ =? _)%Z).
    destruct (head (filter (fun r => ss_user_id r = u') rows))
      as [r|] eqn:Hr; [|done].
    apply head_Some_elem_of, list_elem_of_filter in Hr as [Hu _].
    simpl. destruct (Z.eqb_spec (ss_user_id r) u); [congruence|done].
  - rewrite head_filter_app_other; [done|]. simpl. congruence.
Qed.

Lemma getSetupState_up u w :
  db_faults w = [] → getSetupState u w = (inr (setup_row (tables w) u), w).
Proof.
  destruct w as [t fs c ss now ob]. simpl. intros ->.
  unfold getSetupState. by run_db.
Qed.

Lemma deleteSetupState_tables u w :
  setup_states (tables (deleteSetupState u w).2) = setup_states (tables w) ∨
  setup_states (tables (deleteSetupState u w).2)
  = filter (fun r => ss_user_id r ≠ u) (setup_states (tables w)).
Proof.
  destruct w as [t fs c ss now ob]. unfold deleteSetupState. run_db.
  destruct fs as [|[] rest]; simpl; auto.
Qed.

Lemma deleteSetupState_up u w :
  db_faults w = [] →
  db_faults (deleteSetupState u w).2 = [] ∧
  setup_states (tables (deleteSetupState u w).2)
  = filter (fun r => ss_user_id r ≠ u) (setup_states (tables w)).
Proof.
  destruct w as [t fs c ss now ob]. simpl. intros ->.
  unfold deleteSetupState. by run_db.
Qed.

Lemma filter_filter_head_same u (rows : list SetupRow) :
  head (filter (fun r => ss_user_id r = u)
               (filter (fun r => ss_user_id r ≠ u) rows)) = None.
Proof.
  apply head_None. induction rows as [|r rows IH]; [done|].
  destruct (decide (ss_user_id r = u)) as [Hu|Hu].
  - by rewrite (filter_cons_False (fun r => ss_user_id r ≠ u)) by tauto.
  - rewrite (filter_cons_True (fun r => ss_user_id r ≠ u)) by done.
    by rewrite filter_cons_False.
Qed.

Lemma filter_filter_head_other u u' (rows : list SetupRow) :
  u' ≠ u →
  head (filter (fun r => ss_user_id r = u')
               (filter (fun r => ss_user_id r ≠ u) rows))
  = head (filter (fun r => ss_user_id r = u') rows).
Proof.
  intros Hne. f_equal. induction rows as [|r rows IH]; [done|].
  destruct (decide (ss_user_id r = u)) as [Hu|Hu].
  - rewrite (filter_cons_False (fun r => ss_user_id r ≠ u)) by tauto.
    rewrite (filter_cons_False (fun r => ss_user_id r = u')) by congruence.
    done.
  - rewrite (filter_cons_True (fun r => ss_user_id r ≠ u)) by done.
    destruct (decide (ss_user_id r = u')).
    + rewrite !filter_cons_True by done. by rewrite IH.
    + by rewrite !filter_cons_False.
Qed.

End SessionFacts.

(** ** The [groups] table *)

Module GroupFacts.
Import Js Sql Database Statements Invariants KnowledgeFacts RowFacts.

Lemma tables_eta t :
  mkTables (groups t) (setup_states t) (messages t) (learned_responses t)
           (learned_seq t) (interactions t) (keywords t) (user_stats t) = t.
Proof. by destruct t. Qed.

Lemma getGroup_up g w :
  db_faults w = [] → getGroup g w = (inr (group_row (tables w) g), w).
Proof.
  destruct w as [t fs c ss now ob]. simpl. intros ->.
  unfold getGroup. by run_db.
Qed.

Lemma addGroup_up g name w :
  db_faults w = [] →
  addGroup g name w
  = (inr tt,
     with_tables
       (with_groups (fun rows =>
          match group_row (tables w) g with
          | Some _ => rows
          | None => rows ++ [fresh_group g name]
          end) (tables w)) w).
Proof.
  destruct w as [t fs c ss now ob]. simpl. intros ->.
  unfold addGroup, group_row.
  unfold try_catch, mbind, M_bind, bind, driver, mret, M_ret, ret, with_groups.
  cbn -[existsb].
  rewrite (existsb_head_filter _ (fun r => g_group_id r = g))
    by (intros; apply Z.eqb_eq).
  by destruct (head (filter _ (groups t))).
Qed.

Lemma updateGroupConfig_up g config w :
  db_faults w = [] →
  updateGroupConfig (Some g) config w
  = (inr tt,
     with_tables
       (with_groups
          (fmap (fun r => if (g_group_id r =? g)%Z then configured config r
                          else r)) (tables w)) w).
Proof.
  destruct w as [t fs c ss now ob]. simpl. intros ->.
  unfold updateGroupConfig. run_db. unfold with_tables, with_groups. simpl.
  do 3 f_equal. apply list_fmap_ext. intros _ r _.
  destruct (Z.eqb_spec (g_group_id r) g) as [Heq|Hne].
  - rewrite bool_decide_eq_true_2; [done|]. by rewrite Heq.
  - rewrite bool_decide_eq_false_2; [done|]. congruence.
Qed.

Lemma togglePause_up g paused w :
  db_faults w = [] →
  togglePause g paused w
  = (inr tt,
     with_tables
       (with_groups
          (fmap (fun r => if (g_group_id r =? g)%Z then pause_set paused r
                          else r)) (tables w)) w).
Proof.
  destruct w as [t fs c ss now ob]. simpl. intros ->.
  unfold togglePause. by run_db.
Qed.

(** A row-wise update of the rows of one group, seen through the
    selection of a group's row. *)
Lemma group_row_update (f : GroupRow → GroupRow) g t g' :
  (∀ r, g_group_id (f r) = g_group_id r) →
  group_row
    (with_groups (fmap (fun r => if (g_group_id r =? g)%Z then f r else r)) t) g'
  = (if decide (g' = g) then f else id) <$> group_row t g'.
Proof.
  intros Hf. unfold group_row. simpl.
  rewrite head_filter_fmap.
  - destruct (head (filter _ (groups t))) as [r|] eqn:Hr; [|done].
    apply head_Some_elem_of, list_elem_of_filter in Hr as [Hid _].
    simpl. f_equal. rewrite Hid.
    destruct (Z.eqb_spec g' g), (decide (g' = g)); done.
  - intros r. destruct (_ =? _)%Z; [|done]. by rewrite Hf.
Qed.

Lemma update_no_row (f : GroupRow → GroupRow) g t :
  group_row t g = None →
  with_groups (fmap (fun r => if (g_group_id r =? g)%Z then f r else r)) t = t.
Proof.
  intros Hnone. rewrite <- (tables_eta t) at 2. unfold with_groups. f_equal.
  apply head_None in Hnone.
  rewrite <- (list_fmap_id (groups t)) at 2. apply list_fmap_ext.
  intros _ r Hr%list_elem_of_lookup_2.
  destruct (Z.eqb_spec (g_group_id r) g) as [Hid|]; [|done].
  assert (r ∈ filter (fun r => g_group_id r = g) (groups t)) as Hf
    by (by apply list_elem_of_filter).
  rewrite Hnone in Hf. by apply elem_of_nil in Hf.
Qed.

Lemma unique_groups_update (f : GroupRow → GroupRow) g t :
  (∀ r, g_group_id (f r) = g_group_id r) →
  unique_groups t →
  unique_groups
    (with_groups (fmap (fun r => if (g_group_id r =? g)%Z then f r else r)) t).
Proof.
  intros Hf Hu. unfold unique_groups in *. simpl.
  apply NoDup_fmap_update; [|done]. intros r.
  destruct (_ =? _)%Z; [|done]. by rewrite Hf.
Qed.

End GroupFacts.

(** ** The command handlers *)

Module CommandFacts.
Import Js Sql Database Bot Commands Statements Invariants.
Import KnowledgeFacts RowFacts GroupFacts RetrievalFacts BotFacts EffectsFacts.

(** The gate lets an administrator through and changes nothing. *)
Lemma admin_only_pass env chat refusal w :
  sender_is_admin env = true → admin_only env chat refusal w = (inr true, w).
Proof.
  unfold sender_is_admin, admin_only, try_catch.
  destruct (getChatMember env) as [status|]; [|done]. by intros ->.
Qed.

(** It stops everybody else, after at most the refusal. *)
Lemma admin_only_stop env chat refusal w :
  sender_is_admin env = false →
  ∃ o, admin_only env chat refusal w = (inr false, with_outbox o w) ∧
       (o = outbox w ∨
        o = outbox w ++ [SendMessage (IdNum chat) (Text refusal) None]).
Proof.
  unfold sender_is_admin, admin_only, try_catch, sendMessage, emit, throw,
    mbind, M_bind, bind, mret, M_ret, ret.
  destruct (getChatMember env) as [status|].
  - intros ->. simpl. eexists. split; [reflexivity|]. by right.
  - intros _. exists (outbox w). split; [|by left]. by destruct w.
Qed.

Ltac run_command :=
  unfold sendMessage, emit, mbind, M_bind, bind, mret, M_ret, ret.

Ltac stopped_at_gate Hadmin :=
  run_command;
  match goal with
  | |- context [admin_only ?env ?chat ?refusal ?w] =>
      destruct (admin_only_stop env chat refusal w Hadmin) as (o & -> & _)
  end;
  done.

Lemma handleTrain_denied env msg input w :
  sender_is_admin env = false →
  tables (handleTrain env msg input w).2 = tables w ∧
  db_faults (handleTrain env msg input w).2 = db_faults w.
Proof. intros Hadmin. unfold handleTrain. stopped_at_gate Hadmin. Qed.

Lemma handleForget_denied env msg keyword w :
  sender_is_admin env = false →
  tables (handleForget env msg keyword w).2 = tables w ∧
  db_faults (handleForget env msg keyword w).2 = db_faults w.
Proof. intros Hadmin. unfold handleForget. stopped_at_gate Hadmin. Qed.

Lemma handlePause_denied env msg w :
  sender_is_admin env = false →
  tables (handlePause env msg w).2 = tables w ∧
  db_faults (handlePause env msg w).2 = db_faults w.
Proof. intros Hadmin. unfold handlePause. stopped_at_gate Hadmin. Qed.

Lemma handleResume_denied env msg w :
  sender_is_admin env = false →
  tables (handleResume env msg w).2 = tables w ∧
  db_faults (handleResume env msg w).2 = db_faults w.
Proof. intros Hadmin. unfold handleResume. stopped_at_gate Hadmin. Qed.

Lemma handleQuickSetup_denied env msg input w :
  sender_is_admin env = false →
  tables (handleQuickSetup env msg input w).2 = tables w ∧
  db_faults (handleQuickSetup env msg input w).2 = db_faults w.
Proof.
  intros Hadmin. unfold handleQuickSetup.
  destruct (String.eqb _ _); [done|]. stopped_at_gate Hadmin.
Qed.

(** The handlers past the gate. *)
Lemma handleTrain_admin env msg input w :
  sender_is_admin env = true →
  handleTrain env msg input w
  = match split "|" input with
    | [question; answer] =>
        let w1 := (addLearnedResponse (chat_id msg) (trim question)
                                      (trim answer) "manual" w).2 in
        (inr tt,
         with_outbox
           (outbox w1 ++
            [SendMessage (IdNum (chat_id msg))
               (Text ("✅ Learned! I'll respond to: " +:+ AIHelpers.dq
                      +:+ trim question +:+ AIHelpers.dq)) None]) w1)
    | _ =>
        (inr tt,
         with_outbox
           (outbox w ++
            [SendMessage (IdNum (chat_id msg))
               (Text "❌ Invalid format. Use: `/train question|answer`") None])
           w)
    end.
Proof.
  intros Hadmin. unfold handleTrain. run_command.
  rewrite admin_only_pass by done. simpl.
  destruct (split "|" input) as [|question [|answer [|]]]; try done.
  destruct (quiet_safe_run
              (addLearnedResponse (chat_id msg) (trim question) (trim answer)
                                  "manual") w) as ([] & t & f & ->);
    [apply addLearnedResponse_quiet | apply addLearnedResponse_safe|].
  done.
Qed.

Lemma handlePause_admin env msg w :
  sender_is_admin env = true → db_faults w = [] →
  handlePause env msg w
  = (inr tt,
     with_outbox
       (outbox w ++
        [SendMessage (IdNum (chat_id msg))
           (Text "⏸️ Bot paused. Use /resume to continue.") None])
       (togglePause (chat_id msg) true w).2).
Proof.
  intros Hadmin Hup. unfold handlePause. run_command.
  rewrite admin_only_pass by done. simpl.
  by rewrite togglePause_up.
Qed.

Lemma handleResume_admin env msg w :
  sender_is_admin env = true → db_faults w = [] →
  handleResume env msg w
  = (inr tt,
     with_outbox
       (outbox w ++
        [SendMessage (IdNum (chat_id msg)) (Text "▶️ Bot resumed!") None])
       (togglePause (chat_id msg) false w).2).
Proof.
  intros Hadmin Hup. unfold handleResume. run_command.
  rewrite admin_only_pass by done. simpl.
  by rewrite togglePause_up.
Qed.

Lemma handleQuickSetup_malformed env msg input w :
  String.eqb (chat_type msg) "private" = false →
  sender_is_admin env = true →
  length (split "|" input) ≠ 4 →
  handleQuickSetup env msg input w
  = (inr tt,
     with_outbox
       (outbox w ++
        [SendMessage (IdNum (chat_id msg)) (Text quicksetup_hint) None]) w).
Proof.
  intros Hgroup Hadmin Hparts. unfold handleQuickSetup. rewrite Hgroup.
  run_command. rewrite admin_only_pass by done. cbn [negb].
  assert (length (trim <$> split "|" input) ≠ 4) as Hlen
    by (by rewrite length_fmap).
  by destruct (trim <$> split "|" input) as [|p [|t [|r [|g [|]]]]].
Qed.

Lemma handleQuickSetup_admin env msg input w :
  String.eqb (chat_type msg) "private" = false →
  sender_is_admin env = true → db_faults w = [] →
  handleQuickSetup env msg input w
  = match trim <$> split "|" input with
    | [purpose; tone; rulesStr; triggersStr] =>
        let w1 := (updateGroupConfig (Some (chat_id msg))
                     (mkSetupData (Some purpose) (Some tone)
                        (Some (parse_rules rulesStr))
                        (Some (parse_triggers triggersStr))) w).2 in
        (inr tt,
         with_outbox
           (outbox w ++
            [SendMessage (IdNum (chat_id msg))
               (Text (quicksetup_summary purpose tone (parse_rules rulesStr)
                        (parse_triggers triggersStr))) None]) w1)
    | _ =>
        (inr tt,
         with_outbox
           (outbox w ++
            [SendMessage (IdNum (chat_id msg)) (Text quicksetup_hint) None]) w)
    end.
Proof.
  intros Hgroup Hadmin Hup. unfold handleQuickSetup. rewrite Hgroup.
  run_command. rewrite admin_only_pass by done. simpl.
  destruct (trim <$> split "|" input) as [|p [|t [|r [|g [|]]]]]; try done.
  fold (parse_rules r) (parse_triggers g).
  by rewrite updateGroupConfig_up.
Qed.

(** [handleGroupMessage] from what [getGroup] answers. *)
Lemma handleGroupMessage_unready env msg w :
  match (getGroup (chat_id msg) w).1 with
  | inr (Some group) => g_setup_complete group = false ∨ g_paused group = true
  | _ => True
  end →
  handleGroupMessage env msg w = (inr tt, (getGroup (chat_id msg) w).2).
Proof.
  unfold handleGroupMessage, mbind, M_bind, bind, mret, M_ret, ret.
  destruct (getGroup_safe (chat_id msg) w) as [group Hgroup].
  destruct (getGroup (chat_id msg) w) as [res w0]. simpl in *. subst res.
  destruct group as [group|]; [|done].
  intros [->| ->]; [done|]. by destruct (g_setup_complete group).
Qed.

Lemma getGroup_frame g w :
  tables (getGroup g w).2 = tables w ∧ outbox (getGroup g w).2 = outbox w.
Proof.
  destruct w as [t fs c ss now ob]. unfold getGroup. run_db.
  by destruct fs as [|[] rest].
Qed.

Lemma storeMessage_up g u c m w :
  db_faults w = [] →
  ∃ t, storeMessage g u c m w = (inr tt, with_tables t w) ∧
       learned_responses t = learned_responses (tables w) ∧
       learned_seq t = learned_seq (tables w) ∧
       groups t = groups (tables w).
Proof.
  destruct w as [t fs ch ss now ob]. simpl. intros ->.
  unfold storeMessage. run_db. eexists. split; [reflexivity|]. done.
Qed.

(** A ready group, the driver up, a message that passes the triggers and
    is no reply: the handler stores the message, shows the typing
    indicator and runs the reply stage. *)
Lemma handleGroupMessage_ready env msg group w :
  db_faults w = [] →
  group_row (tables w) (chat_id msg) = Some group →
  g_setup_complete group = true → g_paused group = false →
  shouldRespond env msg group = true → reply_to_message msg = None →
  ∃ t, learned_responses t = learned_responses (tables w) ∧
       handleGroupMessage env msg w
       = replyToGroupMessage env msg group
           (with_outbox (outbox w ++ [SendChatAction (chat_id msg) "typing"])
                        (with_tables t w)).
Proof.
  intros Hup Hrow Hsetup Hpaused Hrespond Hreply.
  unfold handleGroupMessage, mbind, M_bind, bind, mret, M_ret, ret.
  rewrite getGroup_up, Hrow, Hsetup, Hpaused by done. simpl.
  destruct (storeMessage_up (chat_id msg) (from_id msg) (text msg)
              (message_id msg) w Hup) as (t & -> & Hlearned & _).
  exists t. split; [done|].
  rewrite Hrespond. simpl. unfold emit, try_catch. simpl.
  rewrite Hreply.
  destruct (getChatMember env) as [status|]; [|done].
  by destruct (is_admin_status status).
Qed.

(** With the driver up and one row per key, a trusted row for the
    question is the one retrieval answers. *)
Lemma trusted_row_is_found g q w r :
  db_faults w = [] →
  NoDup (question_key <$> learned_responses (tables w)) →
  r ∈ learned_responses (tables w) → exact_match g q r = true →
  findLearnedResponse g q w = (inr (Some r), w).
Proof.
  destruct w as [t fs c ss now ob]. simpl. intros -> Hkeys Hin Hexact.
  unfold findLearnedResponse. run_db.
  by rewrite (exact_found g q _ r Hkeys Hin Hexact).
Qed.

End CommandFacts.

(** ** What every handler keeps *)

Module ConsistencyFacts.
Import Js Sql AIService Database Bot Commands Statements Invariants Run.
Import EffectsFacts ClientFacts KnowledgeFacts ConfidenceFacts StatsFacts.

Lemma keeps_ret {A} (a : A) : keeps (mret a).
Proof. by intros c w. Qed.

Lemma keeps_throw {A} e : keeps (@throw A e).
Proof. by intros c w. Qed.

Lemma keeps_emit e : keeps (emit e).
Proof. by intros c w. Qed.

Lemma keeps_current_timestamp : keeps current_timestamp.
Proof. by intros c w. Qed.

Lemma keeps_bind {A B} (m : M A) (k : A → M B) :
  keeps m → (∀ a, keeps (k a)) → keeps (m ≫= k).
Proof.
  intros Hm Hk c w Hw. unfold mbind, M_bind, bind.
  specialize (Hm c w Hw). destruct (m w) as [[e|a] w']; [done|].
  by apply Hk.
Qed.

Lemma keeps_try_catch {A} (m : M A) (h : Exn → M A) :
  keeps m → (∀ e, keeps (h e)) → keeps (try_catch m h).
Proof.
  intros Hm Hh c w Hw. unfold try_catch.
  specialize (Hm c w Hw). destruct (m w) as [[e|a] w']; [|done].
  by apply Hh.
Qed.

(** A statement that keeps the three properties of the tables. *)
Lemma keeps_driver {A} (stmt : Tables → A * Tables) :
  (∀ t, well_kept t → confidences_bounded t → unrated t →
        well_kept (stmt t).2 ∧ confidences_bounded (stmt t).2 ∧
        unrated (stmt t).2) →
  keeps (driver stmt).
Proof.
  intros Hstmt c [t fs ch ss now ob] (Hwk & Hcb & Hur & Hc). simpl in *.
  specialize (Hstmt t Hwk Hcb Hur). unfold driver, consistent.
  cbn [db_faults tables].
  destruct (stmt t) as [a t']. simpl in Hstmt.
  destruct Hstmt as (? & ? & ?).
  by destruct fs as [|[] rest].
Qed.

Ltac keeps_step :=
  first
    [ apply keeps_try_catch; [|intros ?]
    | apply keeps_bind; [|intros ?]
    | apply keeps_current_timestamp
    | apply keeps_emit
    | apply keeps_ret
    | apply keeps_throw
    | match goal with
      | |- keeps (match ?x with _ => _ end) => destruct x
      end ].

(** Statements on the other tables. *)
Ltac keeps_db :=
  repeat first
    [ keeps_step
    | apply keeps_driver; intros t Hwk Hcb Hur; by split_and! ].

Lemma keeps_getGroup g : keeps (getGroup g).
Proof. unfold getGroup. keeps_db. Qed.

Lemma keeps_storeMessage g u c m : keeps (storeMessage g u c m).
Proof. unfold storeMessage. keeps_db. Qed.

Lemma keeps_getRecentMessages g n : keeps (getRecentMessages g n).
Proof. unfold getRecentMessages. keeps_db. Qed.

Lemma keeps_togglePause g p : keeps (togglePause g p).
Proof. unfold togglePause. keeps_db. Qed.

Lemma keeps_updateGroupConfig g config : keeps (updateGroupConfig g config).
Proof. unfold updateGroupConfig. keeps_db. Qed.

Lemma keeps_findLearnedResponse g q : keeps (findLearnedResponse g q).
Proof. unfold findLearnedResponse. keeps_db. Qed.

Lemma keeps_storeInteraction g q a s i j : keeps (storeInteraction g q a s i j).
Proof.
  unfold storeInteraction. repeat keeps_step.
  apply keeps_driver. intros t Hwk Hcb Hur. split_and!; try done.
  apply Forall_app. split; [done|]. by apply Forall_singleton.
Qed.

(** The operations on the knowledge store. *)
Lemma keeps_learned {A} (m : M A) :
  quiet m →
  (∀ w, well_kept (tables w) → well_kept (tables (m w).2)) →
  (∀ w, confidences_bounded (tables w) → confidences_bounded (tables (m w).2)) →
  (∀ w, interactions (tables (m w).2) = interactions (tables w)) →
  keeps m.
Proof.
  intros Hq Hwk Hcb Hin c w (Hw1 & Hw2 & Hw3 & Hw4).
  split_and!; [by apply Hwk | by apply Hcb | |].
  - unfold unrated. by rewrite Hin.
  - destruct (Hq w) as (r & t & f & ->). done.
Qed.

Lemma addLearnedResponse_interactions g q a s w :
  interactions (tables (addLearnedResponse g q a s w).2) = interactions (tables w).
Proof.
  destruct (addLearnedResponse_tables g q a s w)
    as [->|[(r0 & _ & ->)|[_ ->]]]; done.
Qed.

Lemma keeps_addLearnedResponse g q a s : keeps (addLearnedResponse g q a s).
Proof.
  apply keeps_learned.
  - apply addLearnedResponse_quiet.
  - apply addLearnedResponse_well_kept.
  - apply addLearnedResponse_bounded.
  - apply addLearnedResponse_interactions.
Qed.

Ltac learned_frame :=
  intros [t fs c ss now ob]; run_db; by destruct fs as [|[] rest].

Lemma keeps_forgetLearnedData g k : keeps (forgetLearnedData g k).
Proof.
  apply keeps_learned.
  - unfold forgetLearnedData. quiet_tac.
  - apply forgetLearnedData_well_kept.
  - apply forgetLearnedData_bounded.
  - unfold forgetLearnedData. learned_frame.
Qed.

Lemma keeps_updateResponseConfidence i good :
  keeps (updateResponseConfidence i good).
Proof.
  apply keeps_learned.
  - unfold updateResponseConfidence. quiet_tac.
  - apply updateResponseConfidence_well_kept.
  - apply updateResponseConfidence_bounded.
  - unfold updateResponseConfidence. learned_frame.
Qed.

Lemma keeps_updateResponseConfidence_text env id good :
  keeps (updateResponseConfidence_text env id good).
Proof.
  apply keeps_learned.
  - unfold updateResponseConfidence_text. quiet_tac.
  - apply updateResponseConfidence_text_well_kept.
  - apply updateResponseConfidence_text_bounded.
  - unfold updateResponseConfidence_text. learned_frame.
Qed.

Lemma keeps_incrementResponseUsage i : keeps (incrementResponseUsage i).
Proof.
  apply keeps_learned.
  - apply incrementResponseUsage_quiet.
  - apply incrementResponseUsage_well_kept.
  - apply incrementResponseUsage_bounded.
  - unfold incrementResponseUsage. learned_frame.
Qed.

(** The completion client, asked without a group. *)
Lemma keeps_getResponse env q ctx : keeps (getResponse env q ctx None).
Proof. intros c w Hw. by rewrite getResponse_no_group. Qed.

Ltac keeps_op :=
  first
    [ apply keeps_getGroup
    | apply keeps_storeMessage
    | apply keeps_getRecentMessages
    | apply keeps_togglePause
    | apply keeps_updateGroupConfig
    | apply keeps_findLearnedResponse
    | apply keeps_storeInteraction
    | apply keeps_addLearnedResponse
    | apply keeps_forgetLearnedData
    | apply keeps_updateResponseConfidence
    | apply keeps_updateResponseConfidence_text
    | apply keeps_incrementResponseUsage
    | apply keeps_getResponse ].

Ltac keeps_tac := repeat first [ keeps_op | keeps_step ].

Lemma keeps_generateAIResponse env msg group :
  keeps (generateAIResponse env msg group).
Proof. unfold generateAIResponse, sendMessage, addFeedbackButtons. keeps_tac. Qed.

Lemma keeps_replyToGroupMessage env msg group :
  keeps (replyToGroupMessage env msg group).
Proof.
  unfold replyToGroupMessage, sendMessage, addFeedbackButtons.
  repeat first [ apply keeps_generateAIResponse | keeps_op | keeps_step ].
Qed.

Lemma keeps_handleGroupMessage env msg : keeps (handleGroupMessage env msg).
Proof.
  unfold handleGroupMessage, learnFromAdmin.
  repeat first [ apply keeps_replyToGroupMessage | keeps_op | keeps_step ].
Qed.

Lemma keeps_handleMessage env msg : keeps (handleMessage env msg).
Proof.
  unfold handleMessage.
  repeat first [ apply keeps_handleGroupMessage | keeps_step ].
Qed.

Lemma keeps_handleCallbackQuery env query :
  keeps (Bot.handleCallbackQuery env query).
Proof. unfold Bot.handleCallbackQuery, Bot.handleFeedback. keeps_tac. Qed.

Lemma keeps_admin_only env chat refusal : keeps (admin_only env chat refusal).
Proof. unfold admin_only, sendMessage. keeps_tac. Qed.

Ltac keeps_command :=
  unfold sendMessage; cbv zeta;
  repeat first [ apply keeps_admin_only | keeps_op | keeps_step ].

Lemma keeps_handleTrain env msg input : keeps (handleTrain env msg input).
Proof. unfold handleTrain. keeps_command. Qed.

Lemma keeps_handleForget env msg keyword : keeps (handleForget env msg keyword).
Proof. unfold handleForget. keeps_command. Qed.

Lemma keeps_handlePause env msg : keeps (handlePause env msg).
Proof. unfold handlePause. keeps_command. Qed.

Lemma keeps_handleResume env msg : keeps (handleResume env msg).
Proof. unfold handleResume. keeps_command. Qed.

Lemma keeps_handleQuickSetup env msg input :
  keeps (handleQuickSetup env msg input).
Proof. unfold handleQuickSetup. keeps_command. Qed.

Lemma consistent_clock c now w : consistent c (with_clock now w) ↔ consistent c w.
Proof. done. Qed.

Lemma run_event_consistent c now ev w :
  consistent c w → consistent c (run_event now ev w).
Proof.
  intros Hw. apply (consistent_clock c now) in Hw.
  unfold run_event. destruct ev.
  - by apply keeps_handleMessage.
  - by apply keeps_handleTrain.
  - by apply keeps_handleForget.
  - by apply keeps_handlePause.
  - by apply keeps_handleResume.
  - by apply keeps_handleQuickSetup.
  - by apply keeps_handleCallbackQuery.
Qed.

Lemma run_events_consistent c evs : ∀ w,
  consistent c w → consistent c (run_events evs w).
Proof.
  induction evs as [|[now ev] evs IH]; intros w Hw; [done|].
  apply IH. by apply run_event_consistent.
Qed.

Lemma unrated_accuracy g w :
  unrated (tables w) →
  ∃ stats, (getGroupStats g w).1 = inr stats ∧ accuracy stats = Some 0%Z.
Proof.
  intros Hur. destruct (getGroupStats_run g w) as [_ ->].
  eexists. split; [reflexivity|].
  destruct (faulted 7 (db_faults w)); [done|].
  apply computed_stats_no_feedback. unfold feedback_bearing.
  unfold unrated in Hur. rewrite Forall_forall in Hur.
  induction (interactions (tables w)) as [|r rows IH]; [done|].
  rewrite filter_cons_False.
  - apply IH. intros x Hx. apply Hur. by right.
  - intros [_ Hfb]. apply Hfb, Hur. by left.
Qed.

End ConsistencyFacts.

(** ** The steps of the dialogue *)

Module DialogueFacts.
Import Js Sql Database Statements Invariants.
Import KnowledgeFacts RowFacts GroupFacts SetupFacts BotInteractive.

(** The four steps of the dialogue, on a session under the numeric key. *)
Lemma step_purpose env msg w gid data :
  setupStates w !! IdNum (from_id msg) = Some (mkSetupState "purpose" gid data) →
  handleSetupFlow env msg w
  = (inr tt,
     with_outbox
       (outbox w ++ [SendMessage (IdNum (from_id msg)) (Canned AskTone) None])
       (with_setupStates
          (<[IdNum (from_id msg) :=
               mkSetupState "tone" gid
                 (mkSetupData (Some (text msg)) (sd_tone data) (sd_rules data)
                              (sd_triggers data))]> (setupStates w)) w)).
Proof. intros Hstate. run_setup. by rewrite Hstate. Qed.

Lemma step_tone env msg w gid data :
  setupStates w !! IdNum (from_id msg) = Some (mkSetupState "tone" gid data) →
  handleSetupFlow env msg w
  = (inr tt,
     with_outbox
       (outbox w ++ [SendMessage (IdNum (from_id msg)) (Canned AskRules) None])
       (with_setupStates
          (<[IdNum (from_id msg) :=
               mkSetupState "rules" gid
                 (mkSetupData (sd_purpose data) (Some (text msg)) (sd_rules data)
                              (sd_triggers data))]> (setupStates w)) w)).
Proof. intros Hstate. run_setup. by rewrite Hstate. Qed.

Lemma step_rules env msg w gid data :
  setupStates w !! IdNum (from_id msg) = Some (mkSetupState "rules" gid data) →
  handleSetupFlow env msg w
  = (inr tt,
     with_outbox
       (outbox w ++ [SendMessage (IdNum (from_id msg)) (Canned AskTriggers) None])
       (with_setupStates
          (<[IdNum (from_id msg) :=
               mkSetupState "triggers" gid
                 (mkSetupData (sd_purpose data) (sd_tone data)
                              (Some (parse_rules (text msg)))
                              (sd_triggers data))]> (setupStates w)) w)).
Proof.
  intros Hstate. run_setup. rewrite Hstate. simpl. unfold parse_rules.
  by destruct (String.eqb _ _).
Qed.

Lemma step_triggers env msg w gid data rules :
  db_faults w = [] →
  setupStates w !! IdNum (from_id msg) = Some (mkSetupState "triggers" (Some gid) data) →
  sd_rules data = Some rules →
  handleSetupFlow env msg w
  = (inr tt,
     let config :=
       mkSetupData (sd_purpose data) (sd_tone data) (sd_rules data)
                   (Some (parse_triggers (text msg))) in
     with_outbox
       (outbox w ++
        [SendMessage (IdNum (from_id msg)) (Canned (SetupSummary config)) None])
       (with_setupStates (delete (IdNum (from_id msg)) (setupStates w))
          (updateGroupConfig (Some gid) config w).2)).
Proof.
  intros Hup Hstate Hrules. destruct w as [t fs ch ss now ob]. simpl in *.
  subst fs. run_setup. rewrite Hstate. simpl.
  fold (parse_triggers (text msg)).
  unfold updateGroupConfig. run_db. rewrite Hrules. simpl.
  unfold with_outbox, with_setupStates. simpl.
  by rewrite delete_insert_eq.
Qed.

End DialogueFacts.

(** ** Export *)

Module MaintenanceFacts.
Import Js Sql Database Maintenance Statements Invariants.
Import KnowledgeFacts RowFacts GroupFacts StatsFacts EffectsFacts.

(** The object of the [try] block of [exportGroupData]. *)
Lemma exportGroupData_run g w :
  tables (exportGroupData g w).2 = tables w ∧
  outbox (exportGroupData g w).2 = outbox w ∧
  match db_faults w with
  | _ :: true :: _ => (exportGroupData g w).1 = inr None
  | _ =>
      ∃ group stats,
        (exportGroupData g w).1
        = inr (Some (mkExport group
                       (filter (fun r => lr_group_id r = g)
                               (learned_responses (tables w)))
                       stats (clock w)))
  end.
Proof.
  destruct w as [t fs c ss now ob].
  unfold exportGroupData, getGroup, date_now,
    try_catch, mbind, M_bind, bind, driver, mret, M_ret, ret.
  cbn [db_faults tables with_tables with_db_faults fst snd].
  destruct fs as [|b1 [|b2 fs]]; [|destruct b1|destruct b1, b2]; cbn;
    try done;
    match goal with
    | |- context [getGroupStats g ?x] =>
        pose proof (getGroupStats_run g x) as [Ht _];
        destruct (quiet_safe_run (getGroupStats g) x) as (a & t1 & f1 & Hrun);
          [apply getGroupStats_quiet | apply getGroupStats_safe|];
        rewrite Hrun in Ht |- *; simpl in Ht; subst t1
    end;
    (split_and!; try done; by eexists _, _).
Qed.

End MaintenanceFacts.

(* ===================================================================== *)
(** * Part IV. The properties of the specification *)
(* ===================================================================== *)

Import Js Similarity AIService Database Sql Bot.
Import Statements Scenario.
Import SimilarityFacts EffectsFacts ClientFacts BotFacts CacheBlindFacts
       RouteFacts KnowledgeFacts SetupFacts StatsFacts CacheFacts.

(** C1.  A group message is answered only after it passes the trigger
    evaluation, and then by the reply stage.  Whatever retrieval returns
    there, the stage sends the entry's answer when its confidence is above
    0.7, and nothing else then; for an entry at or below 0.7 the stage is
    exactly [generateAIResponse], whose messages carry the completion
    client's text. *)
Theorem reply_sends_only_trusted_answers env msg :
  (∀ w,
     (∃ w0, handleGroupMessage env msg w = (inr tt, w0) ∧ outbox w0 = outbox w) ∨
     (∃ group w0,
        shouldRespond env msg group = true ∧
        outbox w0 = outbox w ++ [SendChatAction (chat_id msg) "typing"] ∧
        handleGroupMessage env msg w = replyToGroupMessage env msg group w0)) ∧
  (∀ group w,
     ∃ lr w1,
       Database.findLearnedResponse (chat_id msg) (text msg) w = (inr lr, w1) ∧
       (∀ r, lr = Some r → (7 # 10 < lr_confidence r)%Q →
          ∃ w2,
            replyToGroupMessage env msg group w = (inr tt, w2) ∧
            outbox w2 =
              outbox w ++
              [SendMessage (IdNum (chat_id msg)) (Text (lr_answer r))
                           (Some (message_id msg));
               EditReplyMarkup (chat_id msg) (sent_message_id env)
                 (if truthy_num (lr_id r) then lr_id r
                  else sent_message_id env)]) ∧
       (∀ r, lr = Some r → (lr_confidence r <= 7 # 10)%Q →
          ∃ w2,
            replyToGroupMessage env msg group w = (inr tt, w2) ∧
            replyToGroupMessage env msg group w
              = generateAIResponse env msg group w1 ∧
            outbox w2 = outbox w ++ completion_events env msg group)).
Proof.
  split; [intros w; apply handleGroupMessage_route|].
  intros group w.
  destruct (findLearnedResponse_run (chat_id msg) (text msg) w)
    as (lr & t & f & Hfind).
  eexists lr, _. split; [exact Hfind|]. split.
  - intros r -> Hconf.
    destruct (reply_trusted env msg group w r _ Hfind Hconf) as (t' & f' & ->).
    by eexists.
  - intros r -> Hconf.
    assert (Hroute := reply_untrusted env msg group w (Some r) _ Hfind).
    rewrite Hroute by (by intros ? [= <-]).
    match goal with
    | |- context [generateAIResponse env msg group ?w1] =>
        destruct (generateAIResponse_run env msg group w1) as (t' & f' & ->)
    end.
    by eexists.
Qed.

Lemma reply_sends_only_trusted_answers_witness :
  ∃ r w1 w2,
    Database.findLearnedResponse 1 "Hi?" voted_down = (inr (Some r), w1) ∧
    (lr_confidence r <= 7 # 10)%Q ∧
    replyToGroupMessage (answering Rejected) (says "Hi?") gaming voted_down
      = (inr tt, w2) ∧
    outbox w2 = completion_events (answering Rejected) (says "Hi?") gaming.
Proof.
  destruct (reply_sends_only_trusted_answers (answering Rejected) (says "Hi?"))
    as [_ Hstage].
  destruct (Hstage gaming voted_down) as (lr & w1 & Hfind & _ & Hlow).
  vm_compute in Hfind.
  injection Hfind as <- <-.
  edestruct Hlow as (w2 & Hrun & _ & Hout); [reflexivity | | ].
  { vm_compute. discriminate. }
  eexists _, _, w2. split; [vm_compute; reflexivity|].
  split; [vm_compute; discriminate|]. split; [exact Hrun | exact Hout].
Defined.

(** C2.  In a group whose triggers are the "all" sentinel, a message with
    no mention, no reply and no question mark is answered all the same
    when its text contains the letters "all": the sentinel is then
    matched as a keyword. *)
Theorem all_sentinel_matches_as_keyword :
  g_triggers gaming = Some ["all"] ∧
  includes (text (says "Hello all")) "@manager_bot" = false ∧
  reply_to_message (says "Hello all") = None ∧
  includes (toLowerCase (text (says "Hello all"))) "?" = false ∧
  shouldRespond (answering Rejected) (says "Hello all") gaming = true.
Proof. repeat split. Qed.

(** What [shouldRespond] computes for such a group. *)
Lemma shouldRespond_all_sentinel env msg group username :
  getMe env = Some username →
  includes (text msg) ("@" +:+ username) = false →
  reply_to_message msg = None →
  g_triggers group = Some ["all"] →
  shouldRespond env msg group
  = includes (toLowerCase (text msg)) "?"
    || includes (toLowerCase (text msg)) "all".
Proof.
  intros Hme Hmention Hreply Htrig.
  unfold shouldRespond. rewrite Hme, Hmention, Hreply, Htrig. simpl.
  destruct (includes (toLowerCase (text msg)) "?"); [done|].
  simpl. by rewrite orb_false_r.
Qed.

(** The interactive listing answers every message of such a group. *)
Example interactive_all_sentinel :
  BotInteractive.shouldRespond (answering Rejected) (says "Good morning") gaming
  = inr true.
Proof. reflexivity. Qed.

(** C3 as stated fails: with a fresh, identical question in the group's
    cache the handler still calls the endpoint and sends its answer, not
    the cached one. *)
Lemma cache_hit_is_ignored :
  let after :=
    (handleGroupMessage (replying "fresh answer") (says "What time is it?")
                        cached_world).2 in
  (getCachedResponse 1 "What time is it?" cached_world).1
    = inr (Some "cached answer") ∧
  outbox after
  = [SendChatAction 1 "typing";
     HttpGet (enhancedQuery "What time is it?" (systemContext gaming));
     SendMessage (IdNum 1%Z) (Text "fresh answer") (Some 55%Z);
     EditReplyMarkup 1 900 900] ∧
  SendMessage (IdNum 1%Z) (Text "cached answer") (Some 55%Z) ∉ outbox after.
Proof.
  intros after.
  assert (Hout : outbox after
                 = [SendChatAction 1 "typing";
                    HttpGet (enhancedQuery "What time is it?"
                                           (systemContext gaming));
                    SendMessage (IdNum 1%Z) (Text "fresh answer") (Some 55%Z);
                    EditReplyMarkup 1 900 900])
    by (vm_compute; reflexivity).
  split; [vm_compute; reflexivity|]. split; [exact Hout|].
  rewrite Hout. intros Hin.
  repeat (apply elem_of_cons in Hin as [Hin|Hin]; [discriminate Hin|]).
  by apply elem_of_nil in Hin.
Qed.

(** C3, amended.  The handler is blind to the response cache: with any
    other cache it does the same and leaves that cache as it is; and when
    retrieval yields no trusted entry, the reply stage calls the
    completion endpoint directly. *)
Theorem completion_pipeline_bypasses_cache env msg :
  (∀ c w,
     handleGroupMessage env msg (with_cache c w)
     = ((handleGroupMessage env msg w).1,
        with_cache c (handleGroupMessage env msg w).2)) ∧
  (∀ group w lr w1,
     Database.findLearnedResponse (chat_id msg) (text msg) w = (inr lr, w1) →
     (∀ r, lr = Some r → (lr_confidence r <= 7 # 10)%Q) →
     ∃ w2,
       replyToGroupMessage env msg group w = (inr tt, w2) ∧
       outbox w2 = outbox w ++ completion_events env msg group ∧
       conversationCache w2 = conversationCache w).
Proof.
  split; [apply blind_handleGroupMessage|].
  intros group w lr w1 Hfind Hlow.
  rewrite (reply_untrusted env msg group w lr w1 Hfind Hlow).
  destruct (findLearnedResponse_run (chat_id msg) (text msg) w)
    as (lr' & t & f & Hfind').
  rewrite Hfind in Hfind'. injection Hfind' as _ ->.
  match goal with
  | |- context [generateAIResponse env msg group ?w1] =>
      destruct (generateAIResponse_run env msg group w1) as (t' & f' & ->)
  end.
  by eexists.
Qed.

Lemma completion_pipeline_bypasses_cache_witness :
  ∃ w2,
    replyToGroupMessage (answering Rejected) (says "What time is it?")
                        gaming cached_world = (inr tt, w2) ∧
    outbox w2 = completion_events (answering Rejected)
                                  (says "What time is it?") gaming ∧
    conversationCache w2 = conversationCache cached_world.
Proof.
  destruct (completion_pipeline_bypasses_cache
              (answering Rejected) (says "What time is it?")) as [_ Hreply].
  apply (Hreply gaming cached_world None cached_world).
  - vm_compute. reflexivity.
  - intros r [=].
Defined.

(** C4.  The entry found is the first similar one, whatever its age: an
    expired entry in front hides a fresh one behind it, and the look-up
    returns nothing where the specified one returns the fresh answer. *)
Theorem expired_entry_hides_fresh_one :
  conversationCache asked_twice !! 1%Z
    = Some [mkCacheItem "hello" "old answer" 0;
            mkCacheItem "hello" "new answer" 7200000] ∧
  clock asked_twice = 7200001%Z ∧
  (getCachedResponse 1 "Hello" asked_twice).1 = inr None ∧
  getCachedResponse_spec
    [mkCacheItem "hello" "old answer" 0;
     mkCacheItem "hello" "new answer" 7200000] 7200001 "Hello"
  = Some "new answer".
Proof. repeat split; vm_compute; reflexivity. Qed.

(** C5 as stated fails: a response without the expected shape yields no
    fallback message; nothing at all is sent. *)
Lemma malformed_reply_is_dropped :
  let malformed := answering (Resolved (Some (mkPayload false None))) in
  let after :=
    (generateAIResponse malformed (says "Anyone here?") gaming start).2 in
  (getResponse malformed "Anyone here?" "" None start).1 = inr None ∧
  outbox after
  = [HttpGet (enhancedQuery "Anyone here?" (systemContext gaming))] ∧
  (∀ f, f ∈ fallbacks →
        SendMessage (IdNum 1%Z) (Text f) (Some 55%Z) ∉ outbox after).
Proof.
  intros malformed after.
  assert (Hout : outbox after
                 = [HttpGet (enhancedQuery "Anyone here?" (systemContext gaming))])
    by (vm_compute; reflexivity).
  split; [vm_compute; reflexivity|]. split; [exact Hout|].
  intros f _. rewrite Hout. intros Hin.
  apply elem_of_cons in Hin as [Hin|Hin]; [discriminate Hin|].
  by apply elem_of_nil in Hin.
Qed.

(** C5, amended.  A response without the expected shape makes
    [getResponse] return null, and [generateAIResponse] then sends
    nothing; a rejected request (time-out included) is answered with one
    of the four fallback messages. *)
Theorem malformed_reply_sends_nothing env msg group w :
  (∀ data,
     http env = Resolved data → well_shaped data = false →
     (∀ query ctx groupId,
        getResponse env query ctx groupId w
        = (inr None,
           with_outbox (outbox w ++ [HttpGet (enhancedQuery query ctx)]) w)) ∧
     ∃ w',
       generateAIResponse env msg group w = (inr tt, w') ∧
       outbox w' =
         outbox w ++ [HttpGet (enhancedQuery (text msg) (systemContext group))]) ∧
  (http env = Rejected → (0 <= random env)%Q → (random env < 1)%Q →
     ∃ f w',
       f ∈ fallbacks ∧
       (∀ query ctx groupId,
          (getResponse env query ctx groupId w).1 = inr (Some f)) ∧
       generateAIResponse env msg group w = (inr tt, w') ∧
       outbox w' =
         outbox w ++
         [HttpGet (enhancedQuery (text msg) (systemContext group));
          SendMessage (IdNum (chat_id msg)) (Text f) (Some (message_id msg));
          EditReplyMarkup (chat_id msg) (sent_message_id env)
                          (sent_message_id env)]).
Proof.
  split.
  - intros data Hhttp Hshape. split.
    + intros. by eapply getResponse_malformed.
    + destruct (generateAIResponse_run env msg group w) as (t & f & ->).
      eexists. split; [done|]. simpl. unfold completion_events, client_reply.
      by rewrite Hhttp, Hshape.
  - intros Hhttp H0 H1.
    destruct (fallback_drawn env (text msg) H0 H1) as (f & Hf & Hin).
    destruct (generateAIResponse_run env msg group w) as (t & fs & ->).
    exists f. eexists. split; [done|]. split.
    + intros. rewrite getResponse_rejected by done. simpl.
      unfold getFallbackResponse in *. by rewrite Hf.
    + split; [done|]. simpl. unfold completion_events, client_reply.
      rewrite Hhttp, Hf.
      assert (truthy_str f = true) as ->; [|done].
      unfold fallbacks in Hin.
      repeat (apply elem_of_cons in Hin as [->|Hin]; [done|]).
      by apply elem_of_nil in Hin.
Qed.

Lemma malformed_reply_sends_nothing_witness :
  ∃ w',
    generateAIResponse (answering (Resolved None)) (says "Anyone here?")
                       gaming start = (inr tt, w') ∧
    outbox w' = [HttpGet (enhancedQuery "Anyone here?" (systemContext gaming))].
Proof.
  destruct (malformed_reply_sends_nothing
              (answering (Resolved None)) (says "Anyone here?") gaming start)
    as [Hmal _].
  destruct (Hmal None) as [_ Hgen]; [reflexivity | reflexivity |].
  exact Hgen.
Defined.

(** C6 as stated fails: the look-up compares the questions under
    SQLite's [LOWER], which folds the letters A-Z only.  A question taught
    in capitals and again in small letters, with a letter outside ASCII
    in it, is the same text up to case ([toLowerCase] maps both to one
    string) and yet ends up in two entries. *)
Lemma non_ascii_case_variant_is_taught_twice :
  let w := run_ops [(1000, Teach 1 cafe_capitals "Open at 9." "manual");
                    (2000, Teach 1 cafe_small "Open at 10." "manual")]%Z start in
  toLowerCase cafe_capitals = toLowerCase cafe_small ∧
  learned_responses (tables w)
  = [mkLearned 1 1 cafe_capitals "Open at 9." 1 "manual" 0 None 1;
     mkLearned 2 1 cafe_small "Open at 10." 1 "manual" 0 None 2].
Proof. split; vm_compute; reflexivity. Qed.

(** The two halves put together again are the method. *)
Lemma addLearnedResponse_halves g q a s :
  addLearnedResponse g q a s
  = try_catch (existing ← find_existing g q; write_learned g q a s existing)
              (fun _ => mret tt).
Proof. reflexivity. Qed.

(** Two teaches of one new question that overlap both insert: the table
    then has two rows under one key. *)
Example overlapping_teaches_insert_twice :
  let w := (overlapping_teaches 1 "Hi?" "Hello!" "Hey!" start).2 in
  question_key <$> learned_responses (tables w) = [(1%Z, "hi?"); (1%Z, "hi?")] ∧
  ¬ well_kept (tables w).
Proof.
  split; [vm_compute; reflexivity|].
  intros (_ & _ & Hkeys). vm_compute in Hkeys.
  apply NoDup_cons in Hkeys as [Hin _]. apply Hin. by left.
Qed.

(** C6, amended.  For operations on the knowledge store that run one at
    a time: from a well-kept table (the empty one is), every sequence of
    them leaves one row per group and question folded by [LOWER].
    Teaching a question that has a row up to the case of its ASCII
    letters keeps the number of rows, and the row of that question then
    holds the new answer, confidence 1 and the new provenance.  On text
    that is ASCII throughout, [LOWER] is the lower-casing of the text. *)
Theorem teach_keeps_one_entry_per_question :
  well_kept empty_tables ∧
  (∀ ops w, well_kept (tables w) → well_kept (tables (run_ops ops w))) ∧
  (∀ g q a s w i r0,
     well_kept (tables w) → no_fault 2 w →
     learned_responses (tables w) !! i = Some r0 →
     same_question g q r0 = true →
     let rows' := learned_responses (tables (addLearnedResponse g q a s w).2) in
     length rows' = length (learned_responses (tables w)) ∧
     rows' !! i = Some (retaught a s r0) ∧
     (∀ j r, rows' !! j = Some r → same_question g q r = true → j = i)) ∧
  (∀ g q r,
     same_question g q r = true
     ↔ lr_group_id r = g ∧ LOWER (lr_question r) = LOWER q) ∧
  (∀ q, Forall (fun c => nat_of_ascii c < 128) (units q) →
        LOWER q = toLowerCase q).
Proof.
  split; [apply well_kept_empty|]. split; [apply run_ops_well_kept|].
  split; [|split; [apply same_question_spec | apply LOWER_ascii]].
  intros g q a s w i r0 Hwk Hup Hi Hsame rows'.
  assert (Hwk' := addLearnedResponse_well_kept g q a s w Hwk).
  destruct Hwk as (Hids & _ & Hkeys).
  assert (Hrows : rows' = <[i := retaught a s r0]> (learned_responses (tables w))).
  { unfold rows'. rewrite (reteach_tables g q a s w r0 Hup)
      by (by eapply existing_found).
    simpl. by apply (update_by_id (retaught a s)). }
  assert (Hlt : i < length (learned_responses (tables w)))
    by (by eapply lookup_lt_Some).
  split; [by rewrite Hrows, length_insert|].
  split; [by rewrite Hrows, list_lookup_insert_eq|].
  intros j r Hj Hr.
  destruct Hwk' as (_ & _ & Hkeys'). fold rows' in Hkeys'.
  eapply (NoDup_lookup (question_key <$> rows')); [done| |].
  - rewrite list_lookup_fmap, Hj. done.
  - rewrite list_lookup_fmap, Hrows, list_lookup_insert_eq by done. simpl.
    f_equal. apply same_question_key in Hr, Hsame.
    rewrite Hr. unfold question_key in *. simpl. done.
Qed.

Lemma taught_and_used_well_kept : well_kept (tables taught_and_used).
Proof.
  split_and!; vm_compute.
  - apply NoDup_singleton.
  - repeat constructor. discriminate.
  - apply NoDup_singleton.
Defined.

Lemma taught_and_used_no_fault n : no_fault n taught_and_used.
Proof. intros k _. vm_compute. by destruct k. Defined.

Lemma teach_keeps_one_entry_per_question_witness :
  well_kept (tables taught_and_used) ∧
  learned_responses
    (tables (addLearnedResponse 1 "HI?" "Hey!" "admin" taught_and_used).2)
  !! 0 = Some (mkLearned 1 1 "Hi?" "Hey!" 1 "admin" 1 (Some 2%Z) 1) ∧
  length (learned_responses
    (tables (addLearnedResponse 1 "HI?" "Hey!" "admin" taught_and_used).2)) = 1.
Proof.
  destruct teach_keeps_one_entry_per_question as (_ & _ & Hteach & _).
  destruct (Hteach 1%Z "HI?" "Hey!" "admin" taught_and_used 0 first_row)
    as (Hlen & Hrow & _).
  - exact taught_and_used_well_kept.
  - apply taught_and_used_no_fault.
  - reflexivity.
  - reflexivity.
  - split; [exact taught_and_used_well_kept|]. split; [exact Hrow | exact Hlen].
Defined.

(** C9.  Teaching a question that has a row rewrites that row's answer,
    confidence and provenance and nothing else: its id, group, question,
    usage counter, last-used and creation stamps stay, and so do all
    other rows and tables. *)
Theorem reteach_changes_three_fields g q a s w i r0 :
  well_kept (tables w) → no_fault 2 w →
  learned_responses (tables w) !! i = Some r0 →
  same_question g q r0 = true →
  tables (addLearnedResponse g q a s w).2
  = with_learned
      (fun rows =>
         <[i := mkLearned (lr_id r0) (lr_group_id r0) (lr_question r0)
                          a 1 s
                          (lr_usage_count r0) (lr_last_used r0)
                          (lr_created_at r0)]> rows)
      (tables w).
Proof.
  intros (Hids & _ & Hkeys) Hup Hi Hsame.
  rewrite (reteach_tables g q a s w r0 Hup) by (by eapply existing_found).
  unfold with_learned. f_equal.
  by apply (update_by_id (retaught a s)).
Qed.

Lemma reteach_changes_three_fields_witness :
  learned_responses (tables taught_and_used) !! 0 = Some first_row ∧
  tables (addLearnedResponse 1 "HI?" "Hey!" "admin" taught_and_used).2
  = with_learned
      (fun rows =>
         <[0 := mkLearned 1 1 "Hi?" "Hey!" 1 "admin" 1 (Some 2%Z) 1]> rows)
      (tables taught_and_used).
Proof.
  split; [reflexivity|].
  apply (reteach_changes_three_fields 1%Z "HI?" "Hey!" "admin"
           taught_and_used 0 first_row).
  - exact taught_and_used_well_kept.
  - apply taught_and_used_no_fault.
  - reflexivity.
  - reflexivity.
Defined.


(** The session a button press creates is stored under the user id as a
    string, so the guard of [handleMessage], which looks the numeric id
    up, does not see it. *)
Example button_session_is_keyed_by_string :
  setupStates pressed !! IdStr "7"
    = Some (mkSetupState "purpose" (Some 1%Z) empty_data) ∧
  BotInteractive.in_setup pressed (answer "Gaming community") = false.
Proof. split; vm_compute; reflexivity. Qed.

(** Were a session to stand under the numeric id, its step advance would
    not be persisted either: the first answer moves the session on in
    memory and writes nothing to the database. *)
Example setup_step_is_not_persisted :
  let after :=
    (BotInteractive.handleSetupFlow (answering Rejected)
                                    (answer "Gaming community") in_dialogue).2 in
  setupStates after !! IdNum 7%Z
    = Some (mkSetupState "tone" (Some 1%Z)
              (mkSetupData (Some "Gaming community") None None None)) ∧
  tables after = tables in_dialogue ∧
  setup_states (tables after) = [] ∧
  (getSetupState 7 after).1 = inr None.
Proof. repeat split; vm_compute; reflexivity. Qed.

(** The other buttons of the listing do write or fail: a vote lowers the
    confidence of the entry it names and clears the buttons, and a
    [confirm_] button throws, since the class has no
    [handleAdminConfirmation]. *)
Example other_buttons_write_or_throw :
  let vote := mkCallbackQuery "q2" 7 "feedback_bad_1" 1 900 in
  let voted :=
    BotInteractive.handleCallbackQuery (answering Rejected) vote taught_and_used in
  voted.1 = inr tt ∧
  lr_confidence <$> learned_responses (tables voted.2) = [(85 # 100)%Q] ∧
  outbox voted.2 = [AnswerCallbackQuery "q2" false; ClearReplyMarkup 1 900] ∧
  (BotInteractive.handleCallbackQuery (answering Rejected)
     (mkCallbackQuery "q3" 7 "confirm_yes_5" 1 900) taught_and_used).1
  = inl TypeError.
Proof. repeat split; vm_compute; reflexivity. Qed.



(** C8.  [calculateSimilarity a b] is one minus the Levenshtein distance
    of [a] and [b] over the larger length, as exact rationals, and 1 for
    two empty strings; it is symmetric, and every string is at similarity
    1 to itself.  The distance the loops of [levenshteinDistance] compute
    is the Levenshtein distance of the two strings, which is the length
    of a shortest edit script from [a] to [b]. *)
Theorem similarity_formula_symmetric_reflexive (a b : string) :
  (calculateSimilarity a b == similarity_spec a b)%Q ∧
  calculateSimilarity "" "" = 1%Q ∧
  calculateSimilarity a b = calculateSimilarity b a ∧
  (calculateSimilarity a a == 1)%Q ∧
  levenshteinDistance a b = levenshtein (units a) (units b) ∧
  edits (levenshtein (units a) (units b)) (units a) (units b) ∧
  (∀ n, edits n (units a) (units b) → levenshtein (units a) (units b) ≤ n).
Proof.
  split; [apply calculateSimilarity_spec|].
  split; [reflexivity|].
  split; [apply calculateSimilarity_sym|].
  split; [apply calculateSimilarity_refl|].
  split; [apply levenshteinDistance_levenshtein|].
  split; [apply levenshtein_edits | intros n; apply edits_least].
Qed.

(** The textbook pair: three edits turn kitten into sitting, and the
    similarity is four sevenths. *)
Example kitten_sitting :
  levenshteinDistance "kitten" "sitting" = 3 ∧
  calculateSimilarity "kitten" "sitting" = (4 # 7)%Q.
Proof. split; vm_compute; reflexivity. Qed.

(** C10.  [getGroupStats] always returns a statistics record and leaves
    the tables alone.  With no interaction of the group carrying
    feedback the accuracy is 0 (the division is not reached); when one of
    the seven queries throws, the record is the all-zero one; when none
    throws, it is the record of the seven counts, the accuracy rounded
    from the quotient of the two counts as binary64 numbers. *)
Theorem getGroupStats_total g w :
  ∃ stats w',
    getGroupStats g w = (inr stats, w') ∧
    tables w' = tables w ∧
    (feedback_bearing g (tables w) = [] → accuracy stats = Some 0%Z) ∧
    ((∃ k, k < 7 ∧ db_faults w !! k = Some true) → stats = zero_stats) ∧
    (no_fault 7 w → stats = computed_stats g (tables w)).
Proof.
  destruct (getGroupStats_run g w) as [Htables Hrun].
  destruct (getGroupStats g w) as [res w'] eqn:Hres. simpl in *. subst res.
  eexists _, w'. split; [reflexivity|]. split; [done|].
  destruct (faulted 7 (db_faults w)) eqn:Hf.
  - split_and!; [done|done|].
    intros Hup%faulted_false. congruence.
  - split_and!; [apply computed_stats_no_feedback| |done].
    intros Hk%faulted_true. congruence.
Qed.

Lemma getGroupStats_total_witness :
  ∃ stats w',
    getGroupStats 1 answered = (inr stats, w') ∧
    botResponses stats = 1%Z ∧ accuracy stats = Some 0%Z ∧
    (getGroupStats 1 (with_db_faults [false; true] answered)).1
      = inr zero_stats.
Proof.
  destruct (getGroupStats_total 1 answered)
    as (stats & w' & Hrun & _ & Hacc & _ & Hup).
  exists stats, w'. split; [exact Hrun|]. split.
  - rewrite Hup; [reflexivity|].
    intros k _. simpl. by rewrite lookup_nil.
  - split; [apply Hacc; reflexivity|].
    destruct (getGroupStats_total 1 (with_db_faults [false; true] answered))
      as (stats2 & w2 & Hrun2 & _ & _ & Hzero & _).
    rewrite Hrun2. simpl. f_equal. apply Hzero.
    exists 1. split; [lia | reflexivity].
Defined.

(** The guard is what makes the accuracy 0 without feedback: the
    quotient of two zero counts is NaN, and [Math.round] keeps it. *)
Example unguarded_accuracy_is_NaN :
  Js.round (PrimFloat.mul (PrimFloat.div (Js.number 0) (Js.number 0))
                          (Js.number 100)) = None.
Proof. reflexivity. Qed.

(** The accuracy is rounded from the double: 23 good votes of 40 are
    57.49999999999999 per cent as a binary64 number, hence 57. *)
Example accuracy_rounds_the_double :
  (getGroupStats 1 forty_votes).1
  = inr (mkStats 0 40 0 0 (Some 57%Z) []) ∧
  length (feedback_bearing 1 (tables forty_votes)) = 40.
Proof. split; vm_compute; reflexivity. Qed.

(* ===================================================================== *)
(** * Part V. Further properties of the code *)
(* ===================================================================== *)

(** Properties read off the sources themselves: bounds and round trips of
    the similarity ratio, the cache and the tables, what retrieval and the
    commands of the /quicksetup listing do and never do, and the two ways
    of setting a group up. *)

Import AIHelpers Maintenance Commands.
Import Invariants Situations Run.
Import SimilarityBounds CacheMoreFacts HelperFacts SqlFacts ForgetFacts
       RetrievalFacts ConfidenceFacts ForgetMoreFacts RowFacts SessionFacts
       GroupFacts CommandFacts ConsistencyFacts DialogueFacts MaintenanceFacts.

(** X1.  The similarity ratio of any two strings lies between 0 and 1:
    the edit distance never exceeds the length of the longer string. *)
Theorem calculateSimilarity_between_0_and_1 (a b : string) :
  (0 <= calculateSimilarity a b <= 1)%Q.
Proof.
  unfold calculateSimilarity.
  destruct (Nat.ltb_spec (String.length b) (String.length a)) as [Hlt|Hge].
  - destruct (Nat.eqb_spec (String.length a) 0) as [H0|H0]; [lia|].
    apply ratio_bounds; [done|].
    pose proof (levenshteinDistance_le a b). lia.
  - destruct (Nat.eqb_spec (String.length b) 0) as [H0|H0]; [done|].
    apply ratio_bounds; [done|].
    pose proof (levenshteinDistance_le b a). lia.
Qed.

(** X2.  The similarity ratio is 1 for identical strings only. *)
Theorem calculateSimilarity_one_iff_equal (a b : string) :
  (calculateSimilarity a b == 1)%Q ↔ a = b.
Proof.
  split; [|intros ->; apply calculateSimilarity_refl].
  unfold calculateSimilarity.
  destruct (Nat.ltb_spec (String.length b) (String.length a)) as [Hlt|Hge].
  - destruct (Nat.eqb_spec (String.length a) 0) as [H0|H0]; [lia|].
    intros H%ratio_one; [|done]. by apply levenshteinDistance_zero.
  - destruct (Nat.eqb_spec (String.length b) 0) as [H0|H0].
    + intros _. destruct a, b; simpl in *; done || lia.
    + intros H%ratio_one; [|done]. symmetry. by apply levenshteinDistance_zero.
Qed.

(** X3.  The response cache never grows past fifty entries per group:
    what holds before a call of [getResponse] (the only writer) or of
    [clearCache] holds after it, and [getCacheSize] then answers at most
    50. *)
Theorem cache_never_exceeds_fifty env q ctx gid g w :
  cache_bounded w →
  cache_bounded (getResponse env q ctx gid w).2 ∧
  cache_bounded (clearCache g w).2 ∧
  ∃ n, (getCacheSize g (getResponse env q ctx gid w).2).1 = inr n ∧ n ≤ 50.
Proof.
  intros Hb. split_and!.
  - by apply getResponse_bounded.
  - by apply clearCache_bounded.
  - rewrite getCacheSize_run. eexists. split; [reflexivity|].
    by apply getResponse_bounded.
Qed.

Lemma cached_world_bounded : cache_bounded cached_world.
Proof.
  intros g. unfold cached_world.
  destruct (decide (g = 1%Z)) as [->|Hne].
  - rewrite cacheResponse_cache. vm_compute. lia.
  - rewrite cacheResponse_others by done.
    unfold cache_of, start. cbn [conversationCache].
    rewrite lookup_empty. cbn. lia.
Defined.

Lemma cache_never_exceeds_fifty_witness :
  ∃ n, (getCacheSize 1
          (getResponse (replying "It is noon.") "And now?" "" (Some 1%Z)
                       cached_world).2).1 = inr n ∧ n ≤ 50.
Proof.
  exact (proj2 (proj2 (cache_never_exceeds_fifty (replying "It is noon.")
                         "And now?" "" (Some 1%Z) 1%Z cached_world
                         cached_world_bounded))).
Defined.

(** X4.  A delivered answer is appended to the cache of the group it was
    asked for, under the folded query; when the cache already holds fifty
    entries the oldest one leaves.  The caches of the other groups stay as
    they are. *)
Theorem delivered_answer_is_cached_fifo env q ctx g r w :
  http env = Resolved (Some (mkPayload true (Some r))) →
  truthy_str r = true → truthy_num g = true →
  let w' := (getResponse env q ctx (Some g) w).2 in
  cache_of w' g
  = (if 50 <=? length (cache_of w g) then tail (cache_of w g) else cache_of w g)
    ++ [mkCacheItem (toLowerCase q) r (clock w)]
  ∧ ∀ g', g' ≠ g → cache_of w' g' = cache_of w g'.
Proof. intros. by apply getResponse_delivered_cache. Qed.

Lemma delivered_answer_is_cached_fifo_witness :
  cache_of (getResponse (replying "It is noon.") "And now?" "" (Some 1%Z)
                        cached_world).2 1
  = [mkCacheItem "what time is it?" "cached answer" 0;
     mkCacheItem "and now?" "It is noon." 0].
Proof.
  exact (proj1 (delivered_answer_is_cached_fifo (replying "It is noon.")
                  "And now?" "" 1%Z "It is noon." cached_world
                  eq_refl eq_refl eq_refl)).
Defined.

(** X5.  The cache look-up changes nothing, whatever it answers, and an
    answer it returns belongs to an entry of the group's cache whose
    query is more than 0.8 similar to the folded query and which is less
    than one hour old. *)
Theorem cached_answer_is_similar_and_fresh g q w :
  (getCachedResponse g q w).2 = w ∧
  ∀ a,
    (getCachedResponse g q w).1 = inr (Some a) →
    ∃ item,
      item ∈ cache_of w g ∧ ci_response item = a ∧
      (4 # 5 < calculateSimilarity (ci_query item) (toLowerCase q))%Q ∧
      (clock w - ci_timestamp item < 3600000)%Z.
Proof.
  rewrite getCachedResponse_run. cbn [fst snd].
  split; [done|]. intros a Hget.
  destruct (List.find _ _) as [item|] eqn:Hfind; [|done].
  destruct (recent (clock w) item) eqn:Hfresh; [|done].
  injection Hget as <-.
  apply find_some in Hfind as [Hin Hsim].
  exists item. split_and!.
  - by apply list_elem_of_In.
  - done.
  - by apply gt_spec.
  - by apply Z.ltb_lt.
Qed.

Lemma cached_answer_is_similar_and_fresh_witness :
  (getCachedResponse 1 "What time is it" cached_world).2 = cached_world ∧
  ∃ item,
    item ∈ cache_of cached_world 1 ∧ ci_response item = "cached answer" ∧
    (4 # 5 < calculateSimilarity (ci_query item)
                                 (toLowerCase "What time is it"))%Q ∧
    (clock cached_world - ci_timestamp item < 3600000)%Z.
Proof.
  destruct (cached_answer_is_similar_and_fresh 1 "What time is it" cached_world)
    as [Hframe Hfound].
  split; [exact Hframe|].
  apply (Hfound "cached answer").
  vm_compute. reflexivity.
Defined.

(** X6.  Round trip through the cache: once an answer was delivered for a
    group whose cache held nothing similar to the query, the look-up of
    the same query, in any case, returns that answer for the next hour,
    also when the cache was full. *)
Theorem delivered_answer_is_served_for_an_hour env q q' ctx g r w later :
  http env = Resolved (Some (mkPayload true (Some r))) →
  truthy_str r = true → truthy_num g = true →
  (∀ item, item ∈ cache_of w g → similar q item = false) →
  toLowerCase q' = toLowerCase q →
  (later - clock w < 3600000)%Z →
  (getCachedResponse g q'
     (with_clock later (getResponse env q ctx (Some g) w).2)).1
  = inr (Some r).
Proof.
  intros Hhttp Hr Hg Hmiss Hq Hlater.
  rewrite getCachedResponse_run. cbn [fst].
  change (cache_of (with_clock later ?w0) g) with (cache_of w0 g).
  destruct (getResponse_delivered_cache env q ctx g r w Hhttp Hr Hg)
    as [-> _].
  rewrite find_app_miss.
  - unfold recent. simpl. by apply Z.ltb_lt in Hlater as ->.
  - intros item Hin. unfold similar. rewrite Hq. apply Hmiss.
    destruct (50 <=? _); [|done].
    destruct (cache_of w g); [done|]. by right.
  - by apply similar_same_query.
Qed.

Lemma delivered_answer_is_served_for_an_hour_witness :
  (getCachedResponse 1 "AND NOW?"
     (with_clock 3599999
        (getResponse (replying "It is noon.") "And now?" "" (Some 1%Z)
                     cached_world).2)).1
  = inr (Some "It is noon.").
Proof.
  apply (delivered_answer_is_served_for_an_hour (replying "It is noon.")
           "And now?" "AND NOW?" "" 1%Z "It is noon." cached_world 3599999);
    try reflexivity.
  intros item Hin. vm_compute in Hin.
  apply list_elem_of_singleton in Hin as ->. vm_compute. reflexivity.
Defined.

(** X7.  The two parsing helpers never throw and answer well-formed
    values, whatever the endpoint says: [analyzeSentiment] one of the
    three labels, [extractKeywords] a list without an empty keyword. *)
Theorem parsing_helpers_answer_well_formed_values env text count w :
  (∃ s, (analyzeSentiment env text w).1 = inr s ∧
        s ∈ ["positive"; "negative"; "neutral"]) ∧
  (∃ ks, (extractKeywords env text count w).1 = inr ks ∧
         Forall (fun k => k ≠ EmptyString) ks).
Proof.
  split.
  - destruct (analyzeSentiment_run env text w) as [q ->]. cbn [fst].
    eexists. split; [reflexivity|].
    destruct (client_reply env q) as [response|]; [|set_solver].
    cbv zeta. destruct (existsb _ _) eqn:Hin; [|set_solver].
    apply existsb_exists in Hin as (l & Hl%list_elem_of_In & ->%String.eqb_eq).
    done.
  - unfold extractKeywords. run_helper.
    destruct (client_reply env _) as [response|];
      [|by (eexists; split; [reflexivity|constructor])].
    eexists. split; [reflexivity|].
    apply Forall_forall. intros k [Hk _]%list_elem_of_filter.
    intros ->. simpl in Hk. lia.
Qed.

(** X8.  The classifiers fail open: when the endpoint rejects the request
    or answers without the expected shape, [analyzeSentiment] says
    neutral, and [isSpam] and [isInappropriate] say no, whatever the
    message is.  None of the three touches the database or the cache,
    whatever the endpoint does. *)
Theorem classifiers_fail_open env text rules w :
  (service_failed env = true →
   (analyzeSentiment env text w).1 = inr "neutral" ∧
   (isSpam env text w).1 = inr false ∧
   (isInappropriate env text rules w).1 = inr false) ∧
  tables (analyzeSentiment env text w).2 = tables w ∧
  conversationCache (analyzeSentiment env text w).2 = conversationCache w ∧
  tables (isSpam env text w).2 = tables w ∧
  conversationCache (isSpam env text w).2 = conversationCache w ∧
  tables (isInappropriate env text rules w).2 = tables w ∧
  conversationCache (isInappropriate env text rules w).2 = conversationCache w.
Proof.
  destruct (analyzeSentiment_run env text w) as [q1 ->].
  destruct (isSpam_run env text w) as [q2 ->].
  destruct (isInappropriate_run env text rules w) as [q3 ->].
  cbn [fst snd]. split; [|done].
  intros Hfail. split_and!.
  - destruct (failed_reply env q1 Hfail) as [->|(f & -> & Hf)]; [done|].
    cbv zeta. by rewrite fallback_is_no_label.
  - destruct (failed_reply env q2 Hfail) as [->|(f & -> & Hf)]; [done|].
    by rewrite fallback_says_no_yes.
  - destruct (failed_reply env q3 Hfail) as [->|(f & -> & Hf)]; [done|].
    by rewrite fallback_says_no_yes.
Qed.

Lemma classifiers_fail_open_witness :
  (analyzeSentiment (answering Rejected) "I love this group" start).1
  = inr "neutral".
Proof.
  exact (proj1 (proj1 (classifiers_fail_open (answering Rejected)
                         "I love this group" [] start) eq_refl)).
Defined.

(** X9.  [summarize], [generateWelcomeMessage] and [improveResponse] send
    one request and hand back what the completion client answers to it,
    [null] and the fallback apologies included: the substitutes of their
    own [catch] branches (the truncated text, the plain welcome, the
    original answer) are never used, since [getResponse] does not throw. *)
Theorem rewriting_helpers_return_the_client_reply env w :
  (∀ text n,
     ∃ q, summarize env text n w
          = (inr (client_reply env q), with_outbox (outbox w ++ [HttpGet q]) w)) ∧
  (∀ user group purpose,
     ∃ q, generateWelcomeMessage env user group purpose w
          = (inr (client_reply env q), with_outbox (outbox w ++ [HttpGet q]) w)) ∧
  (∀ question answer feedback,
     ∃ q, improveResponse env question answer feedback w
          = (inr (client_reply env q), with_outbox (outbox w ++ [HttpGet q]) w)).
Proof.
  split_and!; intros;
    unfold summarize, generateWelcomeMessage, improveResponse;
    match goal with
    | |- context [getResponse _ ?prompt _ _] => exists prompt
    end;
    by run_helper.
Qed.

(** X10.  Teach, then ask: with the driver up and the table well kept,
    a question that was just taught is retrieved under any ASCII casing of
    its text, with the taught answer, the taught source and confidence 1,
    whatever the table held for it before. *)
Theorem taught_answer_is_retrieved g q q' a s w :
  well_kept (tables w) → db_faults w = [] → LOWER q' = LOWER q →
  ∃ r, (findLearnedResponse g q' (addLearnedResponse g q a s w).2).1
       = inr (Some r) ∧
       lr_group_id r = g ∧ LOWER (lr_question r) = LOWER q ∧
       lr_answer r = a ∧ lr_confidence r = 1%Q ∧ lr_learned_from r = s.
Proof.
  intros Hwk Hup Hq.
  destruct (taught_is_retrieved g q q' a s w Hwk Hup Hq) as (r & Hfind & H).
  exists r. by rewrite Hfind.
Qed.

Lemma voted_down_well_kept : well_kept (tables voted_down).
Proof.
  split_and!; vm_compute.
  - apply NoDup_singleton.
  - repeat constructor. discriminate.
  - apply NoDup_singleton.
Defined.

Lemma taught_answer_is_retrieved_witness :
  ∃ r, (findLearnedResponse 1 "HI?"
          (addLearnedResponse 1 "Hi?" "Hey!" "admin" voted_down).2).1
       = inr (Some r) ∧
       lr_group_id r = 1%Z ∧ LOWER (lr_question r) = LOWER "Hi?" ∧
       lr_answer r = "Hey!" ∧ lr_confidence r = 1%Q ∧
       lr_learned_from r = "admin".
Proof.
  exact (taught_answer_is_retrieved 1 "Hi?" "HI?" "Hey!" "admin" voted_down
           voted_down_well_kept eq_refl eq_refl).
Defined.

(** X11.  Retrieval never writes, whatever it answers, and it only
    returns trusted rows of the asking group: a row it answers is in the
    table, belongs to the group, has a confidence above 0.5, and its
    question is the asked one up to ASCII case or matches it as a [LIKE]
    pattern. *)
Theorem retrieval_returns_trusted_rows_of_the_group g q w :
  tables (findLearnedResponse g q w).2 = tables w ∧
  ∀ r,
    (findLearnedResponse g q w).1 = inr (Some r) →
    r ∈ learned_responses (tables w) ∧
    lr_group_id r = g ∧
    (1 # 2 < lr_confidence r)%Q ∧
    (LOWER (lr_question r) = LOWER q ∨
     like ("%" +:+ LOWER (lr_question r) +:+ "%") (LOWER q) = true).
Proof.
  destruct (findLearnedResponse_cases g q w) as [Htables Hcases].
  split; [done|]. intros r Hfind.
  destruct Hcases as [Hnone|Hsome]; [congruence|].
  rewrite Hsome in Hfind. injection Hfind as Hfind.
  apply retrieved_sound in Hfind as [Hin Hmatch].
  split_and!; try done.
  - destruct Hmatch as [H|H]; unfold exact_match, partial_match in H;
      repeat (apply andb_true_iff in H as [H ?]); by apply Z.eqb_eq.
  - destruct Hmatch as [H|H]; unfold exact_match, partial_match in H;
      repeat (apply andb_true_iff in H as [H ?]); by apply gt_spec.
  - destruct Hmatch as [H|H]; unfold exact_match, partial_match in H;
      repeat (apply andb_true_iff in H as [H ?]).
    + left. by apply String.eqb_eq.
    + by right.
Qed.

Lemma retrieval_returns_trusted_rows_of_the_group_witness :
  tables (findLearnedResponse 1 "so, hi?" taught_and_used).2
  = tables taught_and_used ∧
  first_row ∈ learned_responses (tables taught_and_used) ∧
  lr_group_id first_row = 1%Z ∧
  (1 # 2 < lr_confidence first_row)%Q ∧
  (LOWER (lr_question first_row) = LOWER "so, hi?" ∨
   like ("%" +:+ LOWER (lr_question first_row) +:+ "%") (LOWER "so, hi?")
   = true).
Proof.
  destruct (retrieval_returns_trusted_rows_of_the_group 1 "so, hi?"
              taught_and_used) as [Hframe Hrow].
  split; [exact Hframe|].
  apply (Hrow first_row). reflexivity.
Defined.

(** X12.  The order of retrieval, with the driver up: a trusted row whose
    question is the asked one wins; without one, the answer is a trusted
    row whose question matches as a pattern and no such row has a higher
    confidence; and nothing is answered only when no trusted row matches
    either way. *)
Theorem retrieval_prefers_exact_then_highest_confidence g q w :
  no_fault 2 w →
  let rows := learned_responses (tables w) in
  match (findLearnedResponse g q w).1 with
  | inr (Some r) =>
      exact_match g q r = true ∨
      ((∀ r', r' ∈ rows → exact_match g q r' = false) ∧
       partial_match g q r = true ∧
       ∀ r', r' ∈ rows → partial_match g q r' = true →
             (lr_confidence r' <= lr_confidence r)%Q)
  | inr None =>
      ∀ r', r' ∈ rows → exact_match g q r' = false ∧ partial_match g q r' = false
  | inl _ => False
  end.
Proof.
  intros Hup rows. subst rows. rewrite (findLearnedResponse_up g q w Hup).
  unfold retrieved.
  destruct (head (filter _ _)) as [r|] eqn:Hexact.
  - left. apply head_Some_elem_of in Hexact.
    by apply list_elem_of_filter in Hexact as [? _].
  - apply head_None in Hexact.
    assert (∀ r', r' ∈ learned_responses (tables w) → exact_match g q r' = false)
      as Hno.
    { intros r' Hin. apply not_true_is_false. intros Hm.
      assert (r' ∈ filter (fun r => exact_match g q r = true)
                          (learned_responses (tables w))) as Hf
        by (by apply list_elem_of_filter).
      rewrite Hexact in Hf. by apply elem_of_nil in Hf. }
    destruct (head (order_by_desc _ _)) as [r|] eqn:Hpartial.
    + right. split; [done|].
      pose proof (head_Some_elem_of _ _ Hpartial) as Hin.
      apply elem_of_order_by_desc, list_elem_of_filter in Hin as [Hm Hin].
      split; [done|]. intros r' Hin' Hm'.
      apply (order_by_desc_head lr_confidence _ _ Hpartial).
      by apply list_elem_of_filter.
    + intros r' Hin. split; [by apply Hno|].
      apply not_true_is_false. intros Hm.
      apply head_None in Hpartial.
      assert (r' ∈ order_by_desc
                (fun a b => Js.gt (lr_confidence b) (lr_confidence a))
                (filter (fun r => partial_match g q r = true)
                        (learned_responses (tables w)))) as Hf
        by (by apply elem_of_order_by_desc, list_elem_of_filter).
      rewrite Hpartial in Hf. by apply elem_of_nil in Hf.
Qed.

Lemma retrieval_prefers_exact_then_highest_confidence_witness :
  match (findLearnedResponse 1 "so, hi?" taught_and_used).1 with
  | inr (Some r) =>
      exact_match 1 "so, hi?" r = true ∨
      ((∀ r', r' ∈ learned_responses (tables taught_and_used) →
              exact_match 1 "so, hi?" r' = false) ∧
       partial_match 1 "so, hi?" r = true ∧
       ∀ r', r' ∈ learned_responses (tables taught_and_used) →
             partial_match 1 "so, hi?" r' = true →
             (lr_confidence r' <= lr_confidence r)%Q)
  | inr None =>
      ∀ r', r' ∈ learned_responses (tables taught_and_used) →
            exact_match 1 "so, hi?" r' = false ∧
            partial_match 1 "so, hi?" r' = false
  | inl _ => False
  end.
Proof.
  apply (retrieval_prefers_exact_then_highest_confidence 1 "so, hi?"
           taught_and_used).
  intros k Hk. vm_compute. by destruct k.
Defined.

(** X13.  Confidence stays between 0 and 1: every sequence of teach,
    forget, feedback and usage operations keeps all confidences in that
    range, driver faults included; and feedback never adds or removes a
    row, however low the confidence gets. *)
Theorem confidence_stays_between_0_and_1 ops w i good :
  confidences_bounded (tables w) →
  confidences_bounded (tables (run_ops ops w)) ∧
  lr_id <$> learned_responses (tables (updateResponseConfidence i good w).2)
  = lr_id <$> learned_responses (tables w).
Proof.
  intros Hb. split; [by apply run_ops_bounded|].
  apply updateResponseConfidence_rows.
Qed.

Lemma start_confidences_bounded : confidences_bounded (tables start).
Proof. constructor. Defined.

Lemma confidence_stays_between_0_and_1_witness :
  confidences_bounded
    (tables (run_ops [(1000, Teach 1 "Hi?" "Hello!" "manual");
                      (2000, Feedback 1 true);
                      (3000, Feedback 1 false)]%Z start)).
Proof.
  exact (proj1 (confidence_stays_between_0_and_1
                  [(1000, Teach 1 "Hi?" "Hello!" "manual");
                   (2000, Feedback 1 true);
                   (3000, Feedback 1 false)]%Z start 1%Z true
                  start_confidences_bounded)).
Defined.

(** X14.  [forgetLearnedData] with a keyword free of [%] and [_]: when
    the driver runs its statement, the entries of the group whose
    question or answer contains the keyword, up to ASCII case, are
    removed and no other row of any table changes, and the answer is the
    number of the entries removed; when the driver throws at the
    statement, every table is as before and the answer is 0. *)
Theorem forget_removes_the_entries_that_mention_the_keyword g k w :
  wildcard_free k = true →
  let rows := learned_responses (tables w) in
  (db_faults w !! 0 ≠ Some true →
   tables (forgetLearnedData g k w).2
   = with_learned (filter (fun r => mentions g k r = false)) (tables w) ∧
   (forgetLearnedData g k w).1
   = inr (Z.of_nat (length (filter (fun r => mentions g k r = true) rows)))) ∧
  (db_faults w !! 0 = Some true →
   tables (forgetLearnedData g k w).2 = tables w ∧
   (forgetLearnedData g k w).1 = inr 0%Z).
Proof.
  intros Hk. apply forgetLearnedData_outcome. intros r. by apply doomed_mentions.
Qed.

Lemma forget_removes_the_entries_that_mention_the_keyword_witness :
  learned_responses (tables (forgetLearnedData 1 "HELLO" taught_and_used).2)
  = [] ∧
  (forgetLearnedData 1 "HELLO" taught_and_used).1 = inr 1%Z ∧
  tables (forgetLearnedData 1 "HELLO"
            (with_db_faults [true] taught_and_used)).2
  = tables taught_and_used ∧
  (forgetLearnedData 1 "HELLO" (with_db_faults [true] taught_and_used)).1
  = inr 0%Z.
Proof.
  destruct (forget_removes_the_entries_that_mention_the_keyword
              1 "HELLO" taught_and_used eq_refl) as [Hruns _].
  destruct Hruns as [Hrows Hcount]; [discriminate|].
  destruct (forget_removes_the_entries_that_mention_the_keyword
              1 "HELLO" (with_db_faults [true] taught_and_used) eq_refl)
    as [_ Hthrows].
  destruct Hthrows as [Hsame Hzero]; [reflexivity|].
  split; [by rewrite Hrows|]. split; [by rewrite Hcount|].
  split; [exact Hsame | exact Hzero].
Defined.

(** X15.  The keyword is a [LIKE] pattern: with the keyword [%], and the
    driver up, [forgetLearnedData] removes every entry of the group, and
    leaves the other groups' entries alone. *)
Theorem forget_percent_removes_every_entry_of_the_group g w :
  no_fault 1 w →
  learned_responses (tables (forgetLearnedData g "%" w).2)
  = filter (fun r => lr_group_id r ≠ g) (learned_responses (tables w)) ∧
  (forgetLearnedData g "%" w).1
  = inr (Z.of_nat (length (filter (fun r => lr_group_id r = g)
                                  (learned_responses (tables w))))).
Proof.
  intros Hup.
  destruct (forgetLearnedData_run (fun r => (lr_group_id r =? g)%Z) g "%" w)
    as (_ & Hrows & Hcount).
  { intros r. change ("%" +:+ toLowerCase "%" +:+ "%") with "%%%".
    by rewrite !like_any_3, andb_true_r. }
  rewrite Hcount, (Hrows Hup).
  assert (∀ l : list LearnedRow,
            filter (fun r => (lr_group_id r =? g)%Z = false) l
            = filter (fun r => lr_group_id r ≠ g) l) as Hkeep.
  { intros l. apply list_filter_iff. intros r.
    by rewrite Z.eqb_neq. }
  assert (∀ l : list LearnedRow,
            filter (fun r => (lr_group_id r =? g)%Z = true) l
            = filter (fun r => lr_group_id r = g) l) as Hdrop.
  { intros l. apply list_filter_iff. intros r. by rewrite Z.eqb_eq. }
  rewrite Hkeep. split; [done|]. do 2 f_equal.
  pose proof (filter_split_length (fun r => (lr_group_id r =? g)%Z)
                (learned_responses (tables w))) as Hlen.
  rewrite Hkeep, Hdrop in Hlen. lia.
Qed.

Lemma forget_percent_removes_every_entry_of_the_group_witness :
  learned_responses (tables (forgetLearnedData 1 "%" taught_and_used).2)
  = filter (fun r => lr_group_id r ≠ 1%Z)
           (learned_responses (tables taught_and_used)) ∧
  (forgetLearnedData 1 "%" taught_and_used).1
  = inr (Z.of_nat (length (filter (fun r => lr_group_id r = 1%Z)
                                  (learned_responses (tables taught_and_used))))).
Proof.
  apply (forget_percent_removes_every_entry_of_the_group 1 taught_and_used).
  intros k Hk. vm_compute. by destruct k.
Defined.

(** X16.  Round trip of a persisted setup session, with the driver up.
    After [saveSetupState] the user's row carries the given step and data
    and the time of the call; its group is the given one for a user
    without a row, and stays the one of the user's row otherwise.  After
    [deleteSetupState] the user has no row.  Either way the sessions of
    the other users are as before, and there is still one row per user. *)
Theorem persisted_setup_session_round_trip u g step data w :
  db_faults w = [] → unique_users (tables w) →
  let after_save := (saveSetupState u g step data w).2 in
  let after_delete := (deleteSetupState u w).2 in
  (getSetupState u after_save).1
  = inr (Some (mkSetupRow u
                 (match setup_row (tables w) u with
                  | Some old => ss_group_id old
                  | None => g
                  end) step data (clock w / 1000)%Z)) ∧
  (getSetupState u after_delete).1 = inr None ∧
  (∀ u', u' ≠ u →
         setup_row (tables after_save) u' = setup_row (tables w) u' ∧
         setup_row (tables after_delete) u' = setup_row (tables w) u') ∧
  unique_users (tables after_save) ∧ unique_users (tables after_delete).
Proof.
  intros Hup Huniq w1 w2. subst w1 w2.
  destruct (saveSetupState_up u g step data w Hup) as [Hup1 Hrows1].
  destruct (deleteSetupState_up u w Hup) as [Hup2 Hrows2].
  rewrite !getSetupState_up by done. unfold setup_row, unique_users.
  rewrite Hrows1, Hrows2. cbn [fst]. split_and!.
  - by rewrite saved_row.
  - by rewrite filter_filter_head_same.
  - intros u' Hne. split.
    + by apply saved_others.
    + by apply filter_filter_head_other.
  - by apply saved_unique.
  - by apply NoDup_fmap_filter.
Qed.

Lemma persisted_setup_session_round_trip_witness :
  (getSetupState 7 (saveSetupState 7 1 "tone" empty_data start).2).1
  = inr (Some (mkSetupRow 7 1 "tone" empty_data 0)).
Proof.
  exact (proj1 (persisted_setup_session_round_trip 7 1 "tone" empty_data start
                  eq_refl (NoDup_nil_2 : unique_users (tables start)))).
Defined.

(** X17.  Registering a group, with the driver up: a group that has a row
    keeps it, configuration included, and no table changes; a group
    without a row gets one that is neither set up nor paused.  There is
    still one row per group. *)
Theorem registering_a_group_keeps_its_configuration g name w :
  db_faults w = [] → unique_groups (tables w) →
  let w' := (addGroup g name w).2 in
  match group_row (tables w) g with
  | Some old => tables w' = tables w
  | None => group_row (tables w') g = Some (fresh_group g name)
  end ∧
  (∀ g', g' ≠ g → group_row (tables w') g' = group_row (tables w) g') ∧
  unique_groups (tables w').
Proof.
  intros Hup Huniq w'. subst w'. rewrite addGroup_up by done.
  cbn [snd tables with_tables].
  destruct (group_row (tables w) g) as [old|] eqn:Hrow.
  - assert (with_groups (fun rows => rows) (tables w) = tables w) as ->
      by apply tables_eta.
    done.
  - unfold group_row, unique_groups in *. cbn [groups with_groups].
    split_and!.
    + by rewrite head_filter_app_miss.
    + intros g' Hne. rewrite head_filter_app_other; [done|]. simpl. congruence.
    + by apply NoDup_fmap_insert.
Qed.

Lemma registering_a_group_keeps_its_configuration_witness :
  tables (addGroup 1 (Some "Renamed") start).2 = tables start.
Proof.
  exact (proj1 (registering_a_group_keeps_its_configuration 1 (Some "Renamed")
                  start eq_refl (NoDup_singleton 1%Z))).
Defined.

(** X18.  Configuring a group, with the driver up: the row of a registered
    group takes the purpose, tone, rules and triggers given, is marked set
    up, and keeps its name and its pause flag; for a group without a row
    nothing is written at all.  The rows of the other groups are as
    before. *)
Theorem configuration_is_read_back g config w :
  db_faults w = [] →
  let w' := (updateGroupConfig (Some g) config w).2 in
  match group_row (tables w) g with
  | Some old => (getGroup g w').1 = inr (Some (configured config old))
  | None => tables w' = tables w
  end ∧
  (∀ g', g' ≠ g → group_row (tables w') g' = group_row (tables w) g').
Proof.
  intros Hup w'. subst w'. rewrite updateGroupConfig_up by done. cbn [snd].
  split.
  - destruct (group_row (tables w) g) as [old|] eqn:Hrow.
    + rewrite getGroup_up by done. cbn [fst tables with_tables].
      rewrite group_row_update by done. rewrite Hrow, decide_True by done.
      done.
    + simpl. by apply update_no_row.
  - intros g' Hne. cbn [tables with_tables].
    rewrite group_row_update by done. rewrite decide_False by done.
    by destruct (group_row (tables w) g').
Qed.

Lemma configuration_is_read_back_witness :
  (getGroup 1 (updateGroupConfig (Some 1%Z)
                 (mkSetupData (Some "Chess") (Some "Formal") (Some [])
                              (Some ["help"])) start).2).1
  = inr (Some (mkGroup 1 (Some "Gamers") (Some "Chess") (Some "Formal")
                       (Some []) (Some ["help"]) true false)).
Proof.
  exact (proj1 (configuration_is_read_back 1
                  (mkSetupData (Some "Chess") (Some "Formal") (Some [])
                               (Some ["help"])) start eq_refl)).
Defined.

(** X19.  Only administrators change the bot: when the sender is not an
    administrator or creator, or when the membership check throws,
    [/train], [/forget], [/pause], [/resume] and [/quicksetup] leave every
    table as it is and make no call into the database. *)
Theorem only_administrators_change_the_bot env msg input w :
  sender_is_admin env = false →
  (tables (handleTrain env msg input w).2 = tables w ∧
   db_faults (handleTrain env msg input w).2 = db_faults w) ∧
  (tables (handleForget env msg input w).2 = tables w ∧
   db_faults (handleForget env msg input w).2 = db_faults w) ∧
  (tables (handlePause env msg w).2 = tables w ∧
   db_faults (handlePause env msg w).2 = db_faults w) ∧
  (tables (handleResume env msg w).2 = tables w ∧
   db_faults (handleResume env msg w).2 = db_faults w) ∧
  (tables (handleQuickSetup env msg input w).2 = tables w ∧
   db_faults (handleQuickSetup env msg input w).2 = db_faults w).
Proof.
  intros Hadmin. split_and!.
  all: first [ by apply handleTrain_denied | by apply handleForget_denied
             | by apply handlePause_denied | by apply handleResume_denied
             | by apply handleQuickSetup_denied ].
Qed.

Lemma only_administrators_change_the_bot_witness :
  tables (handleForget (answering Rejected) (says "/forget hi") "hi"
            taught_and_used).2
  = tables taught_and_used.
Proof.
  exact (proj1 (proj1 (proj2 (only_administrators_change_the_bot
                  (answering Rejected) (says "/forget hi") "hi"
                  taught_and_used eq_refl)))).
Defined.


(** X20.  A malformed command writes nothing: for an administrator,
    [/train] with an argument that does not split into two parts at [|],
    and [/quicksetup], in a group, with one that does not split into four,
    send the format hint of the command and do nothing else: the tables,
    the fault schedule, the cache and the sessions are as before,
    whatever the driver would do. *)
Theorem malformed_commands_write_nothing env msg input w :
  sender_is_admin env = true →
  (length (split "|" input) ≠ 2 →
   handleTrain env msg input w
   = (inr tt,
      with_outbox
        (outbox w ++
         [SendMessage (IdNum (chat_id msg))
            (Text "❌ Invalid format. Use: `/train question|answer`") None])
        w))
  ∧
  (length (split "|" input) ≠ 4 →
   String.eqb (chat_type msg) "private" = false →
   handleQuickSetup env msg input w
   = (inr tt,
      with_outbox
        (outbox w ++
         [SendMessage (IdNum (chat_id msg)) (Text quicksetup_hint) None])
        w)).
Proof.
  intros Hadmin. split.
  - intros Hparts. rewrite handleTrain_admin by done.
    by destruct (split "|" input) as [|question [|answer [|]]].
  - intros Hparts Hgroup. by apply handleQuickSetup_malformed.
Qed.

Lemma malformed_commands_write_nothing_witness :
  tables (handleTrain admin (says "/train Hi? Hello!") "Hi? Hello!" start).2
  = tables start ∧
  outbox (handleQuickSetup admin (says "/quicksetup Gaming") "Gaming"
            (with_db_faults [true] start)).2
  = [SendMessage (IdNum 1%Z) (Text quicksetup_hint) None].
Proof.
  destruct (malformed_commands_write_nothing admin
              (says "/train Hi? Hello!") "Hi? Hello!" start eq_refl)
    as [Htrain _].
  destruct (malformed_commands_write_nothing admin
              (says "/quicksetup Gaming") "Gaming"
              (with_db_faults [true] start) eq_refl)
    as [_ Hquick].
  split.
  - rewrite Htrain; [reflexivity | vm_compute; lia].
  - rewrite Hquick; [reflexivity | vm_compute; lia | reflexivity].
Defined.

(** X21.  A group that is not ready gets no reply: when [getGroup] finds
    no row (or the driver throws there), or the row is not set up, or it
    is paused, [handleGroupMessage] hands nothing to the transport and
    writes nothing, not even the message. *)
Theorem unready_group_gets_no_reply env msg w :
  match (getGroup (chat_id msg) w).1 with
  | inr (Some group) => g_setup_complete group = false ∨ g_paused group = true
  | _ => True
  end →
  (handleGroupMessage env msg w).1 = inr tt ∧
  outbox (handleGroupMessage env msg w).2 = outbox w ∧
  tables (handleGroupMessage env msg w).2 = tables w.
Proof.
  intros Hunready. rewrite handleGroupMessage_unready by done. cbn [fst snd].
  destruct (getGroup_frame (chat_id msg) w) as [Ht Ho]. by rewrite Ht, Ho.
Qed.

Lemma unready_group_gets_no_reply_witness :
  outbox (handleGroupMessage (replying "Hello!") (elsewhere "Anyone here?")
            start).2 = outbox start.
Proof.
  exact (proj1 (proj2 (unready_group_gets_no_reply (replying "Hello!")
                         (elsewhere "Anyone here?") start I))).
Defined.

(** X22.  Pause and resume: once an administrator has paused the group,
    with the driver up, every message of that group is dropped without any
    effect, whoever sends it and whatever it says; the other groups are
    not concerned; and [/resume] leaves the group's row as it was before
    the pause, with the flag cleared. *)
Theorem paused_group_is_silent_until_resumed env msg w :
  sender_is_admin env = true → db_faults w = [] →
  let w1 := (handlePause env msg w).2 in
  let w2 := (handleResume env msg w1).2 in
  (∀ env' msg', chat_id msg' = chat_id msg →
                handleGroupMessage env' msg' w1 = (inr tt, w1)) ∧
  (∀ g', g' ≠ chat_id msg → group_row (tables w1) g' = group_row (tables w) g') ∧
  group_row (tables w2) (chat_id msg)
  = pause_set false <$> group_row (tables w) (chat_id msg).
Proof.
  intros Hadmin Hup w1 w2. subst w1 w2.
  rewrite (handlePause_admin env msg w) by done. cbn [snd].
  rewrite handleResume_admin by (done || by rewrite togglePause_up).
  rewrite !togglePause_up by (done || by rewrite togglePause_up).
  cbn [snd tables with_tables with_outbox].
  split_and!.
  - intros env' msg' Hchat.
    match goal with |- handleGroupMessage _ _ ?x = _ => set (w1 := x) end.
    assert (db_faults w1 = []) as Hup1 by exact Hup.
    assert (getGroup (chat_id msg') w1
            = (inr (pause_set true <$> group_row (tables w) (chat_id msg)), w1))
      as Hget.
    { rewrite getGroup_up by done. f_equal. f_equal.
      subst w1. cbn [tables with_tables with_outbox].
      rewrite Hchat, group_row_update by done.
      rewrite decide_True by done. done. }
    rewrite handleGroupMessage_unready; rewrite Hget; [done|]. cbn [fst].
    destruct (group_row (tables w) (chat_id msg)); [by right|done].
  - intros g' Hne. rewrite group_row_update by done.
    rewrite decide_False by done. by destruct (group_row (tables w) g').
  - rewrite group_row_update by done. rewrite group_row_update by done.
    destruct (decide (chat_id msg = chat_id msg)); [|done].
    by destruct (group_row (tables w) (chat_id msg)).
Qed.

Lemma paused_group_is_silent_until_resumed_witness :
  handleGroupMessage (replying "Hello!") (says "Anyone here?")
    (handlePause admin (says "/pause") start).2
  = (inr tt, (handlePause admin (says "/pause") start).2).
Proof.
  exact (proj1 (paused_group_is_silent_until_resumed admin (says "/pause")
                  start eq_refl eq_refl)
           (replying "Hello!") (says "Anyone here?") eq_refl).
Defined.

(** X23.  Train, then ask: after an administrator's [/train q|a], with
    the driver up and the table well kept, a message of that group whose
    text is [q] (trimmed, in any ASCII casing), which passes the triggers
    and replies to nobody, is answered with [a] (trimmed), as a reply to
    that message and with the feedback buttons; nothing goes to the
    completion endpoint. *)
Theorem trained_question_is_answered env msg input q a env' msg' group w :
  sender_is_admin env = true → db_faults w = [] → well_kept (tables w) →
  split "|" input = [q; a] →
  group_row (tables w) (chat_id msg) = Some group →
  g_setup_complete group = true → g_paused group = false →
  chat_id msg' = chat_id msg → reply_to_message msg' = None →
  shouldRespond env' msg' group = true →
  LOWER (text msg') = LOWER (trim q) →
  let w1 := (handleTrain env msg input w).2 in
  ∃ id,
    outbox (handleGroupMessage env' msg' w1).2
    = outbox w1 ++
      [SendChatAction (chat_id msg') "typing";
       SendMessage (IdNum (chat_id msg')) (Text (trim a))
                   (Some (message_id msg'));
       EditReplyMarkup (chat_id msg') (sent_message_id env') id].
Proof.
  intros Hadmin Hup Hwk Hparts Hrow Hsetup Hpaused Hchat Hreply Hrespond Hq w1.
  subst w1. rewrite handleTrain_admin, Hparts by done. cbn [snd].
  pose proof (addLearnedResponse_well_kept (chat_id msg) (trim q) (trim a)
                "manual" w Hwk) as Hwk'.
  destruct (addLearnedResponse_up (chat_id msg) (trim q) (trim a) "manual" w Hup)
    as (Hup' & Hout & Hgroups & r & Hin & Hsame & Ha & Hc & Hs).
  set (wa := (addLearnedResponse (chat_id msg) (trim q) (trim a) "manual" w).2)
    in *.
  match goal with
  | |- context [handleGroupMessage _ _ ?x] => set (w1 := x)
  end.
  destruct (handleGroupMessage_ready env' msg' group w1)
    as (t & Hlearned & ->); try done.
  { rewrite Hchat. unfold group_row in *. subst w1.
    cbn [tables with_outbox]. by rewrite Hgroups. }
  match goal with
  | |- context [replyToGroupMessage _ _ _ ?x] => set (w2 := x)
  end.
  assert (exact_match (chat_id msg') (text msg') r = true) as Hexact.
  { rewrite exact_match_same, (same_question_fold _ (trim q)) by done.
    by rewrite Hchat, Hsame, Hc. }
  assert (findLearnedResponse (chat_id msg') (text msg') w2 = (inr (Some r), w2))
    as Hfind.
  { apply trusted_row_is_found; subst w2 w1; cbn [tables with_tables with_outbox
      db_faults]; rewrite ?Hlearned; cbn [tables with_outbox]; try done.
    by destruct Hwk' as (_ & _ & Hkeys). }
  destruct (reply_trusted env' msg' group w2 r w2 Hfind) as (t' & f' & ->).
  { by rewrite Hc. }
  cbn [snd outbox]. eexists. subst w2 w1. cbn [outbox with_outbox with_tables].
  rewrite Ha, <- !app_assoc. reflexivity.
Qed.

Lemma trained_question_is_answered_witness :
  ∃ id,
    outbox (handleGroupMessage member (says "what is the PLAN?")
              (handleTrain admin (says "/train What is the plan? | Chess at 8")
                 "What is the plan? | Chess at 8" start).2).2
    = outbox (handleTrain admin (says "/train What is the plan? | Chess at 8")
                "What is the plan? | Chess at 8" start).2 ++
      [SendChatAction 1%Z "typing";
       SendMessage (IdNum 1%Z) (Text "Chess at 8") (Some 55%Z);
       EditReplyMarkup 1%Z 901%Z id].
Proof.
  exact (trained_question_is_answered admin
           (says "/train What is the plan? | Chess at 8")
           "What is the plan? | Chess at 8" "What is the plan? " " Chess at 8"
           member (says "what is the PLAN?") gaming start
           eq_refl eq_refl well_kept_empty eq_refl eq_refl eq_refl eq_refl
           eq_refl eq_refl eq_refl eq_refl).
Defined.

(** X24.  [/quicksetup] by an administrator, in a group that has a row,
    with the driver up and an argument of four parts: the group's row is
    then set up with the trimmed purpose and tone, with the rules read
    from the third part (none for the word none, in any case, and the
    trimmed comma-separated items otherwise) and the triggers read from
    the fourth (the sentinel alone for the word all); the name and the
    pause flag stay. *)
Theorem quicksetup_configures_the_group env msg input p t r g old w :
  String.eqb (chat_type msg) "private" = false →
  sender_is_admin env = true → db_faults w = [] →
  split "|" input = [p; t; r; g] →
  group_row (tables w) (chat_id msg) = Some old →
  (getGroup (chat_id msg) (handleQuickSetup env msg input w).2).1
  = inr (Some (configured
                 (mkSetupData (Some (trim p)) (Some (trim t))
                    (Some (parse_rules (trim r)))
                    (Some (parse_triggers (trim g)))) old)).
Proof.
  intros Hgroup Hadmin Hup Hparts Hrow.
  rewrite handleQuickSetup_admin, Hparts by done. cbn [fmap list_fmap snd].
  rewrite updateGroupConfig_up by done. cbn [snd].
  rewrite getGroup_up by done. cbn [fst tables with_tables with_outbox].
  rewrite group_row_update by done. rewrite Hrow.
  by destruct (decide (chat_id msg = chat_id msg)).
Qed.

Lemma quicksetup_configures_the_group_witness :
  (getGroup 1
     (handleQuickSetup admin (says "/quicksetup Chess club | Formal |NONE| ALL")
        "Chess club | Formal |NONE| ALL" start).2).1
  = inr (Some (mkGroup 1 (Some "Gamers") (Some "Chess club") (Some "Formal")
                       (Some []) (Some ["all"]) true false)).
Proof.
  exact (quicksetup_configures_the_group admin
           (says "/quicksetup Chess club | Formal |NONE| ALL")
           "Chess club | Formal |NONE| ALL" "Chess club " " Formal " "NONE"
           " ALL" gaming start eq_refl eq_refl eq_refl eq_refl eq_refl).
Defined.

(** X25.  [/quicksetup] in a group that has no row reports success and
    writes nothing: the summary is sent, every table is as before, and the
    group is still unknown to [getGroup]. *)
Theorem quicksetup_of_an_unregistered_group_writes_nothing
    env msg input p t r g w :
  String.eqb (chat_type msg) "private" = false →
  sender_is_admin env = true → db_faults w = [] →
  split "|" input = [p; t; r; g] →
  group_row (tables w) (chat_id msg) = None →
  let w' := (handleQuickSetup env msg input w).2 in
  tables w' = tables w ∧
  (getGroup (chat_id msg) w').1 = inr None ∧
  outbox w'
  = outbox w ++
    [SendMessage (IdNum (chat_id msg))
       (Text (quicksetup_summary (trim p) (trim t) (parse_rules (trim r))
                (parse_triggers (trim g)))) None].
Proof.
  intros Hgroup Hadmin Hup Hparts Hrow w'. subst w'.
  rewrite handleQuickSetup_admin, Hparts by done. cbn [fmap list_fmap snd].
  rewrite updateGroupConfig_up by done. cbn [snd].
  rewrite getGroup_up by done. cbn [fst tables with_tables with_outbox outbox].
  rewrite update_no_row by done. by rewrite Hrow.
Qed.

Lemma quicksetup_of_an_unregistered_group_writes_nothing_witness :
  tables (handleQuickSetup admin (elsewhere "/quicksetup a|b|c|d") "a|b|c|d"
            start).2
  = tables start.
Proof.
  exact (proj1 (quicksetup_of_an_unregistered_group_writes_nothing admin
                  (elsewhere "/quicksetup a|b|c|d") "a|b|c|d" "a" "b" "c" "d"
                  start eq_refl eq_refl eq_refl eq_refl eq_refl)).
Defined.

(** X26.  The bot keeps its tables consistent when its events are
    handled one at a time, each handler run to its end before the next
    event is taken.  Whatever sequence of messages, administrators'
    commands and button presses the /quicksetup listing then handles,
    under any answers of the environment and any driver faults, the
    knowledge store keeps one row per question and distinct ids, every
    confidence stays between 0 and 1, no interaction ever carries a
    feedback value, and the response cache is never written.  In
    particular the accuracy that [getGroupStats] reports is always 0.
    (Handlers that overlap are another matter: two overlapping teaches of
    one new question leave two rows.) *)
Theorem bot_keeps_its_tables_consistent evs g w :
  well_kept (tables w) → confidences_bounded (tables w) → unrated (tables w) →
  let w' := run_events evs w in
  well_kept (tables w') ∧ confidences_bounded (tables w') ∧
  unrated (tables w') ∧
  conversationCache w' = conversationCache w ∧
  ∃ stats, (getGroupStats g w').1 = inr stats ∧ accuracy stats = Some 0%Z.
Proof.
  intros Hwk Hcb Hur w'. subst w'.
  destruct (run_events_consistent (conversationCache w) evs w)
    as (Hwk' & Hcb' & Hur' & Hc'); [done|].
  split_and!; try done. by apply unrated_accuracy.
Qed.

Lemma bot_keeps_its_tables_consistent_witness :
  ∃ stats,
    (getGroupStats 1
       (run_events
          [(1000, OnTrain admin (says "/train Hi? | Hello!") "Hi? | Hello!");
           (2000, OnMessage member (says "hi?"));
           (3000, OnButton member (mkCallbackQuery "q2" 7 "feedback_good_1" 1 900));
           (4000, OnMessage (replying "Fine.") (says "How are you?"))]%Z
          start)).1 = inr stats ∧
    accuracy stats = Some 0%Z.
Proof.
  exact (proj2 (proj2 (proj2 (proj2
           (bot_keeps_its_tables_consistent
              [(1000, OnTrain admin (says "/train Hi? | Hello!") "Hi? | Hello!");
               (2000, OnMessage member (says "hi?"));
               (3000, OnButton member
                        (mkCallbackQuery "q2" 7 "feedback_good_1" 1 900));
               (4000, OnMessage (replying "Fine.") (says "How are you?"))]%Z
              1%Z start well_kept_empty (Forall_nil_2 _) (Forall_nil_2 _)))))).
Defined.

(** X27.  A pressed setup button never opens the dialogue: the session
    it creates is stored under the user id written as a string, so no
    entry under a numeric id appears or changes, and the guard of
    [handleMessage], which looks the numeric id up, answers after the
    press what it answered before it, for every message. *)
Theorem setup_button_never_opens_the_dialogue env query w :
  let w' := (BotInteractive.handleCallbackQuery env query w).2 in
  (∀ user : Z, setupStates w' !! IdNum user = setupStates w !! IdNum user) ∧
  (∀ msg, BotInteractive.in_setup w' msg = BotInteractive.in_setup w msg).
Proof.
  intros w'.
  assert (∀ user : Z, setupStates w' !! IdNum user = setupStates w !! IdNum user)
    as Hkeys.
  { intros user. subst w'. apply SetupFacts.handleCallbackQuery_sessions. }
  split; [done|].
  intros msg. unfold BotInteractive.in_setup. by rewrite Hkeys.
Qed.

(** X28.  The dialogue, once a session stands under the numeric id at
    its first question: four answers, with the driver up and a group that
    has a row, send the three next questions and the summary, end the
    session, and leave the group set up with the first answer as purpose,
    the second as tone, the rules read from the third and the triggers
    read from the fourth. *)
Theorem dialogue_commits_the_collected_configuration
    env user gid data old m1 m2 m3 m4 w :
  from_id m1 = user → from_id m2 = user → from_id m3 = user →
  from_id m4 = user →
  db_faults w = [] →
  setupStates w !! IdNum user = Some (mkSetupState "purpose" (Some gid) data) →
  group_row (tables w) gid = Some old →
  let step m w := (BotInteractive.handleSetupFlow env m w).2 in
  let w4 := step m4 (step m3 (step m2 (step m1 w))) in
  let config :=
    mkSetupData (Some (text m1)) (Some (text m2))
                (Some (parse_rules (text m3)))
                (Some (parse_triggers (text m4))) in
  setupStates w4 !! IdNum user = None ∧
  (getGroup gid w4).1 = inr (Some (configured config old)) ∧
  outbox w4
  = outbox w ++
    [SendMessage (IdNum user) (Canned AskTone) None;
     SendMessage (IdNum user) (Canned AskRules) None;
     SendMessage (IdNum user) (Canned AskTriggers) None;
     SendMessage (IdNum user) (Canned (SetupSummary config)) None].
Proof.
  intros H1 H2 H3 H4 Hup Hstate Hrow step w4 config.
  subst w4 step config. cbv beta.
  rewrite (step_purpose env m1 w (Some gid) data) by (by rewrite H1).
  cbn [snd].
  rewrite (step_tone env m2 _ (Some gid)
             (mkSetupData (Some (text m1)) (sd_tone data) (sd_rules data)
                          (sd_triggers data)))
    by (rewrite H2, <- H1; apply lookup_insert_eq).
  cbn [snd].
  rewrite (step_rules env m3 _ (Some gid)
             (mkSetupData (Some (text m1)) (Some (text m2)) (sd_rules data)
                          (sd_triggers data)))
    by (rewrite H3, <- H2; apply lookup_insert_eq).
  cbn [snd].
  rewrite (step_triggers env m4 _ gid
             (mkSetupData (Some (text m1)) (Some (text m2))
                          (Some (parse_rules (text m3))) (sd_triggers data))
             (parse_rules (text m3)))
    by (done || (rewrite H4, <- H3; apply lookup_insert_eq)).
  cbn [snd sd_purpose sd_tone sd_rules].
  rewrite updateGroupConfig_up by done. cbn [snd].
  rewrite getGroup_up by done.
  cbn [fst tables outbox setupStates with_outbox with_setupStates with_tables].
  rewrite group_row_update by done. rewrite Hrow.
  split_and!.
  - rewrite H4. apply lookup_delete_eq.
  - by destruct (decide (gid = gid)).
  - rewrite H1, H2, H3, H4, <- !app_assoc. reflexivity.
Qed.

Lemma dialogue_commits_the_collected_configuration_witness :
  (getGroup 1
     (BotInteractive.handleSetupFlow member (answer "help, how")
        (BotInteractive.handleSetupFlow member (answer "None")
           (BotInteractive.handleSetupFlow member (answer "Formal")
              (BotInteractive.handleSetupFlow member (answer "Chess club")
                 in_dialogue).2).2).2).2).1
  = inr (Some (mkGroup 1 (Some "Gamers") (Some "Chess club") (Some "Formal")
                       (Some []) (Some ["help"; "how"]) true false)).
Proof.
  exact (proj1 (proj2 (dialogue_commits_the_collected_configuration member 7 1
                  empty_data gaming (answer "Chess club") (answer "Formal")
                  (answer "None") (answer "help, how") in_dialogue
                  eq_refl eq_refl eq_refl eq_refl eq_refl eq_refl eq_refl))).
Defined.

(** X29.  [exportGroupData] reads and never writes.  It answers [null]
    exactly when the driver throws at its own query, the second call into
    the database; a throw inside [getGroup] or [getGroupStats] does not
    stop the export.  Whenever it answers an object, the learned responses
    in it are exactly the rows of the group, and with the driver up the
    group and the statistics in it are what [getGroup] and
    [getGroupStats] answer for the group. *)
Theorem export_reads_the_entries_of_the_group g w :
  tables (exportGroupData g w).2 = tables w ∧
  outbox (exportGroupData g w).2 = outbox w ∧
  ((exportGroupData g w).1 = inr None ↔ db_faults w !! 1 = Some true) ∧
  (∀ e, (exportGroupData g w).1 = inr (Some e) →
        ex_learnedResponses e
        = filter (fun r => lr_group_id r = g) (learned_responses (tables w)) ∧
        ex_exportedAt e = clock w) ∧
  (db_faults w = [] →
   ∃ group stats,
     (getGroup g w).1 = inr group ∧
     (getGroupStats g w).1 = inr stats ∧
     (exportGroupData g w).1
     = inr (Some (mkExport group
                    (filter (fun r => lr_group_id r = g)
                            (learned_responses (tables w)))
                    stats (clock w)))).
Proof.
  destruct (exportGroupData_run g w) as (Ht & Ho & Hres).
  split_and!; try done.
  - destruct (db_faults w) as [|b1 [|[] fs]]; simpl;
      try (destruct Hres as (group & stats & ->)); split; try done.
  - intros e He.
    destruct (db_faults w) as [|b1 [|[] fs]];
      try (destruct Hres as (group & stats & Hres));
      rewrite Hres in He; try done; by injection He as <-.
  - intros Hup. clear Hres Ht Ho. destruct w as [t fs c ss now ob].
    simpl in Hup. subst fs. eexists _, _. split_and!; reflexivity.
Qed.

Lemma export_reads_the_entries_of_the_group_witness :
  ∃ group stats,
    (getGroup 1 taught_and_used).1 = inr group ∧
    (getGroupStats 1 taught_and_used).1 = inr stats ∧
    (exportGroupData 1 taught_and_used).1
    = inr (Some (mkExport group
                   (filter (fun r => lr_group_id r = 1%Z)
                           (learned_responses (tables taught_and_used)))
                   stats (clock taught_and_used))).
Proof.
  exact (proj2 (proj2 (proj2 (proj2
           (export_reads_the_entries_of_the_group 1 taught_and_used)))) eq_refl).
Defined.

(** X30.  [cleanupOldData] never touches what the bot has learned: the
    groups, the learned responses, the keywords, the user statistics and
    the persisted sessions are as before, whatever the driver does; no
    message or interaction from the last [days] days is removed; and with
    the driver up every older one is. *)
Theorem cleanup_keeps_the_knowledge_and_recent_rows days w :
  let t := tables w in
  let t' := tables (cleanupOldData days w).2 in
  (groups t' = groups t ∧ setup_states t' = setup_states t ∧
   learned_responses t' = learned_responses t ∧ learned_seq t' = learned_seq t ∧
   keywords t' = keywords t ∧ user_stats t' = user_stats t) ∧
  (∀ r, r ∈ messages t → (cutoff days w <= m_timestamp r)%Z → r ∈ messages t') ∧
  (∀ r, r ∈ interactions t → (cutoff days w <= in_timestamp r)%Z →
        r ∈ interactions t') ∧
  (db_faults w = [] →
   messages t'
   = filter (fun r => (cutoff days w <= m_timestamp r)%Z) (messages t) ∧
   interactions t'
   = filter (fun r => (cutoff days w <= in_timestamp r)%Z) (interactions t)).
Proof.
  destruct w as [t fs c ss now ob]. intros t0 t'. subst t0 t'.
  unfold cleanupOldData, cutoff. run_db.
  assert (∀ l : list MessageRow,
            filter (fun r => ¬ (m_timestamp r < now / 1000 - Z.of_nat days * 86400)%Z) l
            = filter (fun r => (now / 1000 - Z.of_nat days * 86400 <= m_timestamp r)%Z) l)
    as Hm by (intros l; apply list_filter_iff; intros r; lia).
  assert (∀ l : list InteractionRow,
            filter (fun r => ¬ (in_timestamp r < now / 1000 - Z.of_nat days * 86400)%Z) l
            = filter (fun r => (now / 1000 - Z.of_nat days * 86400 <= in_timestamp r)%Z) l)
    as Hi by (intros l; apply list_filter_iff; intros r; lia).
  destruct fs as [|[] [|[] fs]]; simpl; rewrite ?Hm, ?Hi;
    (split_and!; [done..| | |done]);
    intros r Hin Hrecent; try done; by apply list_elem_of_filter.
Qed.
